(** * ChessAI database creator: canonical keys, aggregation, splitting and
      the scored child-position pipeline

    A shallow embedding of [database_creator.py].  Python text is a list of
    characters; dictionaries are association lists in insertion order, the
    order Python iterates them in; exceptions are [None] or an explicit
    outcome; the chess rules engines (python-chess through [MyBoard], and
    [numba_board]) are interfaces, with a small instance for the closed
    examples. *)

From Stdlib Require Import Ascii String Bool Arith ZArith Lia List Permutation.
From Stdlib Require Import Floats.
Import ListNotations.

Open Scope string_scope.
Open Scope nat_scope.
Open Scope list_scope.

(** ** Python text *)

(** A Python [str] of ASCII characters, which is where every FEN and every
    board string lives.  The case and white-space functions below are
    Python's on code points below 128 ([ascii_text]); the statements that
    depend on them ask for such text. *)
Definition str := list ascii.

Coercion list_ascii_of_string : string >-> list.

Module Py.

Definition is_upper (c : ascii) : bool :=
  let n := nat_of_ascii c in (65 <=? n) && (n <=? 90).

Definition is_lower (c : ascii) : bool :=
  let n := nat_of_ascii c in (97 <=? n) && (n <=? 122).

(** [c.swapcase()] for one character. *)
Definition swapcase_char (c : ascii) : ascii :=
  if is_upper c then ascii_of_nat (nat_of_ascii c + 32)
  else if is_lower c then ascii_of_nat (nat_of_ascii c - 32)
  else c.

(** [s.swapcase()] *)
Definition swapcase (s : str) : str := map swapcase_char s.

(** [c.lower()], used only to phrase "case-insensitively". *)
Definition lower_char (c : ascii) : ascii :=
  if is_upper c then ascii_of_nat (nat_of_ascii c + 32) else c.

(** [x in s] for a one-character [x]. *)
Definition char_in (x : ascii) (s : str) : bool :=
  existsb (Ascii.eqb x) s.

Definition str_eqb (a b : str) : bool :=
  if list_eq_dec ascii_dec a b then true else false.

(** The ASCII characters [str.split()] treats as white space: tab to
    carriage return, the four separators and the blank. *)
Definition is_space (c : ascii) : bool :=
  let n := nat_of_ascii c in
  ((9 <=? n) && (n <=? 13)) || ((28 <=? n) && (n <=? 32)).

Definition ascii_text (s : str) : bool :=
  forallb (fun c => nat_of_ascii c <? 128) s.

(** [s[a:b]] for [0 <= a] and [0 <= b], clipped to the text as Python
    clips it. *)
Definition slice {A : Type} (s : list A) (a b : nat) : list A :=
  firstn (b - a) (skipn a s).

(** [s.split(sep)] for a one-character separator: always at least one
    piece, empty pieces kept. *)
Fixpoint split_on (sep : ascii) (s : str) : list str :=
  match s with
  | [] => [[]]
  | c :: s' =>
      if Ascii.eqb c sep then [] :: split_on sep s'
      else match split_on sep s' with
           | [] => [[c]]
           | w :: ws => (c :: w) :: ws
           end
  end.

(** [s.split()]: pieces between runs of white space, no empty piece. *)
Fixpoint split_ws (s : str) : list str :=
  match s with
  | [] => []
  | c :: s' =>
      if is_space c then split_ws s'
      else match s' with
           | [] => [[c]]
           | d :: _ =>
               if is_space d then [c] :: split_ws s'
               else match split_ws s' with
                    | [] => [[c]]
                    | w :: ws => (c :: w) :: ws
                    end
           end
  end.

(** [sep.join(pieces)] *)
Fixpoint join (sep : str) (pieces : list str) : str :=
  match pieces with
  | [] => []
  | [p] => p
  | p :: ps => p ++ sep ++ join sep ps
  end.

(** [int(c)] for a one-character string: a decimal digit or [ValueError]. *)
Definition int_of_char (c : ascii) : option nat :=
  let n := nat_of_ascii c in
  if (48 <=? n) && (n <=? 57) then Some (n - 48) else None.

(** [str(n)] for [0 <= n <= 9]. *)
Definition digit_char (n : nat) : ascii := ascii_of_nat (48 + n).

End Py.

(** ** The Canonicalizer *)

Module Canonicalizer.
Import Py.

(** Line 90 (and 468-469): of K, Q, k, q, - in this order, the characters
    found in the case-swapped rights. *)
Definition mirror_castling (rights : str) : str :=
  filter (fun x => char_in x (swapcase rights))
         ["K"; "Q"; "k"; "q"; "-"]%char.

(** Lines 91-92 (and 470-471); a field of one character other than [-]
    is an [IndexError], a rank that is no digit a [ValueError]. *)
Definition mirror_ep (ep : str) : option str :=
  if str_eqb ep "-" then Some ep
  else match ep with
       | f :: r :: _ =>
           match int_of_char r with
           | Some n => Some [f; digit_char (9 - n)]
           | None => None
           end
       | _ => None
       end.

(** Line 88 (and 466) *)
Definition mirror_placement (placement : str) : str :=
  join "/" (rev (map swapcase (split_on "/" placement))).

(** Lines 88-92 of [black_fen_to_white], repeated as lines 466-471 of
    [make_fen_white]: the in-place rewrite of the split FEN, [None] when a
    field is missing ([IndexError]) or the en-passant rewrite raises. *)
Definition mirror_fields (split_fen : list str) : option (list str) :=
  match split_fen with
  | f0 :: _ :: f2 :: f3 :: rest =>
      match mirror_ep f3 with
      | Some ep => Some (mirror_placement f0 :: ("w" : str)
                         :: mirror_castling f2 :: ep :: rest)
      | None => None
      end
  | _ => None
  end.

(** [black_fen_to_white], with the text of [the_board.fen()] as argument. *)
Definition black_fen_to_white (fen : str) : option str :=
  option_map (join ",") (mirror_fields (split_ws fen)).

(** [make_fen_white] *)
Definition make_fen_white (fen : str) : option str :=
  match split_ws fen with
  | _ :: f1 :: _ =>
      if str_eqb f1 "w" then Some fen
      else option_map (join ",") (mirror_fields (split_ws fen))
  | _ => None
  end.

(** Lines 118-121 of [create_database_from_pgn]: the comma-joined fields
    the key is projected from; [turn] is [the_board.turn], true for
    White. *)
Definition white_move_string (switch_black_move_to_white turn : bool)
    (fen : str) : option str :=
  if switch_black_move_to_white && negb turn then black_fen_to_white fen
  else Some (join "," (split_ws fen)).

(** The rights field as the specification words it: of K, Q, k, q and -,
    those present in the original rights when case is ignored. *)
Definition rights_present_ignoring_case (rights : str) : str :=
  filter (fun x =>
            existsb (fun c => Ascii.eqb (lower_char c) (lower_char x)) rights)
         ["K"; "Q"; "k"; "q"; "-"]%char.

(** Well-formed castling rights: [-] or a non-empty selection of [KQkq] in
    that order. *)
Definition wf_rights (rights : str) : bool :=
  existsb (str_eqb rights) (map list_ascii_of_string
    ["-"; "K"; "Q"; "k"; "q"; "KQ"; "Kk"; "Kq"; "Qk"; "Qq"; "kq";
     "KQk"; "KQq"; "Kkq"; "Qkq"; "KQkq"]%string).

(** A well-formed en-passant field: [-] or a file letter and a rank
    digit. *)
Definition wf_ep (ep : str) : bool :=
  str_eqb ep "-" ||
  match ep with
  | [_; r] => match int_of_char r with Some _ => true | None => false end
  | _ => false
  end.

Definition wf_fields (split_fen : list str) : bool :=
  match split_fen with
  | _ :: _ :: rights :: ep :: _ =>
      wf_rights rights && wf_ep ep && forallb ascii_text split_fen
  | _ => false
  end.

End Canonicalizer.

(** ** Filters *)

Module Filters.
Import Py.

(** [chr in "KQRBNPkqrbnp"] *)
Definition is_piece (chr : ascii) : bool := char_in chr "KQRBNPkqrbnp".
Arguments is_piece : simpl never.

(** [n_man_filter_creator(n)]: the returned [filter(str, data)].  The
    early [return False] leaves the loop at the first piece that takes the
    counter above [n]. *)
Fixpoint n_man_loop (n : Z) (counter : Z) (s : str) : bool :=
  match s with
  | [] => true
  | chr :: s' =>
      if is_piece chr then
        if (counter + 1 >? n)%Z then false
        else n_man_loop n (counter + 1) s'
      else n_man_loop n counter s'
  end.

Definition n_man_filter_creator {BoardInfo : Type} (n : Z)
  : str -> BoardInfo -> bool :=
  fun s _ => n_man_loop n 0 s.

(** The number of piece characters of a key. *)
Definition piece_count (s : str) : Z :=
  Z.of_nat (length (filter is_piece s)).

End Filters.

Module Splitter.

(** [int(math.floor(ratio * number_of_boards))] on binary64 floats; a NaN
    or an infinity makes [math.floor] raise. *)
Definition floor_float (x : float) : option Z :=
  match Prim2SF x with
  | S754_zero _ => Some 0%Z
  | S754_finite s m e =>
      let v := if s then Z.neg m else Z.pos m in
      Some (if (0 <=? e)%Z then v * 2 ^ e else v / 2 ^ (- e))%Z
  | _ => None
  end.

(** [[the_str[8 * j: 8 * (j + 1)] for j in range(8)]] *)
Definition rows8 (the_str : str) : list str :=
  map (fun j => Py.slice the_str (8 * j) (8 * (j + 1))) (seq 0 8).

(** [switch_from_blacks_move], local to [writer]. *)
Definition switch_from_blacks_move (the_str : str) : str :=
  Py.swapcase (concat (rev (rows8 the_str))).

Definition slice_size (ratio : float) (number_of_boards : nat) : option Z :=
  floor_float
    (PrimFloat.mul ratio
       (PrimFloat.of_uint63 (Uint63.of_Z (Z.of_nat number_of_boards)))).

End Splitter.

(** ** Dictionaries

    A Python [dict] as the list of its items in insertion order: assigning
    to a key that is present replaces the value where it stands, assigning
    to a new key appends. *)

Module Dict.
Section Dict.
Context {K V : Type} (eqb : K -> K -> bool).

Fixpoint get (d : list (K * V)) (k : K) : option V :=
  match d with
  | [] => None
  | (k', v) :: d' => if eqb k' k then Some v else get d' k
  end.

Fixpoint set (d : list (K * V)) (k : K) (v : V) : list (K * V) :=
  match d with
  | [] => [(k, v)]
  | (k', v') :: d' =>
      if eqb k' k then (k', v) :: d' else (k', v') :: set d' k v
  end.

(** [del d[k]] *)
Definition del (d : list (K * V)) (k : K) : list (K * V) :=
  filter (fun kv => negb (eqb (fst kv) k)) d.

End Dict.
End Dict.

(** ** The rules engine

    What [create_database_from_pgn] and the data writer use of
    python-chess through [MyBoard]: the starting board, a board from a
    FEN, [push], [fen()] and [turn].  Boards are values: [push] gives the
    board after the move, and the [pop] that follows each [push] in the
    writer is a return to the board before it. *)
Class RulesEngine := {
  Board : Type;
  Move : Type;
  move_eqb : Move -> Move -> bool;
  move_eqb_spec : forall a b, reflect (a = b) (move_eqb a b);
  new_board : Board;
  board_of_fen : str -> Board;
  push : Board -> Move -> Board;
  fen : Board -> str;
  turn : Board -> bool
}.

(** ** BoardInfo and the Aggregator *)

Module Aggregator.
Section Aggregator.
Context `{RulesEngine}.

(** [BoardInfo]: the [moves] dictionary, move to occurrence count. *)
Record BoardInfo := { moves : list (Move * nat) }.

(** [BoardInfo.update] *)
Definition update (info : BoardInfo) (move : Move) : BoardInfo :=
  match Dict.get move_eqb (moves info) move with
  | None => {| moves := Dict.set move_eqb (moves info) move 1 |}
  | Some c => {| moves := Dict.set move_eqb (moves info) move (c + 1) |}
  end.

(** [BoardInfo(move)] *)
Definition new_BoardInfo (move : Move) : BoardInfo :=
  update {| moves := [] |} move.

Definition Configs := list (str * BoardInfo).

Variable to_collect_filters : list (Board -> Move -> bool).
Variable post_collection_filters : list (str -> BoardInfo -> bool).
Variable switch_black_move_to_white : bool.
Variable fen_elements_stored : list nat.

(** Lines 109-114: the chain is left at the first filter that answers
    true. *)
Fixpoint should_save_from (filters : list (Board -> Move -> bool))
    (the_board : Board) (move : Move) : bool :=
  match filters with
  | [] => true
  | filter :: filters' =>
      if filter the_board move then false
      else should_save_from filters' the_board move
  end.

Definition should_save : Board -> Move -> bool :=
  should_save_from to_collect_filters.

(** Lines 123-124: the fields whose index is in [fen_elements_stored]. *)
Definition stored_fields (fields : list str) : list str :=
  map snd
    (filter (fun p => existsb (Nat.eqb (fst p)) fen_elements_stored)
            (combine (seq 0 (length fields)) fields)).

(** Lines 118-124: the key of the board, [None] when the Canonicalizer
    raises. *)
Definition board_key (the_board : Board) : option str :=
  match Canonicalizer.white_move_string switch_black_move_to_white
          (turn the_board) (fen the_board) with
  | Some white_move_string =>
      Some (Py.join "," (stored_fields (Py.split_on "," white_move_string)))
  | None => None
  end.

(** Lines 126-129 *)
Definition record (configs : Configs) (key : str) (move : Move) : Configs :=
  match Dict.get Py.str_eqb configs key with
  | None => Dict.set Py.str_eqb configs key (new_BoardInfo move)
  | Some info => Dict.set Py.str_eqb configs key (update info move)
  end.

(** Lines 108-131: one game, a list of moves, walked from [the_board]. *)
Fixpoint walk_game (configs : Configs) (the_board : Board)
    (main_line : list Move) : option (Configs * Board) :=
  match main_line with
  | [] => Some (configs, the_board)
  | move :: rest =>
      if should_save the_board move then
        match board_key the_board with
        | Some key =>
            walk_game (record configs key move) (push the_board move) rest
        | None => None
        end
      else walk_game configs (push the_board move) rest
  end.

(** Lines 105-134: the games of one file; the board is reset after each. *)
Fixpoint read_games (configs : Configs) (the_board : Board)
    (games : list (list Move)) : option (Configs * Board) :=
  match games with
  | [] => Some (configs, the_board)
  | cur_game :: games' =>
      match walk_game configs the_board cur_game with
      | Some (configs', _) => read_games configs' new_board games'
      | None => None
      end
  end.

(** Lines 97-136 *)
Fixpoint read_files (configs : Configs) (the_board : Board)
    (files : list (list (list Move))) : option (Configs * Board) :=
  match files with
  | [] => Some (configs, the_board)
  | file :: files' =>
      match read_games configs the_board file with
      | Some (configs', the_board') => read_files configs' the_board' files'
      | None => None
      end
  end.

(** Lines 139-149 *)
Definition to_delete (configs : Configs) : list str :=
  map fst
    (filter (fun item =>
               existsb (fun filter => filter (fst item) (snd item))
                       post_collection_filters)
            configs).

Definition apply_post_filters (configs : Configs) : Configs :=
  fold_left (Dict.del Py.str_eqb) (to_delete configs) configs.

(** [create_database_from_pgn] up to the hand-over to the data writer:
    the corpus the writer receives. *)
Definition create_database_from_pgn (files : list (list (list Move)))
  : option Configs :=
  match read_files [] new_board files with
  | Some (configs, _) => Some (apply_post_filters configs)
  | None => None
  end.

(** The count a corpus holds for a key and a move. *)
Definition corpus_count (configs : Configs) (key : str) (move : Move)
  : option nat :=
  match Dict.get Py.str_eqb configs key with
  | Some info => Dict.get move_eqb (moves info) move
  | None => None
  end.

(** The plies of a game with the board each is played on. *)
Fixpoint plies (the_board : Board) (main_line : list Move)
  : list (Board * Move) :=
  match main_line with
  | [] => []
  | move :: rest => (the_board, move) :: plies (push the_board move) rest
  end.

(** A ply that shows [move] on a board of key [key] and that no
    pre-filter vetoes. *)
Definition observed (key : str) (move : Move) (ply : Board * Move) : bool :=
  should_save (fst ply) (snd ply)
  && match board_key (fst ply) with
     | Some k => Py.str_eqb k key
     | None => false
     end
  && move_eqb (snd ply) move.

(** How often the games, each walked from the starting board, show such
    a ply. *)
Definition observations (games : list (list Move)) (key : str)
    (move : Move) : nat :=
  length (filter (observed key move) (flat_map (plies new_board) games)).

(** The collection as a fold: the plies that pass the pre-filters, their
    keys ([None] when one raises) and the recording of the keyed plies. *)
Definition saved (ply : Board * Move) : bool :=
  should_save (fst ply) (snd ply).

Fixpoint keyed (l : list (Board * Move)) : option (list (str * Move)) :=
  match l with
  | [] => Some []
  | (b, m) :: l' =>
      match board_key b, keyed l' with
      | Some k, Some r => Some ((k, m) :: r)
      | _, _ => None
      end
  end.

Definition record_all (configs : Configs) (l : list (str * Move))
  : Configs :=
  fold_left (fun c km => record c (fst km) (snd km)) l configs.

Definition held (o : option nat) : nat :=
  match o with Some n => n | None => 0 end.

Definition count_pair (l : list (str * Move)) (key : str) (move : Move)
  : nat :=
  length (filter (fun km => Py.str_eqb (fst km) key
                            && move_eqb (snd km) move) l).

(** A post-filter that reads a [BoardInfo] as the mapping it is. *)
Definition reads_mapping (filter : str -> BoardInfo -> bool) : Prop :=
  forall key d d',
    (forall move, Dict.get move_eqb (moves d) move
                  = Dict.get move_eqb (moves d') move) ->
    filter key d = filter key d'.

End Aggregator.
End Aggregator.

(** ** The data writer *)

Module Writer.

(** What the writer can raise: [next] on the exhausted iterator, [max]
    on an empty sequence, [math.floor] on a NaN or an infinity. *)
Inductive exn := StopIteration | ValueError | FloorError.

(** How a run of the inner loop ends: the iterator left and the strings
    written, or the exception and what had been written before it. *)
Inductive outcome {Item : Type} :=
| Done (written : list str) (dict_iterator : list Item)
| Raised (e : exn) (written : list str).

Definition newline : str := [ascii_of_nat 10].

Section Writer.
Context `{RulesEngine}.
Import Aggregator.

Variable file_ratios : list float.
Variable for_deep_pink_loss : list bool.
Variable comparison_move_generator : Board -> BoardInfo -> list Move.
Variable line_to_fen_fn : str -> str.
Variable board_to_str_fn : Board -> str.

(** [max(cur_data.moves.values())] *)
Definition max_move_count (cur_data : BoardInfo) : option nat :=
  match map snd (moves cur_data) with
  | [] => None
  | c :: cs => Some (fold_left Nat.max cs c)
  end.

(** Line 307 *)
Definition most_chosen_moves (cur_data : BoardInfo) (max_move_count : nat)
  : list Move :=
  filter (fun move =>
            match Dict.get move_eqb (moves cur_data) move with
            | Some c => c =? max_move_count
            | None => false
            end)
         (map fst (moves cur_data)).

(** [switch_from_blacks_move(board_to_str_fn(temp_board))] after
    [temp_board.push(move)] *)
Definition child_str (temp_board : Board) (move : Move) : str :=
  Splitter.switch_from_blacks_move (board_to_str_fn (push temp_board move)).

(** Lines 301-324: the strings one entry has written to a triplet
    destination, one [write] for each comparison move. *)
Definition deep_pink_writes (cur_str : str) (cur_data : BoardInfo)
  : option (list str) :=
  let temp_board := board_of_fen (line_to_fen_fn cur_str) in
  match max_move_count cur_data with
  | None => None
  | Some max_count =>
      let most_chosen := most_chosen_moves cur_data max_count in
      let cur_board_rep := board_to_str_fn temp_board in
      let data_strs :=
        map (fun move => cur_board_rep ++ child_str temp_board move)
            most_chosen in
      Some (map (fun move =>
                   let str_to_add := child_str temp_board move ++ newline in
                   concat (map (fun x => x ++ str_to_add) data_strs))
                (comparison_move_generator temp_board cur_data))
  end.

(** Lines 300-326 *)
Definition entry_writes (should_get_deep_pink_loss : bool)
    (item : str * BoardInfo) : option (list str) :=
  if should_get_deep_pink_loss then deep_pink_writes (fst item) (snd item)
  else Some [fst item ++ newline].

(** Lines 293-328: [n] turns of the inner loop. *)
Fixpoint write_entries (should_get_deep_pink_loss : bool) (n : nat)
    (dict_iterator : Configs) (written : list str)
  : @outcome (str * BoardInfo) :=
  match n with
  | 0 => Done written dict_iterator
  | S n' =>
      match dict_iterator with
      | [] => Raised StopIteration written
      | item :: rest =>
          match entry_writes should_get_deep_pink_loss item with
          | Some ws =>
              write_entries should_get_deep_pink_loss n' rest (written ++ ws)
          | None => Raised ValueError written
          end
      end
  end.

(** Lines 292-330: the destinations in turn; the answer lists what each
    destination reached was written, and the exception if one ended the
    run. *)
Fixpoint writer_loop (dests : list (float * bool)) (number_of_boards : nat)
    (dict_iterator : Configs) : list (list str) * option exn :=
  match dests with
  | [] => ([], None)
  | (ratio, should_get_deep_pink_loss) :: dests' =>
      match Splitter.slice_size ratio number_of_boards with
      | None => ([[]], Some FloorError)
      | Some k =>
          match write_entries should_get_deep_pink_loss (Z.to_nat k)
                  dict_iterator [] with
          | Raised e written => ([written], Some e)
          | Done written rest =>
              let (files, raised) :=
                writer_loop dests' number_of_boards rest in
              (written :: files, raised)
          end
      end
  end.

(** [zip(writers, file_ratios, for_deep_pink_loss)], one writer for each
    file name. *)
Definition destinations (filenames : list str) : list (float * bool) :=
  map (fun x => (snd (fst x), snd x))
      (combine (combine filenames file_ratios) for_deep_pink_loss).

(** [writer(dict, filenames)] *)
Definition writer (dict : Configs) (filenames : list str)
  : list (list str) * option exn :=
  writer_loop (destinations filenames) (length dict) dict.

(** The sizes the destinations ask for, when every [math.floor]
    answers. *)
Fixpoint slice_sizes (dests : list (float * bool)) (number_of_boards : nat)
  : option (list nat) :=
  match dests with
  | [] => Some []
  | (ratio, _) :: dests' =>
      match Splitter.slice_size ratio number_of_boards,
            slice_sizes dests' number_of_boards with
      | Some k, Some ks => Some (Z.to_nat k :: ks)
      | _, _ => None
      end
  end.

(** Consecutive pieces of the given sizes. *)
Fixpoint cut {A : Type} (sizes : list nat) (l : list A) : list (list A) :=
  match sizes with
  | [] => []
  | k :: ks => firstn k l :: cut ks (skipn k l)
  end.

(** What a slice of entries puts in its destination. *)
Definition slice_writes (should_get_deep_pink_loss : bool)
    (entries : Configs) : list str :=
  flat_map (fun item =>
              match entry_writes should_get_deep_pink_loss item with
              | Some ws => ws
              | None => []
              end)
           entries.

(** The triplet records of an entry: anchor, positive child, negative
    child and the line end, for every comparison move and every most
    chosen move. *)
Definition triplet_records (cur_str : str) (cur_data : BoardInfo)
    (max_count : nat) : list str :=
  let temp_board := board_of_fen (line_to_fen_fn cur_str) in
  flat_map (fun negative =>
              map (fun positive =>
                     board_to_str_fn temp_board
                     ++ child_str temp_board positive
                     ++ child_str temp_board negative ++ newline)
                  (most_chosen_moves cur_data max_count))
           (comparison_move_generator temp_board cur_data).

End Writer.
End Writer.

(** ** 32-bit floats

    The 32-bit float nearest to a double, ties to the even mantissa and
    what lies beyond the largest 32-bit float to an infinity: the
    conversion of a C [double] to a C [float].  The result is given as
    the double of the same value. *)
Module Float32.

Definition of_double (x : float) : float :=
  match Prim2SF x with
  | S754_finite s m e => SF2Prim (binary_round 24 128 s m e)
  | _ => x
  end.

End Float32.

(** ** The scored child-position pipeline

    What [generate_database_with_child_values_tf_records] uses of
    [numba_board]: a board state from a FEN, its legal moves, the child
    after a move, the 64-character rendering of a board and the
    enumeration of the moves by their squares; and what it uses of the
    evaluator's scores: [float_list_value] is the 32-bit float that
    [tf.train.FloatList(value=[value])] keeps of a score, given as the
    double of the same value. *)
Class NumbaBoard := {
  BoardState : Type;
  NumbaMove : Type;
  Score : Type;
  float_list_value : Score -> float;
  create_board_state_from_fen : str -> BoardState;
  generate_legal_moves : BoardState -> list NumbaMove;
  copy_push : BoardState -> NumbaMove -> BoardState;
  database_board_representation : BoardState -> str;
  move_to_str_dict : NumbaMove -> nat
}.

Module Pipeline.

Fixpoint mapM {A B : Type} (f : A -> option B) (l : list A)
  : option (list B) :=
  match l with
  | [] => Some []
  | x :: l' =>
      match f x, mapM f l' with
      | Some y, Some ys => Some (y :: ys)
      | _, _ => None
      end
  end.

(** [np.cumsum] *)
Fixpoint cumsum_from (acc : nat) (l : list nat) : list nat :=
  match l with
  | [] => []
  | x :: l' => (acc + x) :: cumsum_from (acc + x) l'
  end.

Definition cumsum (l : list nat) : list nat := cumsum_from 0 l.

(** [np.split(ary, indices)] with a sequence of indices: the pieces
    between consecutive division points [0, indices..., len(ary)], each a
    Python slice. *)
Definition np_split {A : Type} (ary : list A) (indices : list nat)
  : list (list A) :=
  let div_points := 0 :: indices ++ [length ary] in
  map (fun p => Py.slice ary (fst p) (snd p))
      (combine div_points (tl div_points)).

(** [char_to_index_dict]: the position of a character in
    ["01KQRBNPCkqrbnpc"], [KeyError] as [None]. *)
Fixpoint index_from (i : nat) (c : ascii) (alphabet : str) : option nat :=
  match alphabet with
  | [] => None
  | a :: alphabet' =>
      if Ascii.eqb a c then Some i else index_from (S i) c alphabet'
  end.

Definition char_to_index_dict (c : ascii) : option nat :=
  index_from 0 c "01KQRBNPCkqrbnpc".

Definition CHARS_IN_EACH_BOARD : nat := 64.

Definition batch_size : nat := 200.

(** Lines 506-510: the batches handed to the executor and the lines still
    held when the file ends. *)
Fixpoint submit_loop (index : nat) (lines : list str)
    (futures : list (list str)) (file : list str)
  : list (list str) * list str :=
  match file with
  | [] => (futures, lines)
  | line :: file' =>
      let lines' := lines ++ [line] in
      if (index mod batch_size =? 0) && negb (index =? 0)
      then submit_loop (S index) [] (futures ++ [lines']) file'
      else submit_loop (S index) lines' futures file'
  end.

Definition submitted (file : list str) : list (list str) :=
  fst (submit_loop 0 [] [] file).

Definition never_submitted (file : list str) : list str :=
  snd (submit_loop 0 [] [] file).

Section Pipeline.
Context `{NumbaBoard}.

Variable node_batch_eval_fn : list BoardState -> list Score.
Variable line_to_fen_fn : str -> str.

(** The serialized [SequenceExample]: the context feature and the two
    feature lists. *)
Record SequenceExample := {
  board : list nat;
  ex_moves : list nat;
  move_scores : list float
}.

(** Line 437 *)
Definition encode_board (the_str : str) : option (list nat) :=
  mapM (fun j => match nth_error the_str j with
                 | Some c => char_to_index_dict c
                 | None => None
                 end)
       (seq 0 CHARS_IN_EACH_BOARD).

(** [create_serialized_example] *)
Definition create_serialized_example (the_str : str) (moves : list nat)
    (results : list Score) : option SequenceExample :=
  match encode_board the_str with
  | Some b =>
      Some {| board := b; ex_moves := moves;
              move_scores := map float_list_value results |}
  | None => None
  end.

(** Line 486 *)
Definition children_of (boards : list BoardState) : list BoardState :=
  concat (map (fun b => map (copy_push b) (generate_legal_moves b)) boards).

(** [lines_to_serialized_example]; [np.concatenate] raises on no array
    at all, that is on no line. *)
Definition lines_to_serialized_example (lines : list str)
  : option (list SequenceExample) :=
  match lines with
  | [] => None
  | _ =>
      match mapM Canonicalizer.make_fen_white (map line_to_fen_fn lines) with
      | None => None
      | Some all_white_fens =>
          let boards := map create_board_state_from_fen all_white_fens in
          let moves := map generate_legal_moves boards in
          let lengths := cumsum (map (@length _) moves) in
          let children := children_of boards in
          let the_results :=
            np_split (node_batch_eval_fn children) (removelast lengths) in
          let the_moves := map move_to_str_dict (concat moves) in
          let formatted_output :=
            map database_board_representation boards in
          mapM (fun t => create_serialized_example
                           (fst (fst t)) (snd (fst t)) (snd t))
               (combine (combine formatted_output
                                 (np_split the_moves (removelast lengths)))
                        the_results)
      end
  end.

(** Lines 505-522: every submitted batch is computed by a worker and the
    results are written batch by batch in the order the workers finish. *)
Definition tf_records_written (file : list str)
    (written : list SequenceExample) : Prop :=
  exists results completed,
    mapM lines_to_serialized_example (submitted file) = Some results /\
    Permutation results completed /\
    written = concat completed.

End Pipeline.
End Pipeline.

(** ** A small engine for closed examples

    Moves are numbers and a board is the list of the moves pushed on it,
    newest first; the side to move alternates and the FEN shows a
    different placement after an even and after an odd move. *)

Module Toy.

Definition toy_fen (b : list nat) : str :=
  (match b with
   | [] => "rnbqkbnr/8/8/8/8/8/8/RNBQKBNR"
   | m :: _ => if Nat.even m then "4k3/8/8/8/8/8/8/R3K3"
               else "r3k3/8/8/8/8/8/8/4K3"
   end : str)
  ++ (if Nat.even (length b) then " w " else " b ")
  ++ "Kq - 0 1".

#[export] Instance engine : RulesEngine := {|
  Board := list nat;
  Move := nat;
  move_eqb := Nat.eqb;
  move_eqb_spec := Nat.eqb_spec;
  new_board := [];
  board_of_fen := fun _ => [];
  push := fun b m => m :: b;
  fen := toy_fen;
  turn := fun b => Nat.even (length b)
|}.

Definition info (l : list (nat * nat)) : @Aggregator.BoardInfo engine :=
  @Aggregator.Build_BoardInfo engine l.

(** A 64-character board string: a pawn on the squares whose number was
    played. *)
Definition board_str (b : list nat) : str :=
  map (fun i => if existsb (Nat.eqb i) b then "P"%char else "1"%char)
      (seq 0 64).

(** A board state is the number of its legal moves, read from the first
    character of the FEN; scores are natural numbers, kept as the 32-bit
    floats nearest to them. *)
#[export] Instance numba : NumbaBoard := {|
  BoardState := nat;
  NumbaMove := nat;
  Score := nat;
  float_list_value := fun score =>
    Float32.of_double (PrimFloat.of_uint63 (Uint63.of_Z (Z.of_nat score)));
  create_board_state_from_fen := fun fen =>
    match fen with
    | c :: _ => match Py.int_of_char c with Some n => n | None => 0 end
    | [] => 0
    end;
  generate_legal_moves := fun b => seq 0 b;
  copy_push := fun b m => 10 * b + m;
  database_board_representation := fun _ => repeat "1"%char 64;
  move_to_str_dict := fun m => m
|}.

(** Three lines whose boards have 3, 0 and 2 legal moves. *)
Definition three_lines : list str :=
  [("3 w - - 0 1" : str); ("0 w - - 0 1" : str); ("2 w - - 0 1" : str)].

(** [during_search_leq_n_moves_made_filter_creater(n)] on this engine,
    where [len(board.stack)] is the length of the list. *)
Definition leq_n_moves_made (n : nat) : list nat -> nat -> bool :=
  fun board _ => length board <=? n.

End Toy.

(** ** The rest of [database_creator.py] *)

(** What the pre-filters and the comparison-move generator ask of a
    python-chess board beyond [RulesEngine]: [board.legal_moves],
    [board.is_capture(move)], [chess.popcount(board.occupied)] and
    [len(board.stack)]. *)
Class BoardQueries `{RulesEngine} := {
  legal_moves : Board -> list Move;
  is_capture : Board -> Move -> bool;
  occupied_popcount : Board -> Z;
  stack_length : Board -> nat
}.

Module Creator.

(** [s.replace(old, new)] for a one-character [old]. *)
Definition replace_char (old : ascii) (new : str) (s : str) : str :=
  flat_map (fun c => if Ascii.eqb c old then new else [c]) s.

(** [current_line_to_fen]; [insert(1, "w")] puts the side after the first
    field, [split] giving at least one. *)
Definition current_line_to_fen (line : str) : str :=
  let hacked_part_fen_array :=
    match Py.split_on "," line with
    | [] => [("w" : str)]
    | first :: others => first :: ("w" : str) :: others
    end in
  Py.join " " hacked_part_fen_array ++ " 0 1".

(** A piece of [str.split()]: not empty and free of white space. *)
Definition word (w : str) : Prop :=
  w <> [] /\ Forall (fun c => Py.is_space c = false) w.

(** A field that survives the trip through a comma-joined key and a
    blank-joined FEN: not empty, no white space, no comma. *)
Definition clean_field (f : str) : bool :=
  negb (Py.str_eqb f [])
  && forallb (fun c => negb (Py.is_space c) && negb (Ascii.eqb c ",")) f.

(** Lines 404-406: the manipulation built for [y], which rewrites the
    digit [y] of the first comma-separated field as [y] ones. *)
Definition manipulation (y : nat) (x : str) : str :=
  let fields := Py.split_on "," x in
  Py.join ","
    (map (fun p => if fst p =? 0
                   then replace_char (Py.digit_char y) (repeat "1"%char y)
                          (snd p)
                   else snd p)
         (combine (seq 0 (length fields)) fields)).

(** Lines 404-407: [manipulations], for 2 to 8 and then the removal of
    the slashes. *)
Definition manipulations : list (str -> str) :=
  map manipulation (seq 2 7) ++ [replace_char "/" []].

(** The squares a placement character stands for. *)
Definition squares_of (c : ascii) : nat :=
  if Ascii.eqb c "/" then 0
  else match Py.int_of_char c with
       | Some n => if (2 <=? n) && (n <=? 8) then n else 1
       | None => 1
       end.

(** What the eight manipulations, applied in the order of the list, make
    of one placement character. *)
Definition expand_char (c : ascii) : str :=
  if Ascii.eqb c "/" then []
  else match Py.int_of_char c with
       | Some n => if (2 <=? n) && (n <=? 8) then repeat "1"%char n else [c]
       | None => [c]
       end.

Definition expand_placement (placement : str) : str :=
  flat_map expand_char placement.

Section Queries.
Context `{BoardQueries}.
Import Aggregator.

(** [during_search_n_man_filter_creator(n)] *)
Definition during_search_n_man_filter_creator (n : Z)
  : Board -> Move -> bool :=
  fun board move => (occupied_popcount board <=? n)%Z.

(** [during_search_capture_move_filter] *)
Definition during_search_capture_move_filter : Board -> Move -> bool :=
  fun board move => is_capture board move.

(** [during_search_leq_n_moves_made_filter_creater(n)] *)
Definition during_search_leq_n_moves_made_filter_creater (n : Z)
  : Board -> Move -> bool :=
  fun board move => (Z.of_nat (stack_length board) <=? n)%Z.

(** [my_comparison_move_generator] *)
Definition my_comparison_move_generator (board : Board) (data : BoardInfo)
  : list Move :=
  filter (fun move =>
            negb (is_capture board move)
            && match Dict.get move_eqb (moves data) move with
               | None => true
               | Some _ => false
               end)
         (legal_moves board).

End Queries.
End Creator.

(** What the aggregator keeps true of its mapping. *)
Module Sound.
Section Sound.
Context `{RulesEngine}.
Import Aggregator.

(** A [BoardInfo] as the aggregator leaves it: some move, no move twice,
    every count at least 1. *)
Definition sound_info (info : BoardInfo) : Prop :=
  moves info <> [] /\
  NoDup (map fst (moves info)) /\
  Forall (fun mc => 1 <= snd mc) (moves info).

Definition sound_corpus (configs : Configs) : Prop :=
  NoDup (map fst configs) /\
  Forall (fun item => sound_info (snd item)) configs.

End Sound.
End Sound.

(** The lines the submission loop holds when it reaches line [index]. *)
Definition held_at (index : nat) : nat :=
  if index <=? 200 then index else (index - 1) mod 200.

(** Division points that never go back, from [a] on. *)
Fixpoint nondecreasing (a : nat) (points : list nat) : Prop :=
  match points with
  | [] => True
  | d :: points' => a <= d /\ nondecreasing d points'
  end.

(** ** [board_eval_client.py] *)

Module EvalClient.

(** Lines 60-61: the square index after the rotation of the board,
    [8 * (7 - (square >> 3)) + (square & 7)], on a square from 0 to 63
    where no integer width is exceeded. *)
Definition rotate_square (square : Z) : Z :=
  8 * (7 - Z.shiftr square 3) + Z.land square 7.

End EvalClient.

(** ** [win_loss_ann.py] *)

Module WinLossAnn.

Definition LF : ascii := ascii_of_nat 10.

Definition CR : ascii := ascii_of_nat 13.

(** What [open(file_name)] reads of the characters of a file: in text
    mode with universal newlines a carriage return, alone or followed by
    a line feed, is read as one line feed. *)
Fixpoint universal_newlines (raw : str) : str :=
  match raw with
  | [] => []
  | c :: rest =>
      if Ascii.eqb c CR
      then LF :: match rest with
                 | d :: rest' =>
                     if Ascii.eqb d LF then universal_newlines rest'
                     else universal_newlines rest
                 | [] => []
                 end
      else c :: universal_newlines rest
  end.

(** [blocks(files, size)]: the pieces [files.read(size)] returns, up to
    the first empty one; [fuel] bounds the number of reads. *)
Fixpoint blocks (fuel : nat) (size : nat) (text : str) : list str :=
  match fuel with
  | 0 => []
  | S fuel' =>
      match firstn size text with
      | [] => []
      | b => b :: blocks fuel' size (skipn size text)
      end
  end.

(** [line_counter] on the characters of the file, opened in text mode
    and read in blocks of 65536 characters; a text of [n] characters
    takes at most [n + 1] reads. *)
Definition line_counter (raw : str) : nat :=
  let text := universal_newlines raw in
  list_sum (map (fun bl => count_occ ascii_dec bl LF)
                (blocks (S (length text)) (256 * 256) text)).

End WinLossAnn.

(** The small engine's answers to the board queries: eight moves are
    legal, the odd ones capture, every pushed move takes a piece off. *)
Module ToyQueries.

#[export] Instance queries : @BoardQueries Toy.engine :=
  @Build_BoardQueries Toy.engine
    (fun _ : list nat => seq 0 8)
    (fun (_ : list nat) (m : nat) => Nat.odd m)
    (fun b : list nat => (32 - Z.of_nat (length b))%Z)
    (fun b : list nat => length b).

End ToyQueries.

(** * Properties *)

(** ** Text *)

Section TextFacts.
Import Py.

Lemma swapcase_char_involutive (c : ascii) :
  swapcase_char (swapcase_char c) = c.
Proof. destruct c as [[] [] [] [] [] [] [] []]; reflexivity. Qed.

Lemma swapcase_involutive (s : str) : swapcase (swapcase s) = s.
Proof.
  unfold swapcase. rewrite map_map.
  rewrite (map_ext _ (fun c => c) swapcase_char_involutive).
  apply map_id.
Qed.

Lemma swapcase_char_slash (c : ascii) :
  swapcase_char c = "/"%char -> c = "/"%char.
Proof.
  destruct c as [[] [] [] [] [] [] [] []]; intros H;
    first [reflexivity | discriminate H].
Qed.

Lemma swapcase_no_slash (p : str) :
  ~ In "/"%char p -> ~ In "/"%char (swapcase p).
Proof.
  intros Hp Hin. apply in_map_iff in Hin as [c [Hc Hin]].
  apply swapcase_char_slash in Hc. subst c. exact (Hp Hin).
Qed.

Lemma char_in_swapcase (x : ascii) (s : str) :
  char_in x (swapcase s) = char_in (swapcase_char x) s.
Proof.
  unfold char_in, swapcase. induction s as [|c s IH]; simpl; [reflexivity|].
  rewrite IH. f_equal.
  destruct (Ascii.eqb_spec x (swapcase_char c)) as [->|Hne].
  - rewrite swapcase_char_involutive. symmetry. apply Ascii.eqb_refl.
  - symmetry. apply Ascii.eqb_neq. intros Heq. apply Hne.
    rewrite <- Heq. symmetry. apply swapcase_char_involutive.
Qed.

Lemma str_eqb_eq (a b : str) : str_eqb a b = true <-> a = b.
Proof.
  unfold str_eqb. destruct (list_eq_dec ascii_dec a b); split;
    congruence.
Qed.

Lemma split_on_not_nil (sep : ascii) (s : str) : split_on sep s <> [].
Proof.
  destruct s as [|c s]; simpl; [discriminate|].
  destruct (Ascii.eqb c sep); [discriminate|].
  destruct (split_on sep s); discriminate.
Qed.

Lemma join_cons_char (sep : str) (c : ascii) (w : str) (ws : list str) :
  join sep ((c :: w) :: ws) = c :: join sep (w :: ws).
Proof. destruct ws; reflexivity. Qed.

Lemma join_cons_cons (sep p q : str) (ps : list str) :
  join sep (p :: q :: ps) = p ++ sep ++ join sep (q :: ps).
Proof. reflexivity. Qed.

(** Splitting and joining on one separator undo each other. *)
Lemma join_split_on (sep : ascii) (s : str) :
  join [sep] (split_on sep s) = s.
Proof.
  induction s as [|c s IH]; [reflexivity|].
  simpl split_on. destruct (Ascii.eqb_spec c sep) as [->|Hne].
  - destruct (split_on sep s) as [|w ws] eqn:E;
      [now apply split_on_not_nil in E|].
    rewrite join_cons_cons, IH. reflexivity.
  - destruct (split_on sep s) as [|w ws] eqn:E;
      [now apply split_on_not_nil in E|].
    rewrite join_cons_char, IH. reflexivity.
Qed.

Lemma split_on_no_sep (sep : ascii) (s : str) :
  Forall (fun p => ~ In sep p) (split_on sep s).
Proof.
  induction s as [|c s IH]; simpl.
  - constructor; [intros [] | constructor].
  - destruct (Ascii.eqb_spec c sep) as [->|Hne].
    + constructor; [intros [] | exact IH].
    + destruct (split_on sep s) as [|w ws]; [repeat constructor|].
      * intros [H|[]]. congruence.
      * inversion IH as [|? ? Hw Hws]; subst.
        constructor; [|exact Hws].
        intros [H|H]; [congruence | exact (Hw H)].
Qed.

Lemma split_on_app (sep : ascii) (p t : str) :
  ~ In sep p -> split_on sep (p ++ [sep] ++ t) = p :: split_on sep t.
Proof.
  induction p as [|c p IH]; intros Hp.
  - simpl. now rewrite Ascii.eqb_refl.
  - change ((c :: p) ++ [sep] ++ t) with (c :: (p ++ [sep] ++ t)).
    cbn [split_on].
    destruct (Ascii.eqb_spec c sep) as [->|Hne];
      [exfalso; apply Hp; now left|].
    rewrite IH by (intros H; apply Hp; now right). reflexivity.
Qed.

Lemma split_on_whole (sep : ascii) (p : str) :
  ~ In sep p -> split_on sep p = [p].
Proof.
  induction p as [|c p IH]; intros Hp; simpl; [reflexivity|].
  destruct (Ascii.eqb_spec c sep) as [->|Hne];
    [exfalso; apply Hp; now left|].
  rewrite IH by (intros H; apply Hp; now right). reflexivity.
Qed.

Lemma split_on_join (sep : ascii) (l : list str) :
  l <> [] -> Forall (fun p => ~ In sep p) l ->
  split_on sep (join [sep] l) = l.
Proof.
  induction l as [|p l IH]; intros Hne Hall; [congruence|].
  inversion Hall as [|? ? Hp Hl]; subst.
  destruct l as [|q l].
  - simpl. now apply split_on_whole.
  - rewrite join_cons_cons.
    rewrite split_on_app by exact Hp.
    rewrite IH; [reflexivity | discriminate | exact Hl].
Qed.

End TextFacts.

Lemma n_man_loop_spec (n c : Z) (s : str) :
  (c <= n)%Z ->
  Filters.n_man_loop n c s = (c + Filters.piece_count s <=? n)%Z.
Proof.
  unfold Filters.piece_count.
  revert c; induction s as [|ch s IH]; intros c Hc; simpl.
  - symmetry; apply Z.leb_le; lia.
  - destruct (Filters.is_piece ch); simpl length.
    + destruct (Z.gtb_spec (c + 1) n) as [Hgt|Hle].
      * symmetry; apply Z.leb_gt; lia.
      * rewrite IH by lia. f_equal; lia.
    + apply IH; lia.
Qed.

Lemma n_man_loop_no_piece (n c : Z) (s : str) :
  Filters.piece_count s = 0%Z -> Filters.n_man_loop n c s = true.
Proof.
  unfold Filters.piece_count.
  induction s as [|ch s IH]; simpl; [reflexivity|].
  destruct (Filters.is_piece ch); simpl length; [lia | exact IH].
Qed.

Lemma n_man_loop_above (n c : Z) (s : str) :
  (n <= c)%Z -> Filters.n_man_loop n c s = true ->
  Filters.piece_count s = 0%Z.
Proof.
  unfold Filters.piece_count.
  induction s as [|ch s IH]; simpl; [reflexivity|].
  destruct (Filters.is_piece ch); simpl length; [|exact IH].
  destruct (Z.gtb_spec (c + 1) n); [discriminate | lia].
Qed.

(** C7: the filter built by [n_man_filter_creator n] answers true exactly
    when the key has no piece character at all or at most [n] of them, so
    for [0 <= n] exactly when the count is at most [n]; a count above [n]
    gives false. *)
Theorem n_man_filter_true_iff (BoardInfo : Type) (n : Z) (s : str)
    (data : BoardInfo) :
  Filters.n_man_filter_creator n s data = true <->
  (Filters.piece_count s = 0 \/ Filters.piece_count s <= n)%Z.
Proof.
  unfold Filters.n_man_filter_creator.
  assert (Hpc : (0 <= Filters.piece_count s)%Z)
    by (unfold Filters.piece_count; lia).
  destruct (Z.le_gt_cases 0 n) as [Hn|Hn].
  - rewrite n_man_loop_spec by lia. rewrite Z.leb_le. lia.
  - split.
    + intros H. left. apply (@n_man_loop_above n 0 s); [lia | exact H].
    + intros [H0|Hle]; [|lia]. now apply n_man_loop_no_piece.
Qed.

(** The filter at a key of six piece characters and at a key of none,
    with [n = 2]: the first is kept and the second deleted. *)
Example n_man_filter_at_two :
  Filters.n_man_filter_creator 2 "4k3/8/8/8/8/8/8/R3K2R,KQ,-" tt = false /\
  Filters.piece_count "4k3/8/8/8/8/8/8/R3K2R,KQ,-" = 6%Z /\
  Filters.n_man_filter_creator 2 "8/8/8/8/8/8/8/8,-,-" tt = true /\
  Filters.piece_count "8/8/8/8/8/8/8/8,-,-" = 0%Z.
Proof. repeat split. Qed.

(** ** The Canonicalizer *)

Section CanonicalizerFacts.
Import Py Canonicalizer.

Lemma int_of_char_digit (r : ascii) (n : nat) :
  int_of_char r = Some n -> r = digit_char n /\ n <= 9.
Proof.
  destruct r as [[] [] [] [] [] [] [] []]; intros H;
    first [discriminate H | injection H as <-; split; [reflexivity|]];
    cbn; lia.
Qed.

Lemma int_of_digit_char (n : nat) :
  n <= 9 -> int_of_char (digit_char n) = Some n.
Proof.
  intros H. do 10 (destruct n as [|n]; [reflexivity|]). lia.
Qed.

Lemma mirror_placement_rows (placement : str) :
  split_on "/" (mirror_placement placement)
  = rev (map swapcase (split_on "/" placement)).
Proof.
  unfold mirror_placement. apply split_on_join.
  - intros H. apply (f_equal (@length _)) in H.
    rewrite length_rev, length_map in H.
    apply length_zero_iff_nil in H. now apply split_on_not_nil in H.
  - apply Forall_rev, Forall_map.
    eapply Forall_impl; [|apply split_on_no_sep].
    intros p Hp. now apply swapcase_no_slash.
Qed.

Lemma mirror_placement_involutive (placement : str) :
  mirror_placement (mirror_placement placement) = placement.
Proof.
  unfold mirror_placement at 1. rewrite mirror_placement_rows.
  rewrite map_rev, rev_involutive, map_map.
  rewrite (map_ext _ (fun p => p) swapcase_involutive), map_id.
  apply (join_split_on "/").
Qed.

Lemma mirror_castling_colour (rights : str) :
  mirror_castling rights
  = filter (fun x => char_in (swapcase_char x) rights)
           ["K"; "Q"; "k"; "q"; "-"]%char.
Proof.
  unfold mirror_castling. apply filter_ext. intros x.
  apply char_in_swapcase.
Qed.

Lemma mirror_castling_involutive (rights : str) :
  wf_rights rights = true ->
  mirror_castling (mirror_castling rights) = rights.
Proof.
  unfold wf_rights. intros H.
  apply existsb_exists in H as [r [Hin Heq]].
  apply str_eqb_eq in Heq. subst r.
  simpl in Hin.
  repeat (destruct Hin as [<-|Hin]; [reflexivity|]). destruct Hin.
Qed.

Lemma mirror_ep_rank (ep : str) :
  wf_ep ep = true ->
  exists ep', mirror_ep ep = Some ep' /\
    (ep = "-" -> ep' = "-") /\
    (ep <> "-" -> exists f n, ep = [f; digit_char n] /\ n <= 9 /\
                              ep' = [f; digit_char (9 - n)]).
Proof.
  unfold wf_ep, mirror_ep. intros H.
  destruct (str_eqb ep "-") eqn:E.
  - apply str_eqb_eq in E. exists ep. repeat split; [congruence|].
    intros Hne. congruence.
  - simpl in H. destruct ep as [|f [|r [|x ep]]]; try discriminate H.
    destruct (int_of_char r) as [n|] eqn:Er; [|discriminate H].
    apply int_of_char_digit in Er as [-> Hn].
    exists [f; digit_char (9 - n)]. repeat split.
    + intros Heq. discriminate Heq.
    + intros _. exists f, n. repeat split; assumption.
Qed.

Lemma mirror_ep_involutive (ep : str) :
  wf_ep ep = true ->
  exists ep', mirror_ep ep = Some ep' /\ mirror_ep ep' = Some ep.
Proof.
  intros H. destruct (mirror_ep_rank ep H) as [ep' [He [Hdash Hrank]]].
  exists ep'. split; [exact He|].
  destruct (list_eq_dec ascii_dec ep "-") as [Heq|Hne].
  - rewrite (Hdash Heq), Heq. reflexivity.
  - destruct (Hrank Hne) as [f [n [-> [Hn ->]]]].
    unfold mirror_ep.
    replace (str_eqb [f; digit_char (9 - n)] "-") with false
      by (symmetry; unfold str_eqb;
          destruct (list_eq_dec ascii_dec _ _) as [E|]; [discriminate E|];
          reflexivity).
    rewrite int_of_digit_char by lia.
    replace (9 - (9 - n)) with n by lia. reflexivity.
Qed.

End CanonicalizerFacts.

(** C1 (as amended): for a FEN whose fields are [placement side rights ep
    ...], a White-to-move position passes through with its fields
    unchanged; for a Black-to-move one both [black_fen_to_white] and
    [make_fen_white] give the comma-joined fields in which the placement
    rows are the original rows reversed and case-swapped, the side is [w],
    the rights are those of K, Q, k, q, - whose case-swapped counterpart
    occurs in the original rights, and a target other than [-] keeps its
    file and has rank [r] replaced by [9 - r]. *)
Theorem canonicalizer_fields (fen placement side rights ep : str)
    (rest : list str) :
  Py.split_ws fen = placement :: side :: rights :: ep :: rest ->
  Canonicalizer.wf_ep ep = true ->
  Py.ascii_text fen = true ->
  (side = "w" ->
     Canonicalizer.make_fen_white fen = Some fen /\
     Canonicalizer.white_move_string true true fen
     = Some (Py.join "," (placement :: side :: rights :: ep :: rest)))
  /\
  (side = "b" ->
     exists placement' rights' ep',
       Canonicalizer.black_fen_to_white fen
       = Some (Py.join "," (placement' :: ("w" : str) :: rights' :: ep'
                                        :: rest)) /\
       Canonicalizer.make_fen_white fen
       = Canonicalizer.black_fen_to_white fen /\
       Canonicalizer.white_move_string true false fen
       = Canonicalizer.black_fen_to_white fen /\
       Py.split_on "/" placement'
       = rev (map Py.swapcase (Py.split_on "/" placement)) /\
       rights' = filter (fun x => Py.char_in (Py.swapcase_char x) rights)
                        ["K"; "Q"; "k"; "q"; "-"]%char /\
       (ep = "-" -> ep' = "-") /\
       (ep <> "-" ->
        exists f r, ep = [f; Py.digit_char r] /\ r <= 9 /\
                    ep' = [f; Py.digit_char (9 - r)])).
Proof.
  intros Hsplit Hep _. split; intros ->.
  - unfold Canonicalizer.make_fen_white, Canonicalizer.white_move_string.
    rewrite Hsplit. split; reflexivity.
  - destruct (mirror_ep_rank ep Hep) as [ep' [Hm [Hdash Hrank]]].
    exists (Canonicalizer.mirror_placement placement),
           (Canonicalizer.mirror_castling rights), ep'.
    assert (Hb : Canonicalizer.black_fen_to_white fen
                 = Some (Py.join ","
                           (Canonicalizer.mirror_placement placement
                            :: ("w" : str)
                            :: Canonicalizer.mirror_castling rights
                            :: ep' :: rest))).
    { unfold Canonicalizer.black_fen_to_white, Canonicalizer.mirror_fields.
      rewrite Hsplit, Hm. reflexivity. }
    split; [exact Hb|]. split.
    { unfold Canonicalizer.make_fen_white, Canonicalizer.black_fen_to_white.
      rewrite Hsplit. reflexivity. }
    split; [reflexivity|].
    split; [apply mirror_placement_rows|].
    split; [apply mirror_castling_colour|].
    split; assumption.
Qed.

Lemma canonicalizer_fields_witness :
  exists placement' rights' ep',
    Canonicalizer.black_fen_to_white
      "rnbqkbnr/pppp1ppp/8/8/4pP2/8/PPPPP1PP/RNBQKBNR b Qkq f3 0 3"
    = Some (Py.join "," [placement'; ("w" : str); rights'; ep';
                         ("0" : str); ("3" : str)]) /\
    Py.split_on "/" placement'
    = map list_ascii_of_string
        ["rnbqkbnr"; "ppppp1pp"; "8"; "4Pp2"; "8"; "8"; "PPPP1PPP";
         "RNBQKBNR"]%string /\
    rights' = "KQq".
Proof.
  destruct (canonicalizer_fields
              "rnbqkbnr/pppp1ppp/8/8/4pP2/8/PPPPP1PP/RNBQKBNR b Qkq f3 0 3"
              "rnbqkbnr/pppp1ppp/8/8/4pP2/8/PPPPP1PP/RNBQKBNR" "b" "Qkq" "f3"
              [("0" : str); ("3" : str)]
              eq_refl eq_refl eq_refl) as [_ Hblack].
  destruct (Hblack eq_refl)
    as [p [r [e [Hb [_ [_ [Hp [Hr _]]]]]]]].
  exists p, r, e. split; [exact Hb|]. split; [exact Hp | exact Hr].
Defined.

(** C1 as the specification words the rights: Black holds both rights and
    White none; the code answers [KQ], the wording asks for [KQkq]. *)
Lemma canonicalizer_rights_counterexample :
  let fen : str := "r3k2r/8/8/8/8/8/8/4K3 b kq - 0 1" in
  Canonicalizer.wf_fields (Py.split_ws fen) = true /\
  Canonicalizer.black_fen_to_white fen
  = Some ("4k3/8/8/8/8/8/8/R3K2R,w,KQ,-,0,1" : str) /\
  Canonicalizer.make_fen_white fen
  = Some ("4k3/8/8/8/8/8/8/R3K2R,w,KQ,-,0,1" : str) /\
  Canonicalizer.rights_present_ignoring_case "kq" = "KQkq" /\
  Canonicalizer.mirror_castling "kq"
  <> Canonicalizer.rights_present_ignoring_case "kq".
Proof.
  cbv zeta. repeat split; try (vm_compute; reflexivity).
  vm_compute. discriminate.
Qed.

(** C9: on a well-formed split FEN the rewrite succeeds twice in a row and
    the second pass gives back the original placement, castling-rights and
    en-passant fields. *)
Theorem mirror_fields_involutive (split_fen : list str) :
  Canonicalizer.wf_fields split_fen = true ->
  exists once twice,
    Canonicalizer.mirror_fields split_fen = Some once /\
    Canonicalizer.mirror_fields once = Some twice /\
    nth 0 twice [] = nth 0 split_fen [] /\
    nth 2 twice [] = nth 2 split_fen [] /\
    nth 3 twice [] = nth 3 split_fen [] /\
    nth 1 twice [] = "w" /\
    skipn 4 twice = skipn 4 split_fen.
Proof.
  unfold Canonicalizer.wf_fields. intros H.
  destruct split_fen as [|placement [|side [|rights [|ep rest]]]];
    try discriminate H.
  apply andb_prop in H as [H _]. apply andb_prop in H as [Hr He].
  destruct (mirror_ep_involutive ep He) as [ep' [H1 H2]].
  exists (Canonicalizer.mirror_placement placement :: ("w" : str)
          :: Canonicalizer.mirror_castling rights :: ep' :: rest).
  exists (placement :: ("w" : str) :: rights :: ep :: rest).
  split; [|split].
  - unfold Canonicalizer.mirror_fields. rewrite H1. reflexivity.
  - unfold Canonicalizer.mirror_fields. rewrite H2.
    rewrite mirror_placement_involutive.
    rewrite (mirror_castling_involutive rights Hr). reflexivity.
  - repeat split.
Qed.

Lemma mirror_fields_involutive_witness :
  exists once twice,
    Canonicalizer.mirror_fields
      (Py.split_ws
         "rnbqkbnr/pppppppp/8/8/4P3/8/PPPP1PPP/RNBQKBNR b KQkq e3 0 1")
    = Some once /\
    Canonicalizer.mirror_fields once = Some twice /\
    nth 0 twice [] = "rnbqkbnr/pppppppp/8/8/4P3/8/PPPP1PPP/RNBQKBNR" /\
    nth 2 twice [] = "KQkq" /\
    nth 3 twice [] = "e3".
Proof.
  destruct (mirror_fields_involutive
              (Py.split_ws
                 "rnbqkbnr/pppppppp/8/8/4P3/8/PPPP1PPP/RNBQKBNR b KQkq e3 0 1")
              eq_refl)
    as [once [twice [H1 [H2 [H3 [H4 [H5 _]]]]]]].
  exists once, twice. repeat split; assumption.
Defined.

(** ** The board-string side switcher *)

Section SwitchFacts.
Import Py Splitter.

Lemma slice_map {A B : Type} (f : A -> B) (s : list A) (a b : nat) :
  slice (map f s) a b = map f (slice s a b).
Proof. unfold slice. now rewrite skipn_map, firstn_map. Qed.

Lemma slice_past {A : Type} (r t : list A) (a b : nat) :
  length r <= a ->
  slice (r ++ t) a b = slice t (a - length r) (b - length r).
Proof.
  intros H. unfold slice. rewrite skipn_app.
  rewrite (skipn_all2 r) by exact H. simpl.
  f_equal. lia.
Qed.

Lemma slice_first {A : Type} (r t : list A) :
  slice (r ++ t) 0 (length r) = r.
Proof.
  unfold slice. simpl skipn. rewrite Nat.sub_0_r.
  rewrite firstn_app, Nat.sub_diag, firstn_all. simpl.
  apply app_nil_r.
Qed.

(** Cutting a concatenation of 8-character rows back into rows. *)
Lemma rows_of_concat (l : list str) :
  Forall (fun r => length r = 8) l ->
  map (fun j => slice (concat l) (8 * j) (8 * (j + 1))) (seq 0 (length l))
  = l.
Proof.
  induction 1 as [|r l Hr Hl IH]; [reflexivity|].
  cbn [length seq map concat]. f_equal.
  - replace (8 * (0 + 1)) with (length r) by (now rewrite Hr).
    apply slice_first.
  - rewrite <- seq_shift, map_map. rewrite <- IH at 2.
    apply map_ext. intros j. rewrite slice_past by lia.
    f_equal; lia.
Qed.

Lemma rows8_length (s : str) : length (rows8 s) = 8.
Proof. unfold rows8. now rewrite length_map, length_seq. Qed.

Lemma rows8_of_64 (s : str) :
  length s = 64 ->
  concat (rows8 s) = s /\ Forall (fun r => length r = 8) (rows8 s).
Proof.
  intros H.
  do 64 (destruct s as [|? s]; [discriminate H|]).
  destruct s; [|discriminate H].
  split; [reflexivity | repeat constructor].
Qed.

Lemma switch_rows (s : str) :
  Splitter.switch_from_blacks_move s = swapcase (concat (rev (rows8 s))).
Proof. reflexivity. Qed.

End SwitchFacts.

(** C10: on a 64-character board string, switching sides twice gives the
    string back: the eight rows return to their order and every character
    to its case. *)
Theorem switch_from_blacks_move_involutive (s : str) :
  length s = 64 ->
  Py.ascii_text s = true ->
  Splitter.switch_from_blacks_move (Splitter.switch_from_blacks_move s) = s.
Proof.
  intros Hlen _.
  destruct (rows8_of_64 s Hlen) as [Hcat Hrows].
  rewrite (switch_rows (Splitter.switch_from_blacks_move s)).
  rewrite switch_rows.
  unfold Splitter.rows8 at 1. unfold Py.swapcase at 2.
  rewrite (map_ext _ _ (fun j => slice_map Py.swapcase_char _ _ _)).
  rewrite <- (map_map
                (fun j => Py.slice (concat (rev (Splitter.rows8 s))) (8 * j)
                            (8 * (j + 1)))
                (map Py.swapcase_char)).
  replace (seq 0 8) with (seq 0 (length (rev (Splitter.rows8 s))))
    by (now rewrite length_rev, rows8_length).
  rewrite rows_of_concat by (now apply Forall_rev).
  rewrite <- map_rev, rev_involutive, <- concat_map.
  fold (Py.swapcase (concat (Splitter.rows8 s))).
  rewrite swapcase_involutive. exact Hcat.
Qed.

Lemma switch_from_blacks_move_involutive_witness :
  Splitter.switch_from_blacks_move
    (Splitter.switch_from_blacks_move
       "rnbqkbnrpppppppp1111111111111111111111111111P111PPPP1PPPRNBQKBNR")
  = "rnbqkbnrpppppppp1111111111111111111111111111P111PPPP1PPPRNBQKBNR".
Proof.
  apply (switch_from_blacks_move_involutive
           "rnbqkbnrpppppppp1111111111111111111111111111P111PPPP1PPPRNBQKBNR");
    reflexivity.
Defined.

(** ** Dictionaries *)

Section DictFacts.
Context {K V : Type} (eqb : K -> K -> bool).
Hypothesis eqb_eq : forall a b, eqb a b = true <-> a = b.

Lemma eqb_same (a : K) : eqb a a = true.
Proof. now apply eqb_eq. Qed.

Lemma eqb_trans_l (a b c : K) : eqb a b = true -> eqb a c = eqb b c.
Proof. intros Hab. apply eqb_eq in Hab. now subst. Qed.

Lemma get_set (d : list (K * V)) (k k' : K) (v : V) :
  Dict.get eqb (Dict.set eqb d k v) k'
  = if eqb k k' then Some v else Dict.get eqb d k'.
Proof.
  induction d as [|[k0 v0] d IH]; simpl.
  - reflexivity.
  - destruct (eqb k0 k) eqn:E0; simpl.
    + rewrite (eqb_trans_l _ _ k' E0). now destruct (eqb k k').
    + rewrite IH. destruct (eqb k0 k') eqn:E1; [|reflexivity].
      destruct (eqb k k') eqn:E2; [|reflexivity].
      apply eqb_eq in E1, E2. subst.
      rewrite eqb_same in E0. discriminate.
Qed.

Lemma keys_set (d : list (K * V)) (k : K) (v : V) :
  map fst (Dict.set eqb d k v)
  = match Dict.get eqb d k with
    | Some _ => map fst d
    | None => map fst d ++ [k]
    end.
Proof.
  induction d as [|[k0 v0] d IH]; simpl; [reflexivity|].
  destruct (eqb k0 k); simpl; [reflexivity|].
  rewrite IH. now destruct (Dict.get eqb d k).
Qed.

Lemma get_none_keys (d : list (K * V)) (k : K) :
  Dict.get eqb d k = None <-> ~ In k (map fst d).
Proof.
  induction d as [|[k0 v0] d IH]; simpl.
  - tauto.
  - destruct (eqb k0 k) eqn:E.
    + apply eqb_eq in E. split; [discriminate | intros Hn].
      exfalso. apply Hn. now left.
    + rewrite IH. split.
      * intros Hn [Heq|Hin]; [|tauto].
        subst. rewrite eqb_same in E. discriminate.
      * tauto.
Qed.

Lemma nodup_set (d : list (K * V)) (k : K) (v : V) :
  NoDup (map fst d) -> NoDup (map fst (Dict.set eqb d k v)).
Proof.
  intros Hd. rewrite keys_set.
  destruct (Dict.get eqb d k) eqn:E; [exact Hd|].
  apply get_none_keys in E.
  apply NoDup_rev in Hd. rewrite <- (rev_involutive (_ ++ _)).
  apply NoDup_rev. rewrite rev_app_distr. simpl.
  constructor; [|exact Hd]. now rewrite <- in_rev.
Qed.

Lemma get_in (d : list (K * V)) (k : K) (v : V) :
  NoDup (map fst d) -> (In (k, v) d <-> Dict.get eqb d k = Some v).
Proof.
  induction d as [|[k0 v0] d IH]; simpl; intros Hd.
  - split; [tauto | discriminate].
  - inversion Hd as [|? ? Hk0 Hd']; subst.
    destruct (eqb k0 k) eqn:E.
    + apply eqb_eq in E. subst. split.
      * intros [Heq|Hin]; [congruence|].
        exfalso. apply Hk0. now apply (in_map fst) in Hin.
      * intros Heq. left. congruence.
    + rewrite <- (IH Hd'). split; [|tauto].
      intros [Heq|Hin]; [|exact Hin].
      injection Heq as -> ->. rewrite eqb_same in E. discriminate.
Qed.

Lemma get_del (d : list (K * V)) (k0 k : K) :
  Dict.get eqb (Dict.del eqb d k0) k
  = if eqb k0 k then None else Dict.get eqb d k.
Proof.
  unfold Dict.del. induction d as [|[k1 v1] d IH]; simpl.
  - now destruct (eqb k0 k).
  - destruct (eqb k1 k0) eqn:E10; simpl.
    + rewrite IH. destruct (eqb k0 k) eqn:E0; [reflexivity|].
      rewrite (eqb_trans_l _ _ k E10), E0. reflexivity.
    + rewrite IH. destruct (eqb k1 k) eqn:E1; [|reflexivity].
      destruct (eqb k0 k) eqn:E0; [|reflexivity].
      apply eqb_eq in E1, E0. subst.
      rewrite eqb_same in E10. discriminate.
Qed.

Lemma get_del_all (ks : list K) (d : list (K * V)) (k : K) :
  Dict.get eqb (fold_left (Dict.del eqb) ks d) k
  = if existsb (fun k0 => eqb k0 k) ks then None else Dict.get eqb d k.
Proof.
  revert d. induction ks as [|k0 ks IH]; intros d; simpl; [reflexivity|].
  rewrite IH, get_del.
  destruct (eqb k0 k); simpl; [|reflexivity].
  now destruct (existsb _ ks).
Qed.

End DictFacts.

(** ** The Aggregator *)

Lemma Permutation_concat_compat {A : Type} (l l' : list (list A)) :
  Permutation l l' -> Permutation (concat l) (concat l').
Proof.
  induction 1 as [|x l l' _ IH|x y l|l l' l'' _ IH1 _ IH2]; simpl.
  - constructor.
  - now apply Permutation_app_head.
  - rewrite !app_assoc. apply Permutation_app_tail, Permutation_app_comm.
  - now transitivity (concat l').
Qed.

Lemma Permutation_filter_compat {A : Type} (f : A -> bool) (l l' : list A) :
  Permutation l l' -> Permutation (filter f l) (filter f l').
Proof.
  induction 1 as [|x l l' _ IH|x y l|l l' l'' _ IH1 _ IH2]; simpl.
  - constructor.
  - destruct (f x); [now constructor | exact IH].
  - destruct (f x), (f y); try reflexivity. apply perm_swap.
  - now transitivity (filter f l').
Qed.

Section AggregatorFacts.
Context `{E : RulesEngine}.
Variable pre : list (Board -> Move -> bool).
Variable post : list (str -> Aggregator.BoardInfo -> bool).
Variable sw : bool.
Variable stored : list nat.

Import Aggregator.

Local Abbreviation key_of := (board_key sw stored).
Local Abbreviation keyed' := (keyed sw stored).
Local Abbreviation saved' := (saved pre).

Lemma move_eqb_eq (a b : Move) : move_eqb a b = true <-> a = b.
Proof. destruct (move_eqb_spec a b); split; congruence. Qed.

Lemma corpus_count_record (c : Configs) (k k' : str) (m m' : Move) :
  corpus_count (record c k m) k' m'
  = if Py.str_eqb k k' && move_eqb m m'
    then Some (S (held (corpus_count c k m)))
    else corpus_count c k' m'.
Proof.
  unfold record, corpus_count.
  destruct (Dict.get Py.str_eqb c k) as [info|] eqn:Ek;
    rewrite (get_set Py.str_eqb str_eqb_eq);
    destruct (Py.str_eqb k k') eqn:Ekk; simpl; try reflexivity;
    apply str_eqb_eq in Ekk; subst k'; rewrite Ek.
  - unfold update.
    destruct (Dict.get move_eqb (moves info) m) as [n|] eqn:Em; simpl;
      rewrite (get_set move_eqb move_eqb_eq);
      destruct (move_eqb m m'); try reflexivity.
    now rewrite Nat.add_1_r.
  - now destruct (move_eqb m m').
Qed.

Lemma corpus_count_record_all (l : list (str * Move)) (c : Configs)
    (k : str) (m : Move) :
  corpus_count (record_all c l) k m
  = if count_pair l k m =? 0 then corpus_count c k m
    else Some (held (corpus_count c k m) + count_pair l k m).
Proof.
  revert c. induction l as [|[k0 m0] l IH]; intros c; [reflexivity|].
  unfold record_all in *. simpl fold_left. rewrite IH.
  rewrite !corpus_count_record. unfold count_pair. simpl filter.
  destruct (Py.str_eqb k0 k && move_eqb m0 m) eqn:Ematch; simpl.
  - apply andb_prop in Ematch as [Hk Hm].
    apply str_eqb_eq in Hk. apply move_eqb_eq in Hm. subst k0 m0.
    destruct (length _ =? 0) eqn:En.
    + apply Nat.eqb_eq in En. rewrite En. f_equal. lia.
    + f_equal. lia.
  - reflexivity.
Qed.

Lemma get_record_none (c : Configs) (k0 k : str) (m0 : Move) :
  Dict.get Py.str_eqb (record c k0 m0) k = None
  <-> Dict.get Py.str_eqb c k = None /\ k0 <> k.
Proof.
  unfold record.
  destruct (Dict.get Py.str_eqb c k0) eqn:E0;
    rewrite (get_set Py.str_eqb str_eqb_eq);
    destruct (Py.str_eqb k0 k) eqn:Ek.
  all: try (apply str_eqb_eq in Ek; subst;
            split; [discriminate | intros [_ Hn]; congruence]).
  all: assert (k0 <> k)
         by (intros ->; unfold Py.str_eqb in Ek;
             destruct (list_eq_dec ascii_dec k k); congruence);
       tauto.
Qed.

Lemma get_record_all_none (l : list (str * Move)) (c : Configs) (k : str) :
  Dict.get Py.str_eqb (record_all c l) k = None
  <-> Dict.get Py.str_eqb c k = None /\ ~ In k (map fst l).
Proof.
  revert c. induction l as [|[k0 m0] l IH]; intros c.
  - simpl. tauto.
  - unfold record_all in *. simpl fold_left. rewrite IH, get_record_none.
    simpl. tauto.
Qed.

Lemma nodup_record_all (l : list (str * Move)) (c : Configs) :
  NoDup (map fst c) -> NoDup (map fst (record_all c l)).
Proof.
  revert c. induction l as [|[k0 m0] l IH]; intros c Hc; [exact Hc|].
  unfold record_all in *. simpl fold_left. apply IH.
  unfold record. destruct (Dict.get Py.str_eqb c k0);
    now apply (nodup_set Py.str_eqb str_eqb_eq).
Qed.

Lemma get_apply_post_filters (c : Configs) (k : str) :
  NoDup (map fst c) ->
  Dict.get Py.str_eqb (apply_post_filters post c) k
  = match Dict.get Py.str_eqb c k with
    | Some d => if existsb (fun f => f k d) post then None else Some d
    | None => None
    end.
Proof.
  intros Hc. unfold apply_post_filters.
  rewrite (get_del_all Py.str_eqb str_eqb_eq).
  destruct (existsb _ (to_delete post c)) eqn:Ex.
  - apply existsb_exists in Ex as [k0 [Hin Hk]].
    apply str_eqb_eq in Hk. subst k0.
    unfold to_delete in Hin. apply in_map_iff in Hin as [[k1 d] [Hfst Hin]].
    simpl in Hfst. subst k1. apply filter_In in Hin as [Hin Hveto].
    apply (get_in Py.str_eqb str_eqb_eq _ _ _ Hc) in Hin.
    rewrite Hin. simpl in Hveto. now rewrite Hveto.
  - destruct (Dict.get Py.str_eqb c k) as [d|] eqn:Ek; [|reflexivity].
    destruct (existsb (fun f => f k d) post) eqn:Ev; [|reflexivity].
    exfalso. apply (get_in Py.str_eqb str_eqb_eq _ _ _ Hc) in Ek.
    assert (Hdel : In k (to_delete post c)).
    { unfold to_delete. apply in_map_iff. exists (k, d). split;
        [reflexivity|]. apply filter_In. split; [exact Ek | exact Ev]. }
    assert (Hex : existsb (fun k0 => Py.str_eqb k0 k) (to_delete post c)
                  = true).
    { apply existsb_exists. exists k. split; [exact Hdel|].
      now apply str_eqb_eq. }
    congruence.
Qed.

Lemma keyed_app (l1 l2 : list (Board * Move)) :
  keyed' (l1 ++ l2)
  = match keyed' l1, keyed' l2 with
    | Some a, Some b => Some (a ++ b)
    | _, _ => None
    end.
Proof.
  induction l1 as [|[b m] l1 IH]; simpl.
  - now destruct (keyed' l2).
  - rewrite IH. destruct (key_of b); [|reflexivity].
    destruct (keyed' l1), (keyed' l2); reflexivity.
Qed.

Lemma keyed_perm (l l' : list (Board * Move)) :
  Permutation l l' ->
  forall r, keyed' l = Some r ->
  exists r', keyed' l' = Some r' /\ Permutation r r'.
Proof.
  induction 1 as [|[b m] l l' _ IH|[b m] [b' m'] l|l l' l'' _ IH1 _ IH2];
    intros r Hr.
  - exists r. split; [exact Hr | reflexivity].
  - simpl in *. destruct (key_of b) as [k|]; [|discriminate].
    destruct (keyed' l) as [r0|]; [|discriminate].
    injection Hr as <-. destruct (IH r0 eq_refl) as [r0' [-> Hp]].
    exists ((k, m) :: r0'). split; [reflexivity | now constructor].
  - simpl in *. destruct (key_of b') as [k'|]; [|discriminate].
    destruct (key_of b) as [k|]; [|discriminate].
    destruct (keyed' l) as [r0|]; [|discriminate].
    injection Hr as <-.
    exists ((k, m) :: (k', m') :: r0). split; [reflexivity|]. apply perm_swap.
  - destruct (IH1 r Hr) as [r1 [H1 Hp1]].
    destruct (IH2 r1 H1) as [r2 [H2 Hp2]].
    exists r2. split; [exact H2 | now transitivity r1].
Qed.

Lemma count_pair_perm (r r' : list (str * Move)) (k : str) (m : Move) :
  Permutation r r' -> count_pair r k m = count_pair r' k m.
Proof.
  intros Hp. unfold count_pair. apply Permutation_length.
  now apply Permutation_filter_compat.
Qed.

Lemma count_pair_observed (pl : list (Board * Move)) (k : str) (m : Move) :
  forall r, keyed' (filter saved' pl) = Some r ->
  count_pair r k m = length (filter (observed pre sw stored k m) pl).
Proof.
  induction pl as [|[b mv] pl IH]; intros r Hr; simpl in *.
  - injection Hr as <-. reflexivity.
  - unfold observed at 1. unfold saved at 1 in Hr. simpl in *.
    destruct (should_save pre b mv); simpl in *.
    + destruct (key_of b) as [k0|]; [|discriminate].
      destruct (keyed' (filter saved' pl)) as [r0|]; [|discriminate].
      injection Hr as <-. unfold count_pair in *. simpl.
      specialize (IH r0 eq_refl).
      destruct (Py.str_eqb k0 k && move_eqb mv m); simpl; now rewrite IH.
    + now apply IH.
Qed.

Lemma walk_game_keyed (g : list Move) (c : Configs) (b : Board) :
  walk_game pre sw stored c b g
  = match keyed' (filter saved' (plies b g)) with
    | Some l => Some (record_all c l, fold_left push g b)
    | None => None
    end.
Proof.
  revert c b. induction g as [|m g IH]; intros c b; [reflexivity|].
  simpl. unfold saved at 1. simpl.
  destruct (should_save pre b m); simpl.
  - destruct (key_of b) as [k|]; [|reflexivity].
    rewrite IH. now destruct (keyed' _).
  - apply IH.
Qed.

Lemma read_games_keyed (gs : list (list Move)) (c : Configs) :
  read_games pre sw stored c new_board gs
  = match keyed' (filter saved' (flat_map (plies new_board) gs)) with
    | Some l => Some (record_all c l, new_board)
    | None => None
    end.
Proof.
  revert c. induction gs as [|g gs IH]; intros c; [reflexivity|].
  simpl. rewrite walk_game_keyed, filter_app, keyed_app.
  destruct (keyed' (filter saved' (plies new_board g))) as [l1|];
    [|reflexivity].
  rewrite IH. destruct (keyed' _) as [l2|]; [|reflexivity].
  unfold record_all. now rewrite fold_left_app.
Qed.

Lemma read_files_keyed (files : list (list (list Move))) (c : Configs) :
  read_files pre sw stored c new_board files
  = match keyed' (filter saved' (flat_map (plies new_board) (concat files)))
    with
    | Some l => Some (record_all c l, new_board)
    | None => None
    end.
Proof.
  revert c. induction files as [|f files IH]; intros c; [reflexivity|].
  simpl. rewrite read_games_keyed, flat_map_app, filter_app, keyed_app.
  destruct (keyed' (filter saved' (flat_map (plies new_board) f))) as [l1|];
    [|reflexivity].
  rewrite IH. destruct (keyed' _) as [l2|]; [|reflexivity].
  unfold record_all. now rewrite fold_left_app.
Qed.

Lemma corpus_count_collected (l : list (str * Move)) (k : str) (m : Move) :
  corpus_count (record_all [] l) k m
  = if count_pair l k m =? 0 then None else Some (count_pair l k m).
Proof. now rewrite corpus_count_record_all. Qed.

Lemma veto_reads_mapping (k : str) (d d' : BoardInfo) :
  Forall reads_mapping post ->
  (forall m, Dict.get move_eqb (moves d) m = Dict.get move_eqb (moves d') m) ->
  existsb (fun f => f k d) post = existsb (fun f => f k d') post.
Proof.
  intros Hpost Hdd. induction Hpost as [|f fs Hf _ IH]; [reflexivity|].
  simpl. now rewrite IH, (Hf k d d' Hdd).
Qed.

Lemma count_pair_in (l : list (str * Move)) (k : str) (m : Move) :
  count_pair l k m <> 0 -> In (k, m) l.
Proof.
  unfold count_pair. intros Hc.
  destruct (filter (fun km => Py.str_eqb (fst km) k && move_eqb (snd km) m) l)
    as [|[k0 m0] r] eqn:Ef; [now elim Hc|].
  assert (Hin : In (k0, m0) (filter (fun km => Py.str_eqb (fst km) k
                                       && move_eqb (snd km) m) l))
    by (rewrite Ef; now left).
  apply filter_In in Hin as [Hin Heq]. simpl in Heq.
  apply andb_true_iff in Heq as [Hk Hm].
  apply str_eqb_eq in Hk. apply move_eqb_eq in Hm. now subst.
Qed.

Lemma in_count_pair (l : list (str * Move)) (k : str) (m : Move) :
  In (k, m) l -> count_pair l k m <> 0.
Proof.
  unfold count_pair. intros Hin Hz.
  assert (Hf : In (k, m) (filter (fun km => Py.str_eqb (fst km) k
                                    && move_eqb (snd km) m) l)).
  { apply filter_In. split; [exact Hin|]. simpl. apply andb_true_iff.
    split; [now apply str_eqb_eq | now apply move_eqb_eq]. }
  destruct (filter _ l); [destruct Hf | discriminate Hz].
Qed.

(** A key is in the collected mapping exactly when some recorded ply
    shows it. *)
Lemma collected_key_observed (l : list (str * Move)) (key : str) :
  Dict.get Py.str_eqb (record_all [] l) key <> None
  <-> exists move, count_pair l key move <> 0.
Proof.
  rewrite get_record_all_none. split.
  - intros Hn.
    destruct (in_dec (list_eq_dec ascii_dec) key (map fst l)) as [Hin|Hout].
    + apply in_map_iff in Hin as [[k m] [Hk Hin]]. simpl in Hk. subst k.
      exists m. now apply in_count_pair.
    + elim Hn. split; [reflexivity | exact Hout].
  - intros [move Hc] [_ Hout]. apply Hout. apply in_map_iff.
    exists (key, move). split; [reflexivity | now apply count_pair_in].
Qed.

(** C4: when the games of [files'] are those of [files] in another order
    (as they are when [files'] is a permutation of [files], by
    [Permutation_concat_compat]) and the run over [files] gives a
    corpus, the run over [files'] gives one too, with the same keys and
    the same count for every key and move.  A key is in the corpus
    exactly when some ply of that key passes the pre-filters and no
    post-filter answers true for the mapping of its moves to the numbers
    of such plies; the count held for a key of the corpus and a move is
    the number of plies of that key and move the pre-filters let
    through. *)
Theorem aggregation_order_independent
    (files files' : list (list (list Move))) (final : Configs) :
  Permutation (concat files) (concat files') ->
  Forall reads_mapping post ->
  create_database_from_pgn pre post sw stored files = Some final ->
  exists final',
    create_database_from_pgn pre post sw stored files' = Some final' /\
    (forall key move,
      corpus_count final' key move = corpus_count final key move /\
      observations pre sw stored (concat files') key move
      = observations pre sw stored (concat files) key move /\
      corpus_count final key move
      = match Dict.get Py.str_eqb final key with
        | Some _ =>
            let n := observations pre sw stored (concat files) key move in
            if n =? 0 then None else Some n
        | None => None
        end) /\
    (forall key,
      (Dict.get Py.str_eqb final' key = None
       <-> Dict.get Py.str_eqb final key = None) /\
      forall info,
        (forall move,
            Dict.get move_eqb (moves info) move
            = let n := observations pre sw stored (concat files) key move in
              if n =? 0 then None else Some n) ->
        (Dict.get Py.str_eqb final key <> None
         <-> (exists move,
                 observations pre sw stored (concat files) key move <> 0) /\
             existsb (fun f => f key info) post = false)).
Proof.
  intros Hperm Hpost. unfold create_database_from_pgn.
  rewrite !read_files_keyed.
  assert (Hpl : Permutation
                  (filter saved' (flat_map (plies new_board) (concat files)))
                  (filter saved' (flat_map (plies new_board) (concat files'))))
    by (apply Permutation_filter_compat, Permutation_flat_map, Hperm).
  destruct (keyed' (filter saved' (flat_map _ (concat files)))) as [l|] eqn:Hl;
    [|discriminate].
  intros Hfinal. injection Hfinal as <-.
  destruct (keyed_perm _ _ Hpl l Hl) as [l' [Hl' Hll]]. rewrite Hl'.
  eexists. split; [reflexivity|].
  assert (Hobs : forall k m,
             count_pair l k m
             = observations pre sw stored (concat files) k m)
    by (intros k m; now apply count_pair_observed).
  assert (Hobs' : forall k m,
             count_pair l' k m
             = observations pre sw stored (concat files') k m)
    by (intros k m; now apply count_pair_observed).
  assert (Hsame : forall k m, count_pair l k m = count_pair l' k m)
    by (intros k m; now apply count_pair_perm).
  assert (Hnd : forall r : list (str * Move),
             NoDup (map fst (record_all [] r)))
    by (intros r; apply nodup_record_all; constructor).
  assert (Hcc : forall k m,
             corpus_count (record_all [] l') k m
             = corpus_count (record_all [] l) k m)
    by (intros k m; now rewrite !corpus_count_collected, Hsame).
  assert (Hkeys : forall key,
             match Dict.get Py.str_eqb (record_all [] l') key,
                   Dict.get Py.str_eqb (record_all [] l) key with
             | Some d', Some d =>
                 forall m, Dict.get move_eqb (moves d') m
                           = Dict.get move_eqb (moves d) m
             | None, None => True
             | _, _ => False
             end).
  { intros key.
    destruct (Dict.get Py.str_eqb (record_all [] l') key) as [d'|] eqn:Ed';
      destruct (Dict.get Py.str_eqb (record_all [] l) key) as [d|] eqn:Ed.
    - intros m. specialize (Hcc key m). unfold corpus_count in Hcc.
      now rewrite Ed, Ed' in Hcc.
    - apply get_record_all_none in Ed as [_ Hn].
      assert (Hn' : Dict.get Py.str_eqb (record_all [] l') key = None).
      { apply get_record_all_none. split; [reflexivity|].
        intros Hin. apply Hn.
        apply (Permutation_in _ (Permutation_map fst (Permutation_sym Hll))).
        exact Hin. }
      congruence.
    - apply get_record_all_none in Ed' as [_ Hn].
      assert (Hn' : Dict.get Py.str_eqb (record_all [] l) key = None).
      { apply get_record_all_none. split; [reflexivity|].
        intros Hin. apply Hn.
        apply (Permutation_in _ (Permutation_map fst Hll)). exact Hin. }
      congruence.
    - exact I. }
  split.
  - intros key move. split; [|split].
    + unfold corpus_count at 1 2.
      rewrite !get_apply_post_filters by apply Hnd.
      specialize (Hkeys key).
      destruct (Dict.get Py.str_eqb (record_all [] l') key) as [d'|];
        destruct (Dict.get Py.str_eqb (record_all [] l) key) as [d|];
        try contradiction; [|reflexivity].
      rewrite (veto_reads_mapping key d' d Hpost Hkeys).
      destruct (existsb _ post); [reflexivity | apply Hkeys].
    + now rewrite <- Hobs, <- Hobs'.
    + unfold corpus_count.
      destruct (Dict.get Py.str_eqb (apply_post_filters post _) key)
        as [info|] eqn:Ef; [|reflexivity].
      rewrite get_apply_post_filters in Ef by apply Hnd.
      destruct (Dict.get Py.str_eqb (record_all [] l) key) as [d|] eqn:Ed;
        [|discriminate].
      destruct (existsb _ post); [discriminate|]. injection Ef as <-.
      pose proof (corpus_count_collected l key move) as Hc.
      unfold corpus_count in Hc. rewrite Ed in Hc.
      cbv zeta. now rewrite <- Hobs.
  - intros key. split.
    + rewrite !get_apply_post_filters by apply Hnd.
      specialize (Hkeys key).
      destruct (Dict.get Py.str_eqb (record_all [] l') key) as [d'|];
        destruct (Dict.get Py.str_eqb (record_all [] l) key) as [d|];
        try contradiction; [|tauto].
      rewrite (veto_reads_mapping key d' d Hpost Hkeys).
      destruct (existsb _ post); [tauto|].
      split; discriminate.
    + intros info Hinfo. cbv zeta in Hinfo.
      rewrite get_apply_post_filters by apply Hnd.
      pose proof (collected_key_observed l key) as Hpresent.
      destruct (Dict.get Py.str_eqb (record_all [] l) key) as [d|] eqn:Ed.
      * assert (Hd : forall m, Dict.get move_eqb (moves d) m
                               = Dict.get move_eqb (moves info) m).
        { intros m. rewrite Hinfo, <- Hobs.
          pose proof (corpus_count_collected l key m) as Hc.
          unfold corpus_count in Hc. now rewrite Ed in Hc. }
        rewrite (veto_reads_mapping key d info Hpost Hd).
        assert (Hex : exists move,
                   observations pre sw stored (concat files) key move <> 0).
        { destruct (proj1 Hpresent) as [m Hm]; [discriminate|].
          exists m. now rewrite <- Hobs. }
        destruct (existsb (fun f => f key info) post).
        -- split; [intros Hn; now elim Hn | intros [_ Hf]; discriminate Hf].
        -- split; [intros _; now split | intros _; discriminate].
      * split; [intros Hn; now elim Hn|].
        intros [[m Hm] _]. exfalso. apply Hpresent; [|reflexivity].
        exists m. now rewrite Hobs.
Qed.

Lemma should_save_from_veto (filters : list (Board -> Move -> bool))
    (b : Board) (m : Move) :
  (exists filter, In filter filters /\ filter b m = true) ->
  should_save_from filters b m = false.
Proof.
  intros [f [Hin Hf]]. induction filters as [|f0 fs IH]; [destruct Hin|].
  simpl. destruct Hin as [->|Hin]; [now rewrite Hf|].
  destruct (f0 b m); [reflexivity | now apply IH].
Qed.

Lemma should_save_from_pass (filters : list (Board -> Move -> bool))
    (b : Board) (m : Move) :
  (forall filter, In filter filters -> filter b m = false) ->
  should_save_from filters b m = true.
Proof.
  induction filters as [|f0 fs IH]; intros Hnone; [reflexivity|].
  simpl. rewrite (Hnone f0) by now left.
  apply IH. intros f Hin. apply Hnone. now right.
Qed.

(** C8: a ply some pre-filter answers true for leaves the mapping as it
    is and still advances the board; a game every ply of which is so
    vetoed is walked to its end, returns the mapping it was given and ends
    on the board all its moves lead to; a ply no pre-filter answers true
    for is recorded under the key of its board. *)
Theorem prefilter_veto_skips_but_advances :
  (forall (configs : Configs) (the_board : Board) (move : Move)
          (rest : list Move),
      (exists filter, In filter pre /\ filter the_board move = true) ->
      walk_game pre sw stored configs the_board (move :: rest)
      = walk_game pre sw stored configs (push the_board move) rest) /\
  (forall (configs : Configs) (the_board : Board) (main_line : list Move),
      (forall b m, In (b, m) (plies the_board main_line) ->
                   exists filter, In filter pre /\ filter b m = true) ->
      walk_game pre sw stored configs the_board main_line
      = Some (configs, fold_left push main_line the_board) /\
      read_games pre sw stored configs the_board [main_line]
      = Some (configs, new_board)) /\
  (forall (configs : Configs) (the_board : Board) (move : Move)
          (rest : list Move) (key : str),
      (forall filter, In filter pre -> filter the_board move = false) ->
      board_key sw stored the_board = Some key ->
      walk_game pre sw stored configs the_board (move :: rest)
      = walk_game pre sw stored (record configs key move)
          (push the_board move) rest).
Proof.
  assert (Hveto : forall b m,
             (exists filter, In filter pre /\ filter b m = true) ->
             should_save pre b m = false)
    by (intros b m; apply should_save_from_veto).
  assert (Hgame : forall main_line configs the_board,
             (forall b m, In (b, m) (plies the_board main_line) ->
                          exists filter, In filter pre /\ filter b m = true) ->
             walk_game pre sw stored configs the_board main_line
             = Some (configs, fold_left push main_line the_board)).
  { induction main_line as [|m g IH]; intros c b Hall; [reflexivity|].
    simpl. rewrite (Hveto b m) by (apply Hall; now left).
    apply IH. intros b' m' Hin. apply Hall. now right. }
  split; [|split].
  - intros c b m rest Hex. simpl. now rewrite (Hveto b m Hex).
  - intros c b g Hall. split; [now apply Hgame|].
    simpl. now rewrite (Hgame g c b Hall).
  - intros c b m rest key Hnone Hkey. simpl. rewrite Hkey.
    unfold should_save. now rewrite should_save_from_pass.
Qed.

End AggregatorFacts.

Lemma aggregation_order_independent_witness :
  let pre : list (list nat -> nat -> bool) := [Toy.leq_n_moves_made 0] in
  let post : list (str -> @Aggregator.BoardInfo Toy.engine -> bool) :=
    [Filters.n_man_filter_creator 2] in
  let files := [[[1; 2; 3]; [1; 2]]; [[4; 2; 5]]] in
  let files' := [[[4; 2; 5]]; [[1; 2]; [1; 2; 3]]] in
  let key : str := "4k3/8/8/8/8/8/8/R3K3,Qk,-" in
  exists final final',
    @Aggregator.create_database_from_pgn Toy.engine pre post true [0; 2; 3]
      files = Some final /\
    @Aggregator.create_database_from_pgn Toy.engine pre post true [0; 2; 3]
      files' = Some final' /\
    (forall key move,
        Aggregator.corpus_count final' key move
        = Aggregator.corpus_count final key move) /\
    @Aggregator.board_key Toy.engine true [0; 2; 3] [1] = Some key /\
    @Aggregator.observations Toy.engine pre true [0; 2; 3] (concat files)
      key 2 = 2 /\
    Dict.get Py.str_eqb final key <> None /\
    Dict.get Py.str_eqb final' key <> None /\
    Aggregator.corpus_count final' key 2 = Some 2.
Proof.
  cbv zeta.
  assert (Hperm : Permutation
                    (concat [[[1; 2; 3]; [1; 2]]; [[4; 2; 5]]])
                    (concat [[[4; 2; 5]]; [[1; 2]; [1; 2; 3]]])).
  { simpl. eapply Permutation_trans; [apply perm_skip, perm_swap|].
    eapply Permutation_trans; [apply perm_swap|].
    apply perm_skip, perm_swap. }
  assert (Hpost : Forall (@Aggregator.reads_mapping Toy.engine)
                    [Filters.n_man_filter_creator 2]).
  { constructor; [|constructor]. intros key d d' _. reflexivity. }
  destruct (@Aggregator.create_database_from_pgn Toy.engine
              [Toy.leq_n_moves_made 0] [Filters.n_man_filter_creator 2]
              true [0; 2; 3] [[[1; 2; 3]; [1; 2]]; [[4; 2; 5]]])
    as [final|] eqn:Efinal; [|vm_compute in Efinal; discriminate Efinal].
  destruct (@aggregation_order_independent Toy.engine
              [Toy.leq_n_moves_made 0] [Filters.n_man_filter_creator 2]
              true [0; 2; 3]
              [[[1; 2; 3]; [1; 2]]; [[4; 2; 5]]]
              [[[4; 2; 5]]; [[1; 2]; [1; 2; 3]]]
              final Hperm Hpost Efinal)
    as [final' [Hrun [Hsame Hkeys]]].
  exists final, final'. split; [reflexivity|]. split; [exact Hrun|].
  split; [intros key move; exact (proj1 (Hsame key move))|].
  split; [vm_compute; reflexivity|].
  split; [vm_compute; reflexivity|].
  destruct (Hkeys (list_ascii_of_string "4k3/8/8/8/8/8/8/R3K3,Qk,-"))
    as [Hboth Hpresent].
  destruct (Hsame (list_ascii_of_string "4k3/8/8/8/8/8/8/R3K3,Qk,-") 2)
    as [Hcount [_ Hobs]].
  assert (Hin : Dict.get Py.str_eqb final
                  (list_ascii_of_string "4k3/8/8/8/8/8/8/R3K3,Qk,-")
                <> None).
  { apply (Hpresent (Toy.info [(2, 2)])).
    - intros move.
      do 3 (destruct move as [|move]; [vm_compute; reflexivity|]).
      vm_compute. reflexivity.
    - split; [exists 2; vm_compute; discriminate | vm_compute; reflexivity]. }
  split; [exact Hin|]. split.
  - intros Hn. apply Hin. apply Hboth. exact Hn.
  - rewrite Hcount, Hobs.
    destruct (Dict.get Py.str_eqb final
                (list_ascii_of_string "4k3/8/8/8/8/8/8/R3K3,Qk,-"));
      [vm_compute; reflexivity | now elim Hin].
Defined.

Lemma prefilter_veto_skips_but_advances_witness :
  @Aggregator.walk_game Toy.engine [Toy.leq_n_moves_made 5] true [0; 2; 3]
    [] [] [1; 2; 3]
  = Some ([], [3; 2; 1]).
Proof.
  destruct (@prefilter_veto_skips_but_advances Toy.engine
              [Toy.leq_n_moves_made 5] true [0; 2; 3]) as [_ [Hgame _]].
  apply (Hgame [] [] [1; 2; 3]).
  intros b m Hin. exists (Toy.leq_n_moves_made 5). split; [now left|].
  simpl in Hin.
  destruct Hin as [Heq|[Heq|[Heq|[]]]]; injection Heq as <- <-; reflexivity.
Defined.

(** ** The data writer *)

Section CutFacts.
Context {A : Type}.

Lemma cut_concat (sizes : list nat) (l : list A) :
  concat (Writer.cut sizes l) = firstn (list_sum sizes) l.
Proof.
  revert l. induction sizes as [|k ks IH]; intros l; [reflexivity|].
  simpl. rewrite IH, firstn_skipn_comm.
  rewrite <- (firstn_skipn k (firstn (k + list_sum ks) l)) at 2.
  f_equal. rewrite firstn_firstn. f_equal. lia.
Qed.

Lemma cut_lengths (sizes : list nat) (l : list A) :
  list_sum sizes <= length l ->
  map (@length A) (Writer.cut sizes l) = sizes.
Proof.
  revert l. induction sizes as [|k ks IH]; intros l Hl; [reflexivity|].
  simpl in *. rewrite IH by (rewrite length_skipn; lia).
  rewrite length_firstn. f_equal. lia.
Qed.

Lemma cut_nth (sizes : list nat) (l : list A) (i : nat) :
  nth i (Writer.cut sizes l) []
  = firstn (nth i sizes 0) (skipn (list_sum (firstn i sizes)) l).
Proof.
  revert l i. induction sizes as [|k ks IH]; intros l i.
  - destruct i; reflexivity.
  - destruct i as [|i]; [reflexivity|].
    simpl. rewrite IH, skipn_skipn. do 2 f_equal. lia.
Qed.

Lemma In_firstn_list (n : nat) (l : list A) (x : A) :
  In x (firstn n l) -> In x l.
Proof.
  intros H. rewrite <- (firstn_skipn n l). apply in_or_app. now left.
Qed.

Lemma In_skipn_list (n : nat) (l : list A) (x : A) :
  In x (skipn n l) -> In x l.
Proof.
  intros H. rewrite <- (firstn_skipn n l). apply in_or_app. now right.
Qed.

End CutFacts.

Section WriterFacts.
Context `{E : RulesEngine}.
Variable file_ratios : list float.
Variable for_deep_pink_loss : list bool.
Variable comparison_move_generator :
  Board -> Aggregator.BoardInfo -> list Move.
Variable line_to_fen_fn : str -> str.
Variable board_to_str_fn : Board -> str.

Import Aggregator Writer.

Local Abbreviation entry_writes' :=
  (entry_writes comparison_move_generator line_to_fen_fn board_to_str_fn).
Local Abbreviation slice_writes' :=
  (slice_writes comparison_move_generator line_to_fen_fn board_to_str_fn).
Local Abbreviation child := (child_str board_to_str_fn).

Lemma max_move_count_some (cur_data : BoardInfo) :
  moves cur_data <> [] -> exists mx, max_move_count cur_data = Some mx.
Proof.
  unfold max_move_count. destruct (moves cur_data) as [|[m c] ms];
    [congruence|]. intros _. simpl. eauto.
Qed.

Lemma entry_writes_some (deep : bool) (item : str * BoardInfo) :
  moves (snd item) <> [] -> entry_writes' deep item <> None.
Proof.
  intros Hne. unfold entry_writes. destruct deep; [|discriminate].
  unfold deep_pink_writes.
  destruct (max_move_count_some _ Hne) as [mx ->]. discriminate.
Qed.

Lemma write_entries_done (deep : bool) (n : nat) :
  forall (it : Configs) (written : list str),
    n <= length it ->
    (forall item, In item it -> moves (snd item) <> []) ->
    write_entries comparison_move_generator line_to_fen_fn board_to_str_fn
      deep n it written
    = Done (written ++ slice_writes' deep (firstn n it)) (skipn n it).
Proof.
  induction n as [|n IH]; intros it written Hn Hall; simpl.
  - now rewrite app_nil_r.
  - destruct it as [|item rest]; [simpl in Hn; lia|].
    unfold slice_writes. simpl.
    destruct (entry_writes' deep item) as [ws|] eqn:Ew.
    + rewrite IH; [|simpl in Hn; lia | intros i Hi; apply Hall; now right].
      now rewrite app_assoc.
    + exfalso. apply (entry_writes_some deep item); [|exact Ew].
      apply Hall. now left.
Qed.

Lemma writer_loop_done (dests : list (float * bool)) (N : nat) :
  forall (it : Configs) (sizes : list nat),
    slice_sizes dests N = Some sizes ->
    list_sum sizes <= length it ->
    (forall item, In item it -> moves (snd item) <> []) ->
    writer_loop comparison_move_generator line_to_fen_fn board_to_str_fn
      dests N it
    = (map (fun p => slice_writes' (snd (fst p)) (snd p))
           (combine dests (cut sizes it)),
       None).
Proof.
  induction dests as [|[ratio deep] dests IH]; intros it sizes Hs Hsum Hall.
  - reflexivity.
  - simpl in Hs |- *.
    destruct (Splitter.slice_size ratio N) as [k|]; [|discriminate].
    destruct (slice_sizes dests N) as [ks|] eqn:Eks; [|discriminate].
    injection Hs as <-. simpl in Hsum.
    rewrite write_entries_done by (assumption || lia).
    rewrite (IH (skipn (Z.to_nat k) it) ks eq_refl).
    + reflexivity.
    + rewrite length_skipn. lia.
    + intros item Hin. apply Hall. now apply In_skipn_list in Hin.
Qed.

Lemma fold_left_max_ge (cs : list nat) :
  forall c x, In x (c :: cs) -> x <= fold_left Nat.max cs c.
Proof.
  induction cs as [|a cs IH]; intros c x Hin; simpl.
  - destruct Hin as [->|[]]. lia.
  - destruct Hin as [->|[->|Hin]].
    + transitivity (Nat.max x a); [lia | apply IH; now left].
    + transitivity (Nat.max c x); [lia | apply IH; now left].
    + apply IH. now right.
Qed.

Lemma get_some_value {V : Type} (d : list (Move * V)) (m : Move) (v : V) :
  Dict.get move_eqb d m = Some v -> In m (map fst d) /\ In v (map snd d).
Proof.
  induction d as [|[m0 v0] d IH]; simpl; [discriminate|].
  destruct (move_eqb_spec m0 m) as [->|Hne].
  - intros Heq. injection Heq as ->. split; now left.
  - intros Hg. destruct (IH Hg). split; now right.
Qed.

Lemma triplet_writes_records (top negs : list Move) (anchor : str)
    (b : Board) :
  concat
    (map (fun move =>
            concat (map (fun x => x ++ child b move ++ newline)
                        (map (fun pos => anchor ++ child b pos) top)))
         negs)
  = concat
      (flat_map (fun neg =>
                   map (fun pos => anchor ++ child b pos ++ child b neg
                                   ++ newline) top)
                negs).
Proof.
  induction negs as [|neg negs IH]; [reflexivity|].
  simpl. rewrite concat_app, IH. f_equal.
  rewrite map_map. f_equal. apply map_ext. intros pos.
  now rewrite <- app_assoc.
Qed.

Lemma triplet_records_length (top negs : list Move) (f : Move -> Move -> str) :
  length (flat_map (fun neg => map (fun pos => f pos neg) top) negs)
  = length top * length negs.
Proof.
  induction negs as [|neg negs IH]; simpl; [lia|].
  rewrite length_app, length_map, IH. lia.
Qed.

End WriterFacts.

Section NewlineFacts.
Import Py.

Lemma swapcase_char_newline (c : ascii) :
  swapcase_char c = ascii_of_nat 10 -> c = ascii_of_nat 10.
Proof.
  destruct c as [[] [] [] [] [] [] [] []]; intros H;
    first [reflexivity | discriminate H].
Qed.

Lemma switch_no_newline (s : str) :
  ~ In (ascii_of_nat 10) s ->
  ~ In (ascii_of_nat 10) (Splitter.switch_from_blacks_move s).
Proof.
  intros Hs Hin. apply Hs. unfold Splitter.switch_from_blacks_move in Hin.
  apply in_map_iff in Hin as [c [Hc Hin]].
  apply swapcase_char_newline in Hc. subst c.
  apply in_concat in Hin as [row [Hrow Hin]].
  apply in_rev in Hrow. apply in_map_iff in Hrow as [j [<- _]].
  unfold slice in Hin.
  now apply In_firstn_list, In_skipn_list in Hin.
Qed.

Lemma count_occ_lines (records : list str) :
  Forall (fun r => count_occ ascii_dec r (ascii_of_nat 10) = 1) records ->
  count_occ ascii_dec (concat records) (ascii_of_nat 10) = length records.
Proof.
  induction 1 as [|r rs Hr _ IH]; [reflexivity|].
  simpl concat. rewrite count_occ_app, Hr, IH. reflexivity.
Qed.

End NewlineFacts.

Section WriterClaims.
Context `{E : RulesEngine}.
Variable file_ratios : list float.
Variable for_deep_pink_loss : list bool.
Variable comparison_move_generator :
  Board -> Aggregator.BoardInfo -> list Move.
Variable line_to_fen_fn : str -> str.
Variable board_to_str_fn : Board -> str.

Import Aggregator Writer.

(** C2 (as amended): when the sizes [floor(ratio_i * N)] of the
    destinations, a negative one counting as none, add up to at most the
    [N] entries of the corpus, the writer ends without an exception and
    destination [i] holds what the entries of the [i]-th consecutive piece
    of the corpus write: the pieces have the asked sizes, piece [i] starts
    where the sizes before it end, together they are the first entries of
    the corpus, the rest is written nowhere, and no key is in two pieces.
    For 100 entries and the ratios 0.7, 0.1, 0.2 the sizes are 70, 10, 20. *)
Theorem splitter_contiguous_slices (dict : Configs) (filenames : list str)
    (sizes : list nat) :
  slice_sizes (destinations file_ratios for_deep_pink_loss filenames)
              (length dict) = Some sizes ->
  list_sum sizes <= length dict ->
  (forall item, In item dict -> moves (snd item) <> []) ->
  let dests := destinations file_ratios for_deep_pink_loss filenames in
  let slices := cut sizes dict in
  writer file_ratios for_deep_pink_loss comparison_move_generator
         line_to_fen_fn board_to_str_fn dict filenames
  = (map (fun p => slice_writes comparison_move_generator line_to_fen_fn
                     board_to_str_fn (snd (fst p)) (snd p))
         (combine dests slices),
     None) /\
  map (@length _) slices = sizes /\
  (forall i, nth i slices []
             = firstn (nth i sizes 0)
                      (skipn (list_sum (firstn i sizes)) dict)) /\
  dict = concat slices ++ skipn (list_sum sizes) dict /\
  (NoDup (map fst dict) -> NoDup (map fst (concat slices))) /\
  map (fun ratio => Splitter.slice_size ratio 100)
      [0x1.6666666666666p-1%float; 0x1.999999999999ap-4%float;
       0x1.999999999999ap-3%float]
  = [Some 70%Z; Some 10%Z; Some 20%Z].
Proof.
  intros Hsizes Hsum Hall dests slices. subst dests slices.
  split; [now apply writer_loop_done|].
  split; [now apply cut_lengths|].
  split; [intros i; apply cut_nth|].
  rewrite cut_concat.
  split; [now rewrite firstn_skipn|].
  split; [|vm_compute; reflexivity].
  intros Hnd. rewrite <- (firstn_skipn (list_sum sizes) dict) in Hnd.
  rewrite map_app in Hnd. now apply NoDup_app_remove_r in Hnd.
Qed.

(** C3: an entry with at least one move writes to a triplet destination
    the text of [|top| * |negatives|] records, one for every comparison
    move the generator yields on the entry's board and every move whose
    count is the entry's largest, ties included; each record is the
    anchor, the positive child, the negative child and a line end. *)
Theorem triplet_expansion_count (cur_str : str) (cur_data : BoardInfo) :
  moves cur_data <> [] ->
  exists max_count writes,
    max_move_count cur_data = Some max_count /\
    entry_writes comparison_move_generator line_to_fen_fn board_to_str_fn
      true (cur_str, cur_data) = Some writes /\
    let top := most_chosen_moves cur_data max_count in
    let negatives :=
      comparison_move_generator (board_of_fen (line_to_fen_fn cur_str))
        cur_data in
    let records :=
      triplet_records comparison_move_generator line_to_fen_fn
        board_to_str_fn cur_str cur_data max_count in
    concat writes = concat records /\
    length records = length top * length negatives /\
    (forall move,
        In move top
        <-> Dict.get move_eqb (moves cur_data) move = Some max_count) /\
    (forall move c,
        Dict.get move_eqb (moves cur_data) move = Some c -> c <= max_count) /\
    ((forall b, ~ In (ascii_of_nat 10) (board_to_str_fn b)) ->
     count_occ ascii_dec (concat writes) (ascii_of_nat 10)
     = length top * length negatives).
Proof.
  intros Hne. destruct (max_move_count_some cur_data Hne) as [mx Hmx].
  exists mx. eexists. split; [exact Hmx|].
  unfold entry_writes, deep_pink_writes. simpl fst. simpl snd.
  rewrite Hmx. split; [reflexivity|]. cbv zeta.
  assert (Hrec : forall top negs anchor b,
             length (flat_map
                       (fun neg =>
                          map (fun pos =>
                                 anchor ++ child_str board_to_str_fn b pos
                                 ++ child_str board_to_str_fn b neg
                                 ++ newline) top) negs)
             = length top * length negs).
  { intros top negs anchor b.
    apply (triplet_records_length top negs
             (fun pos neg => anchor ++ child_str board_to_str_fn b pos
                             ++ child_str board_to_str_fn b neg ++ newline)). }
  split; [apply triplet_writes_records|].
  split; [apply Hrec|].
  split; [|split].
  - intros move. unfold most_chosen_moves. rewrite filter_In. split.
    + intros [_ Hg].
      destruct (Dict.get move_eqb (moves cur_data) move) as [c|];
        [|discriminate].
      apply Nat.eqb_eq in Hg. now subst.
    + intros Hg. split; [now apply get_some_value in Hg|].
      rewrite Hg. apply Nat.eqb_refl.
  - intros move c Hg. apply get_some_value in Hg as [_ Hin].
    unfold max_move_count in Hmx.
    destruct (map snd (moves cur_data)) as [|c0 cs]; [discriminate|].
    injection Hmx as <-. now apply fold_left_max_ge.
  - intros Hnl. rewrite triplet_writes_records, count_occ_lines.
    + apply Hrec.
    + apply Forall_forall. intros r Hr.
      apply in_flat_map in Hr as [neg [_ Hr]].
      apply in_map_iff in Hr as [pos [<- _]].
      rewrite !count_occ_app.
      assert (Hchild : forall b m,
                 count_occ ascii_dec (child_str board_to_str_fn b m)
                           (ascii_of_nat 10) = 0).
      { intros b m. apply count_occ_not_In, switch_no_newline, Hnl. }
      rewrite !Hchild.
      rewrite (proj1 (count_occ_not_In ascii_dec _ _) (Hnl _)).
      reflexivity.
Qed.

End WriterClaims.

Lemma toy_board_str_no_newline (b : list nat) :
  ~ In (ascii_of_nat 10) (Toy.board_str b).
Proof.
  unfold Toy.board_str. intros Hin.
  apply in_map_iff in Hin as [i [Hi _]].
  destruct (existsb (Nat.eqb i) b); discriminate Hi.
Qed.

Lemma splitter_contiguous_slices_witness :
  let dict : @Aggregator.Configs Toy.engine :=
    map (fun i => ([ascii_of_nat i], Toy.info [(i, 1)])) (seq 0 100) in
  exists files,
    @Writer.writer Toy.engine
      [0x1.6666666666666p-1%float; 0x1.999999999999ap-4%float;
       0x1.999999999999ap-3%float]
      [false; false; false] (fun _ _ => []) (fun x => x) Toy.board_str
      dict [("train" : str); ("validate" : str); ("test" : str)]
    = (files, None) /\
    map (@length _) files = [70; 10; 20] /\
    map (@length _) (Writer.cut [70; 10; 20] dict) = [70; 10; 20].
Proof.
  intros dict.
  assert (Hall : forall item, In item dict ->
                              Aggregator.moves (snd item) <> []).
  { intros item Hin. apply in_map_iff in Hin as [i [<- _]]. discriminate. }
  destruct (@splitter_contiguous_slices Toy.engine
              [0x1.6666666666666p-1%float; 0x1.999999999999ap-4%float;
               0x1.999999999999ap-3%float]
              [false; false; false] (fun _ _ => []) (fun x => x)
              Toy.board_str dict
              [("train" : str); ("validate" : str); ("test" : str)]
              [70; 10; 20] eq_refl
              (proj1 (Nat.leb_le (list_sum [70; 10; 20]) (length dict))
                     eq_refl)
              Hall)
    as [Hrun [Hlen _]].
  eexists. split; [exact Hrun|]. split; [|exact Hlen].
  vm_compute. reflexivity.
Defined.

(** C2 as stated, for every list of ratios: with one entry and the ratios
    1.0 and 1.0 both destinations ask for one entry; the first gets it and
    [next] raises for the second. *)
Lemma splitter_ratios_counterexample :
  let dict : @Aggregator.Configs Toy.engine :=
    [(("k" : str), Toy.info [(1, 1)])] in
  Writer.slice_sizes
    (Writer.destinations [1%float; 1%float] [false; false]
       [("a" : str); ("b" : str)])
    (length dict) = Some [1; 1] /\
  @Writer.writer Toy.engine [1%float; 1%float] [false; false]
    (fun _ _ => []) (fun x => x) Toy.board_str dict
    [("a" : str); ("b" : str)]
  = ([[("k" : str) ++ Writer.newline]; []], Some Writer.StopIteration).
Proof. cbv zeta. split; vm_compute; reflexivity. Qed.

Lemma triplet_expansion_count_witness :
  let cur_data := Toy.info [(1, 3); (2, 3); (3, 1)] in
  exists writes,
    @Writer.entry_writes Toy.engine (fun _ _ => [4; 5]) (fun x => x)
      Toy.board_str true (("position" : str), cur_data) = Some writes /\
    count_occ ascii_dec (concat writes) (ascii_of_nat 10) = 4.
Proof.
  intros cur_data.
  destruct (@triplet_expansion_count Toy.engine (fun _ _ => [4; 5])
              (fun x => x) Toy.board_str "position" cur_data
              (fun H : [(1, 3); (2, 3); (3, 1)] = [] =>
                 eq_ind ((1, 3) :: [(2, 3); (3, 1)])
                        (fun l => match l with [] => False | _ => True end)
                        I [] H))
    as [mx [writes [Hmx [Hw [_ [_ [_ [_ Hlines]]]]]]]].
  exists writes. split; [exact Hw|].
  rewrite (Hlines toy_board_str_no_newline).
  vm_compute in Hmx. injection Hmx as <-. reflexivity.
Defined.

(** ** The scored child-position pipeline *)

Section SplitFacts.
Import Pipeline.
Context {A : Type}.

Lemma length_cumsum_from (acc : nat) (counts : list nat) :
  length (cumsum_from acc counts) = length counts.
Proof.
  revert acc. induction counts as [|c cs IH]; intros acc; simpl;
    [reflexivity | now rewrite IH].
Qed.

Lemma cumsum_removelast (counts : list nat) :
  forall acc, counts <> [] ->
  removelast (cumsum_from acc counts) ++ [acc + list_sum counts]
  = cumsum_from acc counts.
Proof.
  induction counts as [|c cs IH]; intros acc Hne; [congruence|].
  destruct cs as [|c' cs].
  - simpl. now rewrite Nat.add_0_r.
  - change (cumsum_from acc (c :: c' :: cs))
      with ((acc + c) :: cumsum_from (acc + c) (c' :: cs)).
    change (removelast ((acc + c) :: cumsum_from (acc + c) (c' :: cs)))
      with ((acc + c) :: removelast (cumsum_from (acc + c) (c' :: cs))).
    simpl app. f_equal.
    rewrite <- (IH (acc + c)) by discriminate.
    do 2 f_equal. simpl. lia.
Qed.

(** Slicing between consecutive cumulative counts is cutting pieces of
    those counts. *)
Lemma slices_at_cumsum (ary : list A) (counts : list nat) :
  forall acc,
  map (fun p => Py.slice ary (fst p) (snd p))
      (combine (acc :: cumsum_from acc counts) (cumsum_from acc counts))
  = Writer.cut counts (skipn acc ary).
Proof.
  induction counts as [|c cs IH]; intros acc; [reflexivity|].
  change (combine (acc :: cumsum_from acc (c :: cs))
                  (cumsum_from acc (c :: cs)))
    with ((acc, acc + c)
          :: combine ((acc + c) :: cumsum_from (acc + c) cs)
                     (cumsum_from (acc + c) cs)).
  cbn [map fst snd Writer.cut].
  rewrite IH, skipn_skipn. unfold Py.slice.
  f_equal; [f_equal; lia | do 2 f_equal; lia].
Qed.

Lemma np_split_matched (ary : list A) (counts : list nat) :
  counts <> [] ->
  length ary = list_sum counts ->
  np_split ary (removelast (cumsum counts)) = Writer.cut counts ary.
Proof.
  intros Hne Hlen. unfold np_split, cumsum. cbv zeta. simpl tl.
  rewrite Hlen.
  change (list_sum counts) with (0 + list_sum counts).
  rewrite cumsum_removelast by exact Hne.
  now rewrite slices_at_cumsum.
Qed.

Lemma length_np_split (ary : list A) (indices : list nat) :
  length (np_split ary indices) = S (length indices).
Proof.
  unfold np_split. cbv zeta. cbn [tl].
  rewrite length_map, length_combine. cbn [length].
  rewrite length_app. cbn [length]. lia.
Qed.

Lemma length_np_split_cumsum (ary : list A) (counts : list nat) :
  counts <> [] ->
  length (np_split ary (removelast (cumsum counts))) = length counts.
Proof.
  intros Hne. rewrite length_np_split. unfold cumsum.
  assert (H := f_equal (@length nat) (cumsum_removelast counts 0 Hne)).
  rewrite length_app, length_cumsum_from in H. simpl in H. lia.
Qed.

Lemma length_mapM {B : Type} (f : A -> option B) (l : list A) :
  forall r, mapM f l = Some r -> length r = length l.
Proof.
  induction l as [|x l IH]; intros r Hr; simpl in Hr.
  - injection Hr as <-. reflexivity.
  - destruct (f x); [|discriminate]. destruct (mapM f l); [|discriminate].
    injection Hr as <-. simpl. now rewrite (IH l0).
Qed.

End SplitFacts.

Section PipelineFacts.
Context `{N : NumbaBoard}.
Variable node_batch_eval_fn : list BoardState -> list Score.
Variable line_to_fen_fn : str -> str.

Import Pipeline.

Lemma mapM_examples (F : list str) :
  forall (M : list (list nat)) (R : list (list Score)),
    Forall (fun s => encode_board s <> None) F ->
    length M = length F -> length R = length F ->
    exists exs,
      mapM (fun t => create_serialized_example
                       (fst (fst t)) (snd (fst t)) (snd t))
           (combine (combine F M) R) = Some exs /\
      length exs = length F /\
      map ex_moves exs = M /\
      map move_scores exs = map (map float_list_value) R.
Proof.
  induction F as [|s F IH]; intros M R Hall HM HR.
  - destruct M; [|discriminate]. destruct R; [|discriminate].
    exists []. repeat split.
  - destruct M as [|m M]; [discriminate|].
    destruct R as [|r R]; [discriminate|].
    inversion Hall as [|? ? Hs HF]; subst.
    destruct (IH M R HF) as [exs [Hexs [Hlen [Hm Hr]]]];
      [simpl in HM; lia | simpl in HR; lia |].
    simpl. unfold create_serialized_example at 1.
    destruct (encode_board s) as [b|]; [|congruence].
    rewrite Hexs. eexists. split; [reflexivity|].
    simpl. now rewrite Hlen, Hm, Hr.
Qed.

Lemma length_children_of (boards : list BoardState) :
  length (children_of boards)
  = list_sum (map (fun b => length (generate_legal_moves b)) boards).
Proof.
  unfold children_of. rewrite length_concat, map_map. f_equal.
  apply map_ext. intros b. apply length_map.
Qed.

(** C5 (as amended): a batch of lines whose FENs canonicalize and whose
    boards render in the board alphabet gives one example for each line,
    whatever the evaluator returns: the moves of an example are as many as
    the legal moves of its line and its scores are the piece [np.split]
    cuts from the returned sequence at the cumulative counts, each score
    kept as the 32-bit float [tf.train.FloatList] makes of it.  When the
    evaluator returns as many scores as children were submitted, the
    scores of each line are as many as its legal moves, in line order, and
    together they are the returned sequence, score by score as such
    32-bit floats. *)
Theorem scores_split_by_line (lines fens : list str) :
  lines <> [] ->
  mapM Canonicalizer.make_fen_white (map line_to_fen_fn lines) = Some fens ->
  (forall b, encode_board (database_board_representation b) <> None) ->
  let boards := map create_board_state_from_fen fens in
  let counts := map (fun b => length (generate_legal_moves b)) boards in
  let children := children_of boards in
  let scores := node_batch_eval_fn children in
  exists examples,
    lines_to_serialized_example node_batch_eval_fn line_to_fen_fn lines
    = Some examples /\
    length examples = length lines /\
    length children = list_sum counts /\
    map (fun ex => length (ex_moves ex)) examples = counts /\
    map move_scores examples
    = map (map float_list_value)
          (np_split scores (removelast (cumsum counts))) /\
    (length scores = length children ->
     map (fun ex => length (move_scores ex)) examples = counts /\
     concat (map move_scores examples) = map float_list_value scores).
Proof.
  intros Hne Hfens Henc boards counts children scores.
  assert (Hlen : length fens = length lines)
    by (rewrite (length_mapM _ _ _ Hfens); apply length_map).
  assert (Hcounts : counts <> []).
  { subst counts boards. destruct fens; [|discriminate].
    destruct lines; [congruence | discriminate Hlen]. }
  assert (Hk : length counts = length lines)
    by (subst counts boards; now rewrite !length_map).
  assert (Hmoves : map (@length _) (map generate_legal_moves boards) = counts)
    by (subst counts; now rewrite map_map).
  unfold lines_to_serialized_example.
  destruct lines as [|line lines]; [congruence|].
  rewrite Hfens. cbv zeta. fold boards. rewrite Hmoves.
  fold children. fold scores.
  destruct (mapM_examples
              (map database_board_representation boards)
              (np_split (map move_to_str_dict
                           (concat (map generate_legal_moves boards)))
                        (removelast (cumsum counts)))
              (np_split scores (removelast (cumsum counts))))
    as [exs [Hexs [Hl [Hm Hr]]]].
  - apply Forall_forall. intros s Hs.
    apply in_map_iff in Hs as [b [<- _]]. apply Henc.
  - rewrite length_np_split_cumsum by exact Hcounts.
    rewrite length_map. subst counts. now rewrite length_map.
  - rewrite length_np_split_cumsum by exact Hcounts.
    rewrite length_map. subst counts. now rewrite length_map.
  - exists exs. split; [exact Hexs|].
    assert (Hchildren : length children = list_sum counts)
      by apply length_children_of.
    split; [rewrite Hl, length_map; subst boards;
            now rewrite length_map, Hlen|].
    split; [exact Hchildren|].
    split; [|split; [exact Hr|]].
    + rewrite <- (map_map ex_moves (@length _)), Hm.
      rewrite np_split_matched; [apply cut_lengths| exact Hcounts |];
        rewrite length_map, length_concat, Hmoves; reflexivity.
    + intros Hmatch.
      rewrite <- (map_map move_scores (@length _)), Hr.
      rewrite <- concat_map, map_map.
      rewrite (map_ext _ _ (length_map float_list_value)).
      rewrite np_split_matched by (exact Hcounts || congruence).
      split; [apply cut_lengths; lia|].
      rewrite cut_concat, <- Hchildren, <- Hmatch. now rewrite firstn_all.
Qed.

Lemma submit_loop_short (file : list str) :
  forall index lines futures,
    index + length file <= batch_size ->
    submit_loop index lines futures file = (futures, lines ++ file).
Proof.
  induction file as [|line file IH]; intros index lines futures Hlen.
  - simpl. now rewrite app_nil_r.
  - simpl in Hlen. cbn [submit_loop].
    replace ((index mod batch_size =? 0) && negb (index =? 0)) with false.
    + rewrite IH by lia. now rewrite <- app_assoc.
    + symmetry. destruct (Nat.eqb_spec index 0) as [->|Hpos];
        [apply andb_false_r|].
      rewrite Nat.mod_small by lia.
      apply andb_false_intro1. now apply Nat.eqb_neq.
Qed.

(** C6 at the files the loop loses whole: a file of at most 200 lines
    submits no batch, holds every line when the loop ends and the run
    writes no record at all. *)
Theorem short_file_writes_nothing (file : list str) :
  length file <= 200 ->
  submitted file = [] /\
  never_submitted file = file /\
  forall written,
    tf_records_written node_batch_eval_fn line_to_fen_fn file written
    <-> written = [].
Proof.
  intros Hlen. unfold submitted, never_submitted.
  rewrite (submit_loop_short file 0 [] [] Hlen). simpl.
  repeat split.
  - intros [results [completed [Hres [Hperm ->]]]].
    unfold submitted in Hres.
    rewrite (submit_loop_short file 0 [] [] Hlen) in Hres.
    simpl in Hres. injection Hres as <-.
    apply Permutation_nil in Hperm. now subst.
  - intros ->. exists [], []. unfold submitted.
    rewrite (submit_loop_short file 0 [] [] Hlen). simpl.
    repeat split. constructor.
Qed.

End PipelineFacts.

Lemma scores_split_by_line_witness :
  let lines := Toy.three_lines in
  exists examples,
    @Pipeline.lines_to_serialized_example Toy.numba
      (map (fun child => 2 * child)) (fun x => x) lines = Some examples /\
    map (fun ex => length (Pipeline.move_scores ex)) examples = [3; 0; 2] /\
    concat (map Pipeline.move_scores examples)
    = [60; 62; 64; 40; 42]%float.
Proof.
  intros lines.
  destruct (@scores_split_by_line Toy.numba
              (map (fun child => 2 * child)) (fun x => x) lines lines
              (fun H : lines = [] =>
                 eq_ind lines
                        (fun l => match l with [] => False | _ => True end)
                        I [] H)
              eq_refl
              (fun b (H : Pipeline.encode_board (repeat "1"%char 64) = None) =>
                 eq_ind (Pipeline.encode_board (repeat "1"%char 64))
                        (fun o => match o with None => False | _ => True end)
                        I None H))
    as [examples [Hrun [_ [_ [_ [_ Hmatch]]]]]].
  destruct (Hmatch eq_refl) as [Hlens Hall].
  exists examples. split; [exact Hrun|]. split; [exact Hlens|].
  rewrite Hall. vm_compute. reflexivity.
Defined.

(** C5 as stated, for an evaluator that returns too few scores: five
    children are submitted for the legal-move counts 3, 0, 2, four scores
    come back, and the batch still returns its three examples, the last
    with one score for its two moves. *)
Lemma score_count_mismatch_counterexample :
  let lines := Toy.three_lines in
  let evaluator : list nat -> list nat := fun children =>
    removelast (map (fun child => 2 * child) children) in
  let children :=
    @Pipeline.children_of Toy.numba
      (map create_board_state_from_fen lines) in
  length children = 5 /\
  length (evaluator children) = 4 /\
  exists examples,
    @Pipeline.lines_to_serialized_example Toy.numba evaluator (fun x => x)
      lines = Some examples /\
    map (fun ex => length (Pipeline.ex_moves ex)) examples = [3; 0; 2] /\
    map Pipeline.move_scores examples
    = [[60; 62; 64]; []; [40]]%float.
Proof.
  cbv zeta. split; [vm_compute; reflexivity|].
  split; [vm_compute; reflexivity|].
  eexists. split; [vm_compute; reflexivity|].
  split; vm_compute; reflexivity.
Qed.

(** What the 32-bit float keeps of a score: 16777217 is stored as
    16777216, a tenth as the 32-bit float nearest to it, and a half as it
    is. *)
Example float32_of_double_rounds :
  Float32.of_double 16777217 = 16777216%float /\
  Float32.of_double 0x1.999999999999ap-4 = 0x1.99999ap-4%float /\
  Float32.of_double 0.5 = 0.5%float /\
  @float_list_value Toy.numba 62 = 62%float.
Proof. repeat split; vm_compute; reflexivity. Qed.

Lemma short_file_writes_nothing_witness :
  let file := Toy.three_lines in
  Pipeline.submitted file = [] /\
  Pipeline.never_submitted file = file /\
  forall written,
    @Pipeline.tf_records_written Toy.numba
      (map (fun child => 2 * child)) (fun x => x) file written
    <-> written = [].
Proof.
  intros file.
  apply (@short_file_writes_nothing Toy.numba
           (map (fun child => 2 * child)) (fun x => x) file).
  apply Nat.leb_le. reflexivity.
Defined.

(** The loop on a file of 300 lines: one batch of the first 201 lines is
    submitted and the other 99 lines are held to the end. *)
Example submit_loop_300 :
  let file := map (fun i => [ascii_of_nat i]) (seq 0 300) in
  Pipeline.submitted file = [firstn 201 file] /\
  Pipeline.never_submitted file = skipn 201 file.
Proof. cbv zeta. split; vm_compute; reflexivity. Qed.

(** * Further properties of the code *)

(** ** BoardInfo and the aggregated mapping *)

Section DictMore.
Context {K V : Type} (eqb : K -> K -> bool).
Hypothesis eqb_eq : forall a b, eqb a b = true <-> a = b.

Lemma forall_values_set (P : V -> Prop) (d : list (K * V)) (k : K) (v : V) :
  Forall (fun kv => P (snd kv)) d -> P v ->
  Forall (fun kv => P (snd kv)) (Dict.set eqb d k v).
Proof.
  intros Hd Hv. induction Hd as [|[k0 v0] d H0 Hd IH]; simpl.
  - now repeat constructor.
  - destruct (eqb k0 k); constructor; assumption.
Qed.

Lemma forall_values_get (P : V -> Prop) (d : list (K * V)) (k : K) (v : V) :
  Forall (fun kv => P (snd kv)) d -> Dict.get eqb d k = Some v -> P v.
Proof.
  intros Hd. induction Hd as [|[k0 v0] d H0 Hd IH]; simpl; [discriminate|].
  destruct (eqb k0 k); [|exact IH]. intros Heq. injection Heq as <-.
  exact H0.
Qed.

Lemma nodup_keys_filter (p : K * V -> bool) (d : list (K * V)) :
  NoDup (map fst d) -> NoDup (map fst (filter p d)).
Proof.
  induction d as [|kv d IH]; simpl; intros Hd; [constructor|].
  inversion Hd as [|? ? Hkv Hd']; subst.
  destruct (p kv); simpl; [|now apply IH].
  constructor; [|now apply IH].
  intros Hin. apply Hkv. apply in_map_iff in Hin as [kv' [Hf Hin]].
  apply filter_In in Hin as [Hin _]. apply in_map_iff. now exists kv'.
Qed.

Lemma del_all_filter (ks : list K) (d : list (K * V)) :
  fold_left (Dict.del eqb) ks d
  = filter (fun kv => negb (existsb (fun k0 => eqb (fst kv) k0) ks)) d.
Proof.
  revert d. induction ks as [|k ks IH]; intros d; simpl.
  - symmetry. apply forallb_filter_id. now apply forallb_forall.
  - rewrite IH. unfold Dict.del. induction d as [|kv d IHd]; simpl;
      [reflexivity|].
    destruct (eqb (fst kv) k); simpl; [exact IHd|].
    destruct (existsb _ ks); simpl; [exact IHd | now rewrite IHd].
Qed.

End DictMore.

Section AggregatorInvariants.
Context `{E : RulesEngine}.
Variable pre : list (Board -> Move -> bool).
Variable post : list (str -> Aggregator.BoardInfo -> bool).
Variable sw : bool.
Variable stored : list nat.

Import Aggregator Sound.

(** X1: [update] adds one to the count of the move, 1 for a move not yet
    held, and leaves every other count as it is; a held move keeps its
    place in the dictionary and a new one goes to the end. *)
Theorem board_info_update_lookup (info : BoardInfo) (move other : Move) :
  Dict.get move_eqb (moves (update info move)) other
  = (if move_eqb move other
     then Some (held (Dict.get move_eqb (moves info) move) + 1)
     else Dict.get move_eqb (moves info) other) /\
  map fst (moves (update info move))
  = (match Dict.get move_eqb (moves info) move with
     | Some _ => map fst (moves info)
     | None => map fst (moves info) ++ [move]
     end) /\
  moves (new_BoardInfo move) = [(move, 1)].
Proof.
  split; [|split; [|reflexivity]]; unfold update;
    destruct (Dict.get move_eqb (moves info) move) as [c|] eqn:Eg; simpl.
  - rewrite (get_set move_eqb move_eqb_eq). reflexivity.
  - rewrite (get_set move_eqb move_eqb_eq). reflexivity.
  - rewrite (keys_set move_eqb). now rewrite Eg.
  - rewrite (keys_set move_eqb). now rewrite Eg.
Qed.

Lemma sound_new (move : Move) : sound_info (new_BoardInfo move).
Proof.
  repeat split; simpl; try discriminate.
  - constructor; [intros [] | constructor].
  - repeat constructor.
Qed.

Lemma sound_update (info : BoardInfo) (move : Move) :
  sound_info info -> sound_info (update info move).
Proof.
  intros [Hne [Hnd Hpos]]. unfold update.
  destruct (Dict.get move_eqb (moves info) move) as [c|] eqn:Eg;
    (split; [|split]); simpl.
  - destruct (moves info) as [|[m0 c0] ms]; [congruence|]. simpl.
    destruct (move_eqb m0 move); discriminate.
  - now apply (nodup_set move_eqb move_eqb_eq).
  - apply (forall_values_set move_eqb (fun c => 1 <= c)); [exact Hpos | lia].
  - destruct (moves info) as [|[m0 c0] ms]; [congruence|]. simpl.
    destruct (move_eqb m0 move); discriminate.
  - now apply (nodup_set move_eqb move_eqb_eq).
  - apply (forall_values_set move_eqb (fun c => 1 <= c)); [exact Hpos | lia].
Qed.

Lemma sound_record (c : Configs) (k : str) (m : Move) :
  sound_corpus c -> sound_corpus (record c k m).
Proof.
  intros [Hnd Hall]. unfold record.
  destruct (Dict.get Py.str_eqb c k) as [info|] eqn:Ek; split.
  - now apply (nodup_set Py.str_eqb str_eqb_eq).
  - apply (forall_values_set Py.str_eqb sound_info); [exact Hall|].
    apply sound_update.
    exact (forall_values_get Py.str_eqb sound_info c k info Hall Ek).
  - now apply (nodup_set Py.str_eqb str_eqb_eq).
  - apply (forall_values_set Py.str_eqb sound_info); [exact Hall|].
    apply sound_new.
Qed.

Lemma sound_record_all (l : list (str * Move)) (c : Configs) :
  sound_corpus c -> sound_corpus (record_all c l).
Proof.
  revert c. induction l as [|[k m] l IH]; intros c Hc; [exact Hc|].
  unfold record_all in *. simpl. apply IH. now apply sound_record.
Qed.

Lemma sound_post_filters (c : Configs) :
  sound_corpus c -> sound_corpus (apply_post_filters post c).
Proof.
  intros [Hnd Hall]. unfold apply_post_filters.
  rewrite (del_all_filter Py.str_eqb). split.
  - now apply nodup_keys_filter.
  - apply Forall_forall. intros item Hin. apply filter_In in Hin as [Hin _].
    revert item Hin. now apply Forall_forall.
Qed.

Lemma collected_is_record_all (files : list (list (list Move)))
    (collected : Configs) (b : Board) :
  read_files pre sw stored [] new_board files = Some (collected, b) ->
  exists l,
    keyed sw stored
      (filter (saved pre) (flat_map (plies new_board) (concat files)))
    = Some l /\
    collected = record_all [] l.
Proof.
  rewrite read_files_keyed.
  destruct (keyed sw stored _) as [l|]; [|discriminate].
  intros Heq. injection Heq as <- _. now exists l.
Qed.

(** X2: in every corpus [create_database_from_pgn] hands to the writer no
    key stands twice, and every [BoardInfo] holds at least one move, no
    move twice and only counts of at least 1. *)
Theorem corpus_is_sound (files : list (list (list Move))) (final : Configs) :
  create_database_from_pgn pre post sw stored files = Some final ->
  NoDup (map fst final) /\
  Forall (fun item =>
            moves (snd item) <> [] /\
            NoDup (map fst (moves (snd item))) /\
            Forall (fun mc => 1 <= snd mc) (moves (snd item)))
         final.
Proof.
  unfold create_database_from_pgn.
  destruct (read_files pre sw stored [] new_board files) as [[c b]|] eqn:Er;
    [|discriminate].
  intros Heq. injection Heq as <-.
  destruct (collected_is_record_all files c b Er) as [l [_ ->]].
  apply sound_post_filters, sound_record_all.
  split; constructor.
Qed.

(** X3: the keys of the collected mapping stand in the order in which the
    games first show them: the keys of the plies the pre-filters let
    through, each at its first occurrence. *)
Theorem corpus_order_is_first_observation
    (files : list (list (list Move))) (collected : Configs) (b : Board) :
  read_files pre sw stored [] new_board files = Some (collected, b) ->
  exists l,
    keyed sw stored
      (filter (saved pre) (flat_map (plies new_board) (concat files)))
    = Some l /\
    map fst collected
    = rev (nodup (list_eq_dec ascii_dec) (rev (map fst l))).
Proof.
  intros Hr. destruct (collected_is_record_all files collected b Hr)
    as [l [Hl ->]].
  exists l. split; [exact Hl|]. clear Hl Hr.
  induction l as [|[k m] l IH] using rev_ind; [reflexivity|].
  unfold record_all in *. rewrite fold_left_app. cbn [fold_left fst snd].
  rewrite map_app, rev_app_distr. cbn [map rev app fst].
  set (c := fold_left (fun c km => record c (fst km) (snd km)) l []) in *.
  assert (Hkeys : map fst (record c k m)
                  = match Dict.get Py.str_eqb c k with
                    | Some _ => map fst c
                    | None => map fst c ++ [k]
                    end).
  { unfold record. destruct (Dict.get Py.str_eqb c k) eqn:Ek;
      rewrite (keys_set Py.str_eqb), Ek; reflexivity. }
  rewrite Hkeys. cbn [nodup].
  destruct (in_dec (list_eq_dec ascii_dec) k (rev (map fst l))) as [Hin|Hn].
  - destruct (Dict.get Py.str_eqb c k) eqn:Ek; [exact IH|].
    exfalso. apply (get_none_keys Py.str_eqb str_eqb_eq) in Ek.
    apply Ek. rewrite IH. apply -> in_rev. apply nodup_In.
    exact Hin.
  - destruct (Dict.get Py.str_eqb c k) eqn:Ek.
    + exfalso. apply Hn.
      assert (Hk : In k (map fst c)).
      { destruct (in_dec (list_eq_dec ascii_dec) k (map fst c)) as [H|H];
          [exact H|].
        apply (get_none_keys Py.str_eqb str_eqb_eq) in H. congruence. }
      rewrite IH in Hk. apply in_rev in Hk.
      now apply nodup_In in Hk.
    + simpl. now rewrite IH.
Qed.

(** X4: the post-filters only delete: what is handed to the writer is the
    collected mapping without the entries some post-filter answers true
    for, the others unchanged and in their order. *)
Theorem post_filters_only_delete (files : list (list (list Move)))
    (final : Configs) :
  create_database_from_pgn pre post sw stored files = Some final ->
  exists collected b,
    read_files pre sw stored [] new_board files = Some (collected, b) /\
    final
    = filter (fun item =>
                negb (existsb (fun f => f (fst item) (snd item)) post))
             collected.
Proof.
  unfold create_database_from_pgn.
  destruct (read_files pre sw stored [] new_board files) as [[c b]|] eqn:Er;
    [|discriminate].
  intros Heq. injection Heq as <-. exists c, b. split; [reflexivity|].
  destruct (collected_is_record_all files c b Er) as [l [_ Hc]].
  assert (Hnd : NoDup (map fst c))
    by (rewrite Hc; apply nodup_record_all; constructor).
  unfold apply_post_filters. rewrite (del_all_filter Py.str_eqb).
  apply filter_ext_in. intros [k d] Hin. simpl. f_equal.
  destruct (existsb (fun f => f k d) post) eqn:Ev.
  - apply existsb_exists. exists k. split; [|now apply str_eqb_eq].
    unfold to_delete. apply in_map_iff. exists (k, d). split; [reflexivity|].
    apply filter_In. split; [exact Hin | exact Ev].
  - destruct (existsb (fun k0 => Py.str_eqb k k0) (to_delete post c)) eqn:Ex;
      [|reflexivity].
    apply existsb_exists in Ex as [k0 [Hk0 Heq]].
    apply str_eqb_eq in Heq. subst k0.
    unfold to_delete in Hk0. apply in_map_iff in Hk0 as [[k1 d1] [Hf Hin1]].
    simpl in Hf. subst k1. apply filter_In in Hin1 as [Hin1 Hv1].
    simpl in Hv1.
    apply (get_in Py.str_eqb str_eqb_eq _ _ _ Hnd) in Hin.
    apply (get_in Py.str_eqb str_eqb_eq _ _ _ Hnd) in Hin1.
    rewrite Hin in Hin1. injection Hin1 as <-.
    rewrite Ev in Hv1. discriminate Hv1.
Qed.

End AggregatorInvariants.

Lemma corpus_is_sound_witness :
  exists final,
    @Aggregator.create_database_from_pgn Toy.engine
      [Toy.leq_n_moves_made 0] [Filters.n_man_filter_creator 2] true
      [0; 2; 3] [[[1; 2; 3]; [1; 2]]; [[4; 2; 5]]] = Some final /\
    NoDup (map fst final) /\
    Forall (fun item => Aggregator.moves (snd item) <> []) final.
Proof.
  eexists. split; [reflexivity|].
  destruct (@corpus_is_sound Toy.engine
              [Toy.leq_n_moves_made 0] [Filters.n_man_filter_creator 2] true
              [0; 2; 3] [[[1; 2; 3]; [1; 2]]; [[4; 2; 5]]] _ eq_refl)
    as [Hnd Hall].
  split; [exact Hnd|].
  eapply Forall_impl; [|exact Hall]. intros item [Hne _]. exact Hne.
Defined.

Lemma corpus_order_is_first_observation_witness :
  exists (collected : @Aggregator.Configs Toy.engine)
         (l : list (str * nat)),
    @Aggregator.read_files Toy.engine [Toy.leq_n_moves_made 0] true
      [0; 2; 3] [] [] [[[1; 2; 3]; [1; 2]]; [[4; 2; 5]]]
    = Some (collected, []) /\
    map fst collected
    = rev (nodup (list_eq_dec ascii_dec) (rev (map fst l))) /\
    length l = 5 /\ length collected = 3.
Proof.
  destruct (@corpus_order_is_first_observation Toy.engine
              [Toy.leq_n_moves_made 0] true [0; 2; 3]
              [[[1; 2; 3]; [1; 2]]; [[4; 2; 5]]] _ [] eq_refl)
    as [l [Hl Horder]].
  eexists. exists l. split; [reflexivity|]. split; [exact Horder|].
  vm_compute in Hl. injection Hl as <-. split; reflexivity.
Defined.

Lemma post_filters_only_delete_witness :
  exists final collected,
    @Aggregator.create_database_from_pgn Toy.engine
      [Toy.leq_n_moves_made 0] [fun key _ => Py.char_in "r" key] true
      [0; 2; 3] [[[1; 2; 3]; [1; 2]]; [[4; 2; 5]]] = Some final /\
    final
    = filter (fun item => negb (Py.char_in "r" (fst item))) collected /\
    length collected = 3 /\ length final = 2.
Proof.
  eexists.
  destruct (@post_filters_only_delete Toy.engine
              [Toy.leq_n_moves_made 0] [fun key _ => Py.char_in "r" key] true
              [0; 2; 3] [[[1; 2; 3]; [1; 2]]; [[4; 2; 5]]] _ eq_refl)
    as [collected [b [Hr Hfinal]]].
  exists collected. split; [reflexivity|].
  vm_compute in Hr. injection Hr as <- <-.
  split; [|split; reflexivity].
  rewrite Hfinal. apply filter_ext. intros item. simpl.
  now rewrite orb_false_r.
Defined.

(** ** Keys, FENs and their fields *)

Section WordFacts.
Import Py Creator.

Lemma split_ws_word_then (w : str) (sp : ascii) (s : str) :
  word w -> is_space sp = true ->
  split_ws (w ++ sp :: s) = w :: split_ws s.
Proof.
  intros [Hne Hw] Hsp. induction w as [|c w IH]; [congruence|].
  inversion Hw as [|? ? Hc Hw']; subst.
  destruct w as [|d w].
  - simpl. now rewrite Hc, Hsp.
  - change (split_ws ((c :: d :: w) ++ sp :: s))
      with (if is_space c then split_ws ((d :: w) ++ sp :: s)
            else if is_space d then [c] :: split_ws ((d :: w) ++ sp :: s)
                 else match split_ws ((d :: w) ++ sp :: s) with
                      | [] => [[c]]
                      | x :: xs => (c :: x) :: xs
                      end).
    inversion Hw' as [|? ? Hd _]; subst. rewrite Hc, Hd.
    rewrite IH by (discriminate || assumption). reflexivity.
Qed.

Lemma split_ws_word (w : str) : word w -> split_ws w = [w].
Proof.
  intros [Hne Hw]. induction w as [|c w IH]; [congruence|].
  inversion Hw as [|? ? Hc Hw']; subst.
  destruct w as [|d w].
  - simpl. now rewrite Hc.
  - change (split_ws (c :: d :: w))
      with (if is_space c then split_ws (d :: w)
            else if is_space d then [c] :: split_ws (d :: w)
                 else match split_ws (d :: w) with
                      | [] => [[c]]
                      | x :: xs => (c :: x) :: xs
                      end).
    inversion Hw' as [|? ? Hd _]; subst. rewrite Hc, Hd.
    rewrite IH by (discriminate || assumption). reflexivity.
Qed.

Lemma split_ws_join (l : list str) :
  Forall word l -> split_ws (join " " l) = l.
Proof.
  induction 1 as [|w l Hw Hl IH]; [reflexivity|].
  destruct l as [|v l].
  - simpl. now apply split_ws_word.
  - rewrite join_cons_cons.
    change (w ++ list_ascii_of_string " " ++ join " " (v :: l))
      with (w ++ " "%char :: join " " (v :: l)).
    rewrite split_ws_word_then by (assumption || reflexivity).
    now rewrite IH.
Qed.

Lemma split_ws_words (s : str) : Forall word (split_ws s).
Proof.
  induction s as [|c s IH]; [constructor|].
  destruct s as [|d s].
  - simpl. destruct (is_space c) eqn:Hc; [constructor|].
    repeat constructor; [discriminate | exact Hc].
  - change (split_ws (c :: d :: s))
      with (if is_space c then split_ws (d :: s)
            else if is_space d then [c] :: split_ws (d :: s)
                 else match split_ws (d :: s) with
                      | [] => [[c]]
                      | x :: xs => (c :: x) :: xs
                      end).
    destruct (is_space c) eqn:Hc; [exact IH|].
    destruct (is_space d) eqn:Hd.
    + constructor; [|exact IH]. split; [discriminate|].
      repeat constructor. exact Hc.
    + destruct (split_ws (d :: s)) as [|x xs].
      * repeat constructor; [discriminate | exact Hc].
      * inversion IH as [|? ? [Hx Hxs] Hrest]; subst.
        constructor; [|exact Hrest]. split; [discriminate|].
        now constructor.
Qed.

Lemma join_app_pieces (sep : str) (l l' : list str) :
  l <> [] -> l' <> [] ->
  join sep (l ++ l') = join sep l ++ sep ++ join sep l'.
Proof.
  intros Hl Hl'. induction l as [|p l IH]; [congruence|].
  destruct l as [|q l].
  - simpl. destruct l'; [congruence | reflexivity].
  - change (join sep ((p :: q :: l) ++ l'))
      with (p ++ sep ++ join sep ((q :: l) ++ l')).
    rewrite IH by discriminate. rewrite join_cons_cons.
    now rewrite <- !app_assoc.
Qed.

Lemma in_join (sep : str) (l : list str) (c : ascii) :
  In c (join sep l) -> In c sep \/ exists p, In p l /\ In c p.
Proof.
  induction l as [|p l IH]; [intros []|].
  destruct l as [|q l].
  - simpl. intros H. right. exists p. split; [now left | exact H].
  - rewrite join_cons_cons. intros H.
    apply in_app_or in H as [H|H];
      [right; exists p; split; [now left | exact H]|].
    apply in_app_or in H as [H|H]; [now left|].
    destruct (IH H) as [Hs|[p' [Hp' Hc]]]; [now left|].
    right. exists p'. split; [now right | exact Hc].
Qed.

Lemma in_split_on (sep : ascii) (s p : str) (c : ascii) :
  In p (split_on sep s) -> In c p -> In c s.
Proof.
  revert p. induction s as [|a s IH]; intros p Hp Hc.
  - simpl in Hp. destruct Hp as [<-|[]]. exact Hc.
  - simpl in Hp. destruct (Ascii.eqb a sep).
    + destruct Hp as [<-|Hp]; [destruct Hc|]. right. now apply (IH p).
    + destruct (split_on sep s) as [|w ws] eqn:Es.
      * destruct Hp as [<-|[]]. destruct Hc as [<-|[]]. now left.
      * destruct Hp as [<-|Hp].
        -- destruct Hc as [<-|Hc]; [now left|]. right.
           apply (IH w); [now left | exact Hc].
        -- right. apply (IH p); [now right | exact Hc].
Qed.

Lemma swapcase_char_space (c : ascii) :
  is_space (swapcase_char c) = is_space c.
Proof. destruct c as [[] [] [] [] [] [] [] []]; reflexivity. Qed.

End WordFacts.

Section KeyFacts.
Import Py Creator Canonicalizer.

Lemma clean_field_word (f : str) :
  clean_field f = true -> word f /\ ~ In ","%char f.
Proof.
  unfold clean_field. intros H. apply andb_prop in H as [Hne Hall].
  rewrite forallb_forall in Hall. repeat split.
  - intros ->. discriminate Hne.
  - apply Forall_forall. intros c Hc. specialize (Hall c Hc).
    apply andb_prop in Hall as [Hs _]. now destruct (is_space c).
  - intros Hin. specialize (Hall _ Hin).
    apply andb_prop in Hall as [_ Hcomma]. discriminate Hcomma.
Qed.

Lemma current_line_to_fen_split (first : str) (others : list str) :
  Forall (fun f => word f /\ ~ In ","%char f) (first :: others) ->
  split_ws (current_line_to_fen (join "," (first :: others)))
  = first :: ("w" : str) :: others ++ [("0" : str); ("1" : str)].
Proof.
  intros Hfields. unfold current_line_to_fen.
  change (join (list_ascii_of_string ",") (first :: others))
    with (join [","%char] (first :: others)).
  rewrite (split_on_join ","%char (first :: others));
    [|discriminate
     |eapply Forall_impl; [|exact Hfields]; now intros f [_ Hc]].
  change (list_ascii_of_string " 0 1")
    with (list_ascii_of_string " "
          ++ join " " [("0" : str); ("1" : str)]).
  rewrite <- (join_app_pieces " " (first :: ("w" : str) :: others)
                [("0" : str); ("1" : str)]) by discriminate.
  apply split_ws_join.
  inversion Hfields as [|? ? [Hw _] Hothers]; subst.
  constructor; [exact Hw|]. constructor;
    [split; [discriminate | repeat constructor]|].
  apply Forall_app. split.
  - eapply Forall_impl; [|exact Hothers]. now intros f [Hf _].
  - repeat constructor; discriminate.
Qed.

(** X5: a key of ASCII characters, of comma-joined fields that are not
    empty and hold neither comma nor white space, becomes, through
    [current_line_to_fen], a FEN whose fields are the first field, [w],
    the other fields, [0] and [1]; [make_fen_white] returns that FEN as
    it is. *)
Theorem current_line_to_fen_fields (first : str) (others : list str) :
  ascii_text (join "," (first :: others)) = true ->
  forallb clean_field (first :: others) = true ->
  let fen := current_line_to_fen (join "," (first :: others)) in
  split_ws fen = first :: ("w" : str) :: others ++ [("0" : str); ("1" : str)]
  /\ make_fen_white fen = Some fen.
Proof.
  intros _ Hclean fen.
  assert (Hsplit : split_ws fen
                   = first :: ("w" : str) :: others
                     ++ [("0" : str); ("1" : str)]).
  { apply current_line_to_fen_split.
    apply Forall_forall. intros f Hf. apply clean_field_word.
    rewrite forallb_forall in Hclean. now apply Hclean. }
  split; [exact Hsplit|].
  unfold make_fen_white. rewrite Hsplit. reflexivity.
Qed.

Lemma current_line_to_fen_fields_witness :
  let fen :=
    current_line_to_fen "2r3k1/pr3pp1/2n3b1/P1PR2Pp/4PB2/1N2QP1q/7P/1R4K1,-,-"
  in
  split_ws fen
  = map list_ascii_of_string
      ["2r3k1/pr3pp1/2n3b1/P1PR2Pp/4PB2/1N2QP1q/7P/1R4K1"; "w"; "-"; "-";
       "0"; "1"]%string /\
  make_fen_white fen = Some fen.
Proof.
  apply (current_line_to_fen_fields
           "2r3k1/pr3pp1/2n3b1/P1PR2Pp/4PB2/1N2QP1q/7P/1R4K1"
           [("-" : str); ("-" : str)]).
  - reflexivity.
  - reflexivity.
Defined.

Lemma mirror_fields_words (placement side rights ep : str)
    (rest out : list str) :
  Forall word (placement :: side :: rights :: ep :: rest) ->
  wf_ep ep = true ->
  mirror_fields (placement :: side :: rights :: ep :: rest) = Some out ->
  Forall (fun c => is_space c = false) (join "," out) /\ join "," out <> [].
Proof.
  intros Hw Hep Hout. unfold mirror_fields in Hout.
  destruct (mirror_ep_rank ep Hep) as [ep' [Hm [Hdash Hrank]]].
  rewrite Hm in Hout. injection Hout as <-.
  inversion Hw as [|? ? [_ Hp] Hw1]; subst.
  inversion Hw1 as [|? ? _ Hw2]; subst.
  inversion Hw2 as [|? ? _ Hw3]; subst.
  inversion Hw3 as [|? ? [_ Hepw] Hrest]; subst.
  split.
  - apply Forall_forall. intros c Hc.
    apply in_join in Hc as [Hc|[p [Hp' Hc]]].
    + destruct Hc as [<-|[]]. reflexivity.
    + destruct Hp' as [<-|[<-|[<-|[<-|Hp']]]].
      * unfold mirror_placement in Hc.
        apply in_join in Hc as [Hc|[row [Hrow Hc]]].
        -- destruct Hc as [<-|[]]. reflexivity.
        -- apply in_rev in Hrow. apply in_map_iff in Hrow as [r [<- Hr]].
           apply in_map_iff in Hc as [c' [<- Hc']].
           rewrite swapcase_char_space.
           rewrite Forall_forall in Hp. apply Hp.
           now apply (in_split_on "/"%char placement r).
      * destruct Hc as [<-|[]]. reflexivity.
      * unfold mirror_castling in Hc. apply filter_In in Hc as [Hc _].
        simpl in Hc.
        repeat (destruct Hc as [<-|Hc]; [reflexivity|]). destruct Hc.
      * destruct (list_eq_dec ascii_dec ep "-") as [Heq|Hne].
        -- rewrite (Hdash Heq) in Hc. destruct Hc as [<-|[]]. reflexivity.
        -- destruct (Hrank Hne) as [f [n [-> [Hn ->]]]].
           destruct Hc as [<-|[<-|[]]].
           ++ inversion Hepw; subst. assumption.
           ++ do 10 (destruct n as [|n]; [reflexivity|]). lia.
      * rewrite Forall_forall in Hrest. destruct (Hrest p Hp') as [_ Hpw].
        rewrite Forall_forall in Hpw. now apply Hpw.
  - rewrite join_cons_cons. intros Heq.
    apply app_eq_nil in Heq as [_ Heq]. discriminate Heq.
Qed.

(** X6: what [make_fen_white] returns for a FEN of ASCII characters
    whose side field is not [w] is one comma-joined word, not a FEN:
    [split()] leaves it whole and a second [make_fen_white] on it raises
    [IndexError]. *)
Theorem make_fen_white_output_is_one_word
    (fen placement side rights ep : str) (rest : list str) :
  ascii_text fen = true ->
  split_ws fen = placement :: side :: rights :: ep :: rest ->
  side <> "w" ->
  wf_ep ep = true ->
  exists out,
    make_fen_white fen = Some out /\
    split_ws out = [out] /\
    make_fen_white out = None.
Proof.
  intros _ Hsplit Hside Hep.
  destruct (mirror_ep_rank ep Hep) as [ep' [Hm _]].
  assert (Hout : mirror_fields (placement :: side :: rights :: ep :: rest)
                 = Some (mirror_placement placement :: ("w" : str)
                         :: mirror_castling rights :: ep' :: rest))
    by (unfold mirror_fields; now rewrite Hm).
  assert (Hwords : Forall word (placement :: side :: rights :: ep :: rest))
    by (rewrite <- Hsplit; apply split_ws_words).
  destruct (mirror_fields_words _ _ _ _ _ _ Hwords Hep Hout) as [Hns Hne].
  eexists. split; [|split].
  - unfold make_fen_white. rewrite Hsplit.
    replace (str_eqb side "w") with false.
    + rewrite Hout. reflexivity.
    + symmetry. unfold str_eqb.
      now destruct (list_eq_dec ascii_dec side "w").
  - apply split_ws_word. split; assumption.
  - unfold make_fen_white. rewrite split_ws_word by (split; assumption).
    reflexivity.
Qed.

Lemma make_fen_white_output_is_one_word_witness :
  exists out,
    make_fen_white "r3k2r/8/8/8/8/8/8/4K3 b kq e3 0 1" = Some out /\
    split_ws out = [out] /\
    make_fen_white out = None.
Proof.
  apply (make_fen_white_output_is_one_word
           "r3k2r/8/8/8/8/8/8/4K3 b kq e3 0 1"
           "r3k2r/8/8/8/8/8/8/4K3" "b" "kq" "e3"
           [("0" : str); ("1" : str)] eq_refl eq_refl).
  - discriminate.
  - reflexivity.
Defined.

End KeyFacts.

(** X7: which fields make the key depends only on which indices
    [fen_elements_stored] holds: the fields are taken in the order of the
    FEN, each once, whatever the order and the repetitions of the
    indices. *)
Theorem stored_fields_by_membership (stored stored' : list nat)
    (fields : list str) :
  (forall i, In i stored <-> In i stored') ->
  Aggregator.stored_fields stored fields
  = Aggregator.stored_fields stored' fields.
Proof.
  intros Hmem. unfold Aggregator.stored_fields. f_equal.
  apply filter_ext. intros [i f]. simpl.
  destruct (existsb (Nat.eqb i) stored) eqn:E1;
    destruct (existsb (Nat.eqb i) stored') eqn:E2; try reflexivity; exfalso.
  - apply existsb_exists in E1 as [j [Hj Hij]].
    apply Nat.eqb_eq in Hij. subst j. apply Hmem in Hj.
    assert (existsb (Nat.eqb i) stored' = true)
      by (apply existsb_exists; exists i; split;
          [exact Hj | apply Nat.eqb_refl]).
    congruence.
  - apply existsb_exists in E2 as [j [Hj Hij]].
    apply Nat.eqb_eq in Hij. subst j. apply Hmem in Hj.
    assert (existsb (Nat.eqb i) stored = true)
      by (apply existsb_exists; exists i; split;
          [exact Hj | apply Nat.eqb_refl]).
    congruence.
Qed.

Lemma stored_fields_by_membership_witness :
  Aggregator.stored_fields [3; 0; 2; 0]
    (Py.split_ws "4k3/8/8/8/8/8/8/R3K3 w Kq e3 0 1")
  = map list_ascii_of_string ["4k3/8/8/8/8/8/8/R3K3"; "Kq"; "e3"]%string.
Proof.
  rewrite (stored_fields_by_membership [3; 0; 2; 0] [0; 2; 3]).
  - reflexivity.
  - intros i. simpl. tauto.
Defined.

(** ** Board encoding and the records of a batch *)

Section EncodeFacts.
Import Pipeline.

Lemma char_to_index_some (c : ascii) (i : nat) :
  char_to_index_dict c = Some i ->
  i < 16 /\ nth i (list_ascii_of_string "01KQRBNPCkqrbnpc") " "%char = c.
Proof.
  destruct c as [[] [] [] [] [] [] [] []]; intros H; vm_compute in H;
    first [discriminate H
          | injection H as <-; split;
            [apply Nat.ltb_lt; reflexivity | reflexivity]].
Qed.

Lemma char_to_index_none (c : ascii) :
  char_to_index_dict c = None <-> Py.char_in c "01KQRBNPCkqrbnpc" = false.
Proof.
  destruct c as [[] [] [] [] [] [] [] []]; vm_compute; split; intros H;
    first [reflexivity | discriminate H].
Qed.

Lemma mapM_map {A B C : Type} (f : B -> option C) (g : A -> B)
    (l : list A) :
  mapM f (map g l) = mapM (fun x => f (g x)) l.
Proof.
  induction l as [|x l IH]; simpl; [reflexivity | now rewrite IH].
Qed.

Lemma mapM_index (n : nat) :
  forall s : str,
  mapM (fun j => match nth_error s j with
                 | Some c => char_to_index_dict c
                 | None => None
                 end)
       (seq 0 n)
  = if n <=? length s then mapM char_to_index_dict (firstn n s) else None.
Proof.
  induction n as [|n IH]; intros s; [reflexivity|].
  rewrite <- cons_seq, <- seq_shift.
  destruct s as [|c s]; [reflexivity|].
  cbn [mapM nth_error firstn length]. rewrite mapM_map.
  cbn [nth_error]. rewrite IH.
  change (S n <=? S (length s)) with (n <=? length s).
  destruct (char_to_index_dict c); now destruct (n <=? length s).
Qed.

Lemma encode_board_firstn (s : str) :
  encode_board s
  = if 64 <=? length s then mapM char_to_index_dict (firstn 64 s)
    else None.
Proof. apply mapM_index. Qed.

Lemma mapM_index_some (l : str) :
  forall b, mapM char_to_index_dict l = Some b ->
  length b = length l /\
  Forall (fun i => i < 16) b /\
  map (fun i => nth i (list_ascii_of_string "01KQRBNPCkqrbnpc") " "%char) b
  = l.
Proof.
  induction l as [|c l IH]; intros b Hb; simpl in Hb.
  - injection Hb as <-. repeat split. constructor.
  - destruct (char_to_index_dict c) as [i|] eqn:Ec; [|discriminate].
    destruct (mapM char_to_index_dict l) as [b'|]; [|discriminate].
    injection Hb as <-. destruct (IH b' eq_refl) as [Hl [Hall Hmap]].
    apply char_to_index_some in Ec as [Hi Hn].
    cbn [map length]. rewrite Hl, Hmap, Hn. repeat split. now constructor.
Qed.

Lemma mapM_index_none (l : str) :
  mapM char_to_index_dict l = None
  <-> exists c, In c l /\ Py.char_in c "01KQRBNPCkqrbnpc" = false.
Proof.
  induction l as [|c l IH]; simpl.
  - split; [discriminate | intros [c [[] _]]].
  - destruct (char_to_index_dict c) as [i|] eqn:Ec.
    + destruct (mapM char_to_index_dict l) as [b|].
      * split; [discriminate|]. intros [c' [[<-|Hin] Hc']].
        -- apply char_to_index_none in Hc'. congruence.
        -- assert (Hex : exists c0, In c0 l /\
                           Py.char_in c0 "01KQRBNPCkqrbnpc" = false)
             by (exists c'; now split).
           apply IH in Hex. discriminate Hex.
      * split; [|reflexivity]. intros _.
        destruct (proj1 IH eq_refl) as [c' [Hin Hc']].
        exists c'. split; [now right | exact Hc'].
    + split; [|reflexivity]. intros _. exists c. split; [now left|].
      now apply char_to_index_none.
Qed.

(** X8: a board string that [create_serialized_example] encodes has at
    least 64 characters; the encoding has 64 indices, all below 16, and
    reading them back in the alphabet gives the first 64 characters, what
    follows them being ignored. *)
Theorem encode_board_round_trip (the_str : str) (b : list nat) :
  encode_board the_str = Some b ->
  64 <= length the_str /\
  length b = 64 /\
  Forall (fun i => i < 16) b /\
  map (fun i => nth i (list_ascii_of_string "01KQRBNPCkqrbnpc") " "%char) b
  = firstn 64 the_str.
Proof.
  rewrite encode_board_firstn.
  destruct (Nat.leb_spec 64 (length the_str)) as [Hlen|Hlen];
    [|discriminate].
  intros Hb. destruct (mapM_index_some _ b Hb) as [Hl [Hall Hmap]].
  rewrite length_firstn in Hl. repeat split; try assumption; lia.
Qed.

Lemma encode_board_round_trip_witness :
  exists b,
    encode_board
      "rnbqkbnrpppppppp1111111111111111111111111111P111PPPP1PPPRNBQKBNR w"
    = Some b /\
    length b = 64 /\
    map (fun i => nth i (list_ascii_of_string "01KQRBNPCkqrbnpc") " "%char) b
    = "rnbqkbnrpppppppp1111111111111111111111111111P111PPPP1PPPRNBQKBNR".
Proof.
  eexists. split; [reflexivity|].
  destruct (encode_board_round_trip _ _
              (eq_refl : encode_board
                 "rnbqkbnrpppppppp1111111111111111111111111111P111PPPP1PPPRNBQKBNR w"
               = Some _))
    as [_ [Hl [_ Hmap]]].
  split; [exact Hl | exact Hmap].
Defined.

(** X9: the encoding raises exactly when the board string has fewer than
    64 characters ([IndexError]) or one of its first 64 characters is not
    in the alphabet ["01KQRBNPCkqrbnpc"] ([KeyError]). *)
Theorem encode_board_raises_iff (the_str : str) :
  encode_board the_str = None <->
  length the_str < 64 \/
  exists c, In c (firstn 64 the_str) /\
            Py.char_in c "01KQRBNPCkqrbnpc" = false.
Proof.
  rewrite encode_board_firstn.
  destruct (Nat.leb_spec 64 (length the_str)) as [Hlen|Hlen].
  - rewrite mapM_index_none. split; [now right|].
    intros [H|H]; [lia | exact H].
  - split; [now left | reflexivity].
Qed.

End EncodeFacts.

Lemma cut_of_concat {A : Type} (ls : list (list A)) :
  Writer.cut (map (@length A) ls) (concat ls) = ls.
Proof.
  induction ls as [|l ls IH]; [reflexivity|].
  simpl. rewrite firstn_app, Nat.sub_diag, firstn_all. simpl.
  rewrite app_nil_r. f_equal.
  rewrite skipn_app, skipn_all, Nat.sub_diag. simpl. exact IH.
Qed.

Section BatchContent.
Context `{N : NumbaBoard}.
Variable node_batch_eval_fn : list BoardState -> list Score.
Variable line_to_fen_fn : str -> str.

Import Pipeline.

Lemma mapM_examples_boards (F : list str) :
  forall (M : list (list nat)) (R : list (list Score)),
    Forall (fun s => encode_board s <> None) F ->
    length M = length F -> length R = length F ->
    exists exs,
      mapM (fun t => create_serialized_example
                       (fst (fst t)) (snd (fst t)) (snd t))
           (combine (combine F M) R) = Some exs /\
      Forall2 (fun s ex => encode_board s = Some (board ex)) F exs /\
      map ex_moves exs = M.
Proof.
  induction F as [|s F IH]; intros M R Hall HM HR.
  - destruct M; [|discriminate]. destruct R; [|discriminate].
    exists []. repeat split. constructor.
  - destruct M as [|m M]; [discriminate|].
    destruct R as [|r R]; [discriminate|].
    inversion Hall as [|? ? Hs HF]; subst.
    destruct (IH M R HF) as [exs [Hexs [Hb Hm]]];
      [simpl in HM; lia | simpl in HR; lia |].
    simpl. unfold create_serialized_example at 1.
    destruct (encode_board s) as [b|] eqn:Eb; [|congruence].
    rewrite Hexs. eexists. split; [reflexivity|].
    split; [constructor; [exact Eb | exact Hb] | simpl; now rewrite Hm].
Qed.

(** X10: a batch of no line raises; a batch of lines whose FENs
    canonicalize and whose boards render in the board alphabet gives, line
    by line and in order, an example that holds the encoding of the
    line's board and the identifiers of exactly its legal moves, in the
    order the move generator yields them. *)
Theorem examples_hold_board_and_moves :
  lines_to_serialized_example node_batch_eval_fn line_to_fen_fn [] = None /\
  forall lines fens : list str,
    lines <> [] ->
    mapM Canonicalizer.make_fen_white (map line_to_fen_fn lines)
    = Some fens ->
    (forall b, encode_board (database_board_representation b) <> None) ->
    exists examples,
      lines_to_serialized_example node_batch_eval_fn line_to_fen_fn lines
      = Some examples /\
      Forall2 (fun fen ex =>
                 let b := create_board_state_from_fen fen in
                 encode_board (database_board_representation b)
                 = Some (board ex) /\
                 ex_moves ex
                 = map move_to_str_dict (generate_legal_moves b))
              fens examples.
Proof.
  split; [reflexivity|]. intros lines fens Hne Hfens Henc.
  assert (Hlen : length fens = length lines)
    by (rewrite (length_mapM _ _ _ Hfens); apply length_map).
  set (boards := map create_board_state_from_fen fens).
  set (moves := map generate_legal_moves boards).
  set (ids := map (map move_to_str_dict) moves).
  assert (Hcounts : map (@length _) moves = map (@length _) ids)
    by (unfold ids; rewrite map_map; apply map_ext; intros l;
        now rewrite length_map).
  assert (Hnonempty : map (@length _) ids <> []).
  { unfold ids, moves, boards. destruct fens; [|discriminate].
    destruct lines; [congruence | discriminate Hlen]. }
  unfold lines_to_serialized_example.
  destruct lines as [|line lines]; [congruence|].
  rewrite Hfens. cbv zeta. fold boards. fold moves. rewrite Hcounts.
  rewrite concat_map. fold ids.
  rewrite (np_split_matched (concat ids) (map (@length _) ids) Hnonempty)
    by apply length_concat.
  rewrite cut_of_concat.
  destruct (mapM_examples_boards
              (map database_board_representation boards) ids
              (np_split (node_batch_eval_fn (children_of boards))
                        (removelast (cumsum (map (@length _) ids)))))
    as [exs [Hexs [Hb Hm]]].
  - apply Forall_forall. intros s Hs.
    apply in_map_iff in Hs as [b [<- _]]. apply Henc.
  - unfold ids, moves. now rewrite !length_map.
  - rewrite length_np_split_cumsum by exact Hnonempty.
    unfold ids, moves. now rewrite !length_map.
  - exists exs. split; [exact Hexs|].
    unfold ids, moves, boards in Hm, Hb. clear - Hb Hm.
    revert exs Hb Hm. induction fens as [|fen fens IH]; intros exs Hb Hm.
    + inversion Hb; subst. constructor.
    + inversion Hb as [|? ex ? exs' Hex Hrest]; subst.
      simpl in Hm. injection Hm as Hm1 Hm2.
      constructor; [split; assumption|]. now apply IH.
Qed.

End BatchContent.

Lemma examples_hold_board_and_moves_witness :
  exists examples,
    @Pipeline.lines_to_serialized_example Toy.numba
      (map (fun child => 2 * child)) (fun x => x) Toy.three_lines
    = Some examples /\
    Forall2 (fun fen ex =>
               Pipeline.ex_moves ex
               = map (@move_to_str_dict Toy.numba)
                     (@generate_legal_moves Toy.numba
                        (@create_board_state_from_fen Toy.numba fen)))
            Toy.three_lines examples.
Proof.
  destruct (@examples_hold_board_and_moves Toy.numba
              (map (fun child => 2 * child)) (fun x => x)) as [_ Hrun].
  destruct (Hrun Toy.three_lines Toy.three_lines
              (fun H : Toy.three_lines = [] =>
                 eq_ind Toy.three_lines
                        (fun l => match l with [] => False | _ => True end)
                        I [] H)
              eq_refl
              (fun b (H : Pipeline.encode_board (repeat "1"%char 64) = None) =>
                 eq_ind (Pipeline.encode_board (repeat "1"%char 64))
                        (fun o => match o with None => False | _ => True end)
                        I None H))
    as [examples [Hex Hall]].
  exists examples. split; [exact Hex|].
  eapply Forall2_impl; [|exact Hall].
  intros fen ex [_ Hm]. exact Hm.
Defined.

(** ** The submission loop *)

Section SubmitFacts.
Import Pipeline.

Lemma submit_loop_keeps (file : list str) :
  forall index lines futures,
    concat (fst (submit_loop index lines futures file))
    ++ snd (submit_loop index lines futures file)
    = concat futures ++ lines ++ file.
Proof.
  induction file as [|line file IH]; intros index lines futures.
  - simpl. now rewrite app_nil_r.
  - cbn [submit_loop].
    destruct ((index mod batch_size =? 0) && negb (index =? 0)).
    + rewrite IH, concat_app. simpl. rewrite app_nil_r.
      now rewrite <- !app_assoc.
    + rewrite IH. now rewrite <- app_assoc.
Qed.

(** X11: the loop neither repeats nor reorders a line: the submitted
    batches, one after the other, followed by the lines still held when
    the file ends, are the file. *)
Theorem submitted_batches_are_consecutive (file : list str) :
  concat (submitted file) ++ never_submitted file = file.
Proof.
  unfold submitted, never_submitted.
  now rewrite submit_loop_keeps.
Qed.

Lemma held_after_submit (i : nat) :
  i mod 200 = 0 -> i <> 0 -> held_at (S i) = 0.
Proof.
  intros Hm Hi. unfold held_at.
  pose proof (Nat.div_mod_eq i 200) as Hd.
  destruct (Nat.leb_spec (S i) 200) as [Hle|Hgt]; [lia|].
  replace (S i - 1) with i by lia. exact Hm.
Qed.

Lemma held_after_append (i : nat) :
  i mod 200 <> 0 \/ i = 0 -> held_at (S i) = held_at i + 1.
Proof.
  intros Hcase. unfold held_at.
  pose proof (Nat.div_mod_eq i 200) as Hd.
  pose proof (Nat.mod_upper_bound i 200 ltac:(discriminate)) as Hr.
  pose proof (Nat.div_mod_eq (i - 1) 200) as Hd'.
  pose proof (Nat.mod_upper_bound (i - 1) 200 ltac:(discriminate)) as Hr'.
  replace (S i - 1) with i by lia.
  destruct (Nat.leb_spec (S i) 200) as [Hle|Hgt];
    destruct (Nat.leb_spec i 200) as [Hle'|Hgt']; lia.
Qed.

Lemma batches_after_submit (i : nat) :
  i mod 200 = 0 -> i <> 0 -> (S i - 1) / 200 = (i - 1) / 200 + 1.
Proof.
  intros Hm Hi.
  pose proof (Nat.div_mod_eq i 200) as Hd.
  pose proof (Nat.div_mod_eq (i - 1) 200) as Hd'.
  pose proof (Nat.mod_upper_bound (i - 1) 200 ltac:(discriminate)) as Hr'.
  replace (S i - 1) with i by lia. lia.
Qed.

Lemma batches_after_append (i : nat) :
  i mod 200 <> 0 \/ i = 0 -> (S i - 1) / 200 = (i - 1) / 200.
Proof.
  intros Hcase.
  pose proof (Nat.div_mod_eq i 200) as Hd.
  pose proof (Nat.mod_upper_bound i 200 ltac:(discriminate)) as Hr.
  pose proof (Nat.div_mod_eq (i - 1) 200) as Hd'.
  pose proof (Nat.mod_upper_bound (i - 1) 200 ltac:(discriminate)) as Hr'.
  replace (S i - 1) with i by lia.
  destruct Hcase as [Hc | ->]; [lia | reflexivity].
Qed.

Lemma submit_loop_counts (file : list str) :
  forall index lines futures,
    length lines = held_at index ->
    length (snd (submit_loop index lines futures file))
    = held_at (index + length file) /\
    length (fst (submit_loop index lines futures file)) + (index - 1) / 200
    = length futures + (index + length file - 1) / 200.
Proof.
  induction file as [|line file IH]; intros index lines futures Hheld.
  - simpl. rewrite Nat.add_0_r. split; [exact Hheld | lia].
  - cbn [submit_loop length]. unfold batch_size.
    replace (index + S (length file)) with (S index + length file) by lia.
    destruct (Nat.eqb_spec (index mod 200) 0) as [Hm|Hm];
      destruct (Nat.eqb_spec index 0) as [Hi|Hi]; cbn [andb negb].
    + destruct (IH (S index) (lines ++ [line]) futures) as [H1 H2].
      * rewrite length_app, Hheld. cbn [length].
        apply eq_sym, held_after_append. now right.
      * split; [exact H1|].
        rewrite (batches_after_append index) in H2 by now right. exact H2.
    + destruct (IH (S index) [] (futures ++ [lines ++ [line]])) as [H1 H2].
      * apply eq_sym, held_after_submit; assumption.
      * split; [exact H1|].
        rewrite (batches_after_submit index), length_app in H2
          by assumption.
        cbn [length] in H2. lia.
    + destruct (IH (S index) (lines ++ [line]) futures) as [H1 H2].
      * rewrite length_app, Hheld. cbn [length].
        apply eq_sym, held_after_append. now left.
      * split; [exact H1|].
        rewrite (batches_after_append index) in H2 by now left. exact H2.
    + destruct (IH (S index) (lines ++ [line]) futures) as [H1 H2].
      * rewrite length_app, Hheld. cbn [length].
        apply eq_sym, held_after_append. now left.
      * split; [exact H1|].
        rewrite (batches_after_append index) in H2 by now left. exact H2.
Qed.

(** X12: of a file of [n] lines the loop submits [(n - 1) / 200] batches
    and holds back, never to submit them, all [n] lines when [n <= 200]
    and [(n - 1) mod 200] lines otherwise; so every line is submitted only
    when [n] is 0 or [n - 1] is a positive multiple of 200. *)
Theorem never_submitted_count (file : list str) :
  length (submitted file) = (length file - 1) / 200 /\
  length (never_submitted file)
  = (if length file <=? 200 then length file
     else (length file - 1) mod 200).
Proof.
  unfold submitted, never_submitted.
  destruct (submit_loop_counts file 0 [] [] eq_refl) as [H1 H2].
  unfold held_at in H1. simpl in H1, H2. split; [|exact H1].
  rewrite Nat.add_0_r in H2. exact H2.
Qed.

End SubmitFacts.

(** ** Pre-filters and the comparison-move generator *)

Section QueryFacts.
Context `{Q : BoardQueries}.
Variable pre : list (Board -> Move -> bool).
Variable sw : bool.
Variable stored : list nat.

Import Aggregator Creator.

(** X13: [my_comparison_move_generator] yields exactly the legal moves
    that capture nothing and were never recorded for the board; hence no
    most-chosen move of the entry is ever among the comparison moves. *)
Theorem comparison_moves_never_chosen (board : Board) (data : BoardInfo)
    (move : Move) :
  (In move (my_comparison_move_generator board data) <->
   In move (legal_moves board) /\
   is_capture board move = false /\
   Dict.get move_eqb (moves data) move = None) /\
  (forall max_count,
      In move (Writer.most_chosen_moves data max_count) ->
      ~ In move (my_comparison_move_generator board data)).
Proof.
  assert (Hgen : In move (my_comparison_move_generator board data) <->
                 In move (legal_moves board) /\
                 is_capture board move = false /\
                 Dict.get move_eqb (moves data) move = None).
  { unfold my_comparison_move_generator. rewrite filter_In.
    destruct (is_capture board move);
      destruct (Dict.get move_eqb (moves data) move); simpl;
      intuition discriminate. }
  split; [exact Hgen|].
  intros mx Htop Hin. apply Hgen in Hin as [_ [_ Hnone]].
  unfold Writer.most_chosen_moves in Htop.
  apply filter_In in Htop as [_ Hc]. rewrite Hnone in Hc. discriminate Hc.
Qed.

Lemma walk_game_skips (n : Z) (j : nat) :
  (forall b m, stack_length (push b m) = S (stack_length b)) ->
  In (during_search_leq_n_moves_made_filter_creater n) pre ->
  forall (g : list Move) (b : Board) (c : Configs),
    (Z.of_nat (stack_length b) + Z.of_nat j <= n + 1)%Z ->
    walk_game pre sw stored c b g
    = walk_game pre sw stored c (fold_left push (firstn j g) b) (skipn j g).
Proof.
  intros Hpush Hin. induction j as [|j IH]; intros g b c Hb;
    [reflexivity|].
  destruct g as [|m g]; [reflexivity|].
  cbn [firstn skipn fold_left walk_game].
  replace (should_save pre b m) with false.
  - apply IH. rewrite Hpush. lia.
  - symmetry. apply should_save_from_veto.
    exists (during_search_leq_n_moves_made_filter_creater n).
    split; [exact Hin|].
    unfold during_search_leq_n_moves_made_filter_creater.
    apply Z.leb_le. lia.
Qed.

(** X14: with [during_search_leq_n_moves_made_filter_creater(n)] in the
    chain, on an engine whose move stack is empty on the starting board
    and grows by one with each push, the first [n + 1] plies of a game
    are never recorded: walking the game is walking what follows them
    from the board they lead to. *)
Theorem first_plies_are_skipped (n : Z) (game : list Move)
    (configs : Configs) :
  (0 <= n)%Z ->
  stack_length new_board = 0 ->
  (forall b m, stack_length (push b m) = S (stack_length b)) ->
  In (during_search_leq_n_moves_made_filter_creater n) pre ->
  walk_game pre sw stored configs new_board game
  = walk_game pre sw stored configs
      (fold_left push (firstn (Z.to_nat n + 1) game) new_board)
      (skipn (Z.to_nat n + 1) game).
Proof.
  intros Hn H0 Hpush Hin.
  apply (walk_game_skips n (Z.to_nat n + 1) Hpush Hin).
  rewrite H0. lia.
Qed.

End QueryFacts.

Lemma first_plies_are_skipped_witness :
  @Aggregator.walk_game Toy.engine
    [@Creator.during_search_leq_n_moves_made_filter_creater
       Toy.engine ToyQueries.queries 1]
    true [0; 2; 3] [] [] [1; 2; 3; 4]
  = @Aggregator.walk_game Toy.engine
      [@Creator.during_search_leq_n_moves_made_filter_creater
         Toy.engine ToyQueries.queries 1]
      true [0; 2; 3] [] [2; 1] [3; 4].
Proof.
  apply (@first_plies_are_skipped Toy.engine ToyQueries.queries
           [@Creator.during_search_leq_n_moves_made_filter_creater
              Toy.engine ToyQueries.queries 1]
           true [0; 2; 3] 1 [1; 2; 3; 4] []).
  - discriminate.
  - reflexivity.
  - reflexivity.
  - now left.
Defined.

(** ** The square rotation of [board_eval_client.py] *)

(** X15: on the 64 squares the rotation is the flip of the ranks: it
    stays on the board, keeps the file, turns rank [r] into [7 - r], is
    the exclusive or with 56 and undoes itself. *)
Theorem rotate_square_flips_ranks (square : Z) :
  (0 <= square < 64)%Z ->
  (0 <= EvalClient.rotate_square square < 64)%Z /\
  Z.land (EvalClient.rotate_square square) 7 = Z.land square 7 /\
  Z.shiftr (EvalClient.rotate_square square) 3 = (7 - Z.shiftr square 3)%Z /\
  EvalClient.rotate_square square = Z.lxor square 56 /\
  EvalClient.rotate_square (EvalClient.rotate_square square) = square.
Proof.
  intros Hsq.
  assert (Hn : exists n, n < 64 /\ square = Z.of_nat n)
    by (exists (Z.to_nat square); lia).
  destruct Hn as [n [Hn ->]].
  do 64 (destruct n as [|n];
         [vm_compute; repeat split; intros H; discriminate H|]).
  lia.
Qed.

Lemma rotate_square_flips_ranks_witness :
  EvalClient.rotate_square 12 = 52%Z /\
  EvalClient.rotate_square (EvalClient.rotate_square 12) = 12%Z.
Proof.
  destruct (rotate_square_flips_ranks 12 ltac:(lia))
    as [_ [_ [_ [Hx Hinv]]]].
  split; [exact Hx | exact Hinv].
Defined.

(** ** More on the data writer *)

Section WriterMore.
Context `{E : RulesEngine}.
Variable file_ratios : list float.
Variable for_deep_pink_loss : list bool.
Variable comparison_move_generator :
  Board -> Aggregator.BoardInfo -> list Move.
Variable line_to_fen_fn : str -> str.
Variable board_to_str_fn : Board -> str.

Import Aggregator Writer.

Lemma writer_loop_files (dests : list (float * bool)) (N : nat) :
  forall it : Configs,
    match snd (writer_loop comparison_move_generator line_to_fen_fn
                 board_to_str_fn dests N it) with
    | None =>
        length (fst (writer_loop comparison_move_generator line_to_fen_fn
                       board_to_str_fn dests N it)) = length dests
    | Some _ =>
        length (fst (writer_loop comparison_move_generator line_to_fen_fn
                       board_to_str_fn dests N it)) <= length dests
    end.
Proof.
  induction dests as [|[ratio deep] dests IH]; intros it; [reflexivity|].
  cbn [writer_loop].
  destruct (Splitter.slice_size ratio N) as [k|]; [|simpl; lia].
  destruct (write_entries _ _ _ _ _ _ _) as [w rest|e w]; [|simpl; lia].
  specialize (IH rest).
  destruct (writer_loop _ _ _ dests N rest) as [files raised].
  simpl in *. destruct raised; lia.
Qed.

(** X16: the writer serves as many destinations as the shortest of the
    three lists (file names, ratios, flags) has elements: a run that ends
    without an exception has written exactly that many files, and a run
    that raises has reached no more than that many. *)
Theorem writer_serves_shortest_list (dict : Configs) (filenames : list str) :
  let served :=
    Nat.min (Nat.min (length filenames) (length file_ratios))
            (length for_deep_pink_loss) in
  length (destinations file_ratios for_deep_pink_loss filenames) = served /\
  match snd (writer file_ratios for_deep_pink_loss
               comparison_move_generator line_to_fen_fn board_to_str_fn
               dict filenames) with
  | None =>
      length (fst (writer file_ratios for_deep_pink_loss
                     comparison_move_generator line_to_fen_fn
                     board_to_str_fn dict filenames)) = served
  | Some _ =>
      length (fst (writer file_ratios for_deep_pink_loss
                     comparison_move_generator line_to_fen_fn
                     board_to_str_fn dict filenames)) <= served
  end.
Proof.
  intros served.
  assert (Hd : length (destinations file_ratios for_deep_pink_loss filenames)
               = served)
    by (unfold destinations; now rewrite length_map, !length_combine).
  split; [exact Hd|]. rewrite <- Hd. apply writer_loop_files.
Qed.

Lemma write_entries_exhausts (deep : bool) (n : nat) :
  forall (it : Configs) (written : list str),
    length it < n ->
    (forall item, In item it -> moves (snd item) <> []) ->
    write_entries comparison_move_generator line_to_fen_fn board_to_str_fn
      deep n it written
    = Raised StopIteration
        (written ++ slice_writes comparison_move_generator line_to_fen_fn
                      board_to_str_fn deep it).
Proof.
  induction n as [|n IH]; intros it written Hn Hall; [lia|].
  destruct it as [|item rest].
  - simpl. now rewrite app_nil_r.
  - cbn [write_entries]. unfold slice_writes. cbn [flat_map].
    destruct (entry_writes comparison_move_generator line_to_fen_fn
                board_to_str_fn deep item) as [ws|] eqn:Ew.
    + rewrite IH; [|simpl in Hn; lia | intros i Hi; apply Hall; now right].
      now rewrite app_assoc.
    + exfalso.
      apply (entry_writes_some comparison_move_generator line_to_fen_fn
               board_to_str_fn deep item); [|exact Ew].
      apply Hall. now left.
Qed.

Lemma writer_loop_exhausts (dests : list (float * bool)) (N : nat) :
  forall (it : Configs) (sizes : list nat),
    slice_sizes dests N = Some sizes ->
    length it < list_sum sizes ->
    (forall item, In item it -> moves (snd item) <> []) ->
    snd (writer_loop comparison_move_generator line_to_fen_fn
           board_to_str_fn dests N it)
    = Some StopIteration.
Proof.
  induction dests as [|[ratio deep] dests IH]; intros it sizes Hs Hsum Hall.
  - simpl in Hs. injection Hs as <-. simpl in Hsum. lia.
  - simpl in Hs. cbn [writer_loop].
    destruct (Splitter.slice_size ratio N) as [k|]; [|discriminate].
    destruct (slice_sizes dests N) as [ks|] eqn:Eks; [|discriminate].
    injection Hs as <-. simpl in Hsum.
    destruct (Nat.le_gt_cases (Z.to_nat k) (length it)) as [Hle|Hgt].
    + rewrite (write_entries_done comparison_move_generator line_to_fen_fn
                 board_to_str_fn deep (Z.to_nat k) it [] Hle Hall).
      specialize (IH (skipn (Z.to_nat k) it) ks eq_refl).
      destruct (writer_loop _ _ _ dests N (skipn (Z.to_nat k) it))
        as [files raised].
      simpl in *. apply IH.
      * rewrite length_skipn. lia.
      * intros item Hin. apply Hall. now apply In_skipn_list in Hin.
    + now rewrite write_entries_exhausts.
Qed.

(** X17: when the sizes the destinations ask for add up to more than the
    entries of the corpus, the run ends with [StopIteration] out of
    [next]: nothing checks the ratios against the corpus beforehand. *)
Theorem writer_raises_when_oversubscribed (dict : Configs)
    (filenames : list str) (sizes : list nat) :
  slice_sizes (destinations file_ratios for_deep_pink_loss filenames)
              (length dict) = Some sizes ->
  length dict < list_sum sizes ->
  (forall item, In item dict -> moves (snd item) <> []) ->
  snd (writer file_ratios for_deep_pink_loss comparison_move_generator
         line_to_fen_fn board_to_str_fn dict filenames)
  = Some StopIteration.
Proof.
  intros Hs Hsum Hall. unfold writer.
  now apply (writer_loop_exhausts _ _ dict sizes).
Qed.

End WriterMore.

Lemma writer_raises_when_oversubscribed_witness :
  snd (@Writer.writer Toy.engine
         [0x1.6666666666666p-1%float; 0x1.6666666666666p-1%float]
         [false; true] (fun _ _ => [4; 5]) (fun x => x) Toy.board_str
         (map (fun i => ([ascii_of_nat i], Toy.info [(i, 1)])) (seq 0 10))
         [("train" : str); ("test" : str)])
  = Some Writer.StopIteration.
Proof.
  apply (@writer_raises_when_oversubscribed Toy.engine
           [0x1.6666666666666p-1%float; 0x1.6666666666666p-1%float]
           [false; true] (fun _ _ => [4; 5]) (fun x => x) Toy.board_str
           (map (fun i => ([ascii_of_nat i], Toy.info [(i, 1)])) (seq 0 10))
           [("train" : str); ("test" : str)] [7; 7]).
  - reflexivity.
  - apply Nat.ltb_lt. reflexivity.
  - intros item Hin. apply in_map_iff in Hin as [i [<- _]]. discriminate.
Defined.

(** ** [line_counter] *)

Section LineCounter.
Import WinLossAnn.

Lemma blocks_concat (size : nat) (fuel : nat) :
  1 <= size ->
  forall text : str, length text < fuel ->
  concat (blocks fuel size text) = text.
Proof.
  intros Hsize. induction fuel as [|fuel IH]; intros text Hfuel; [lia|].
  cbn [blocks]. destruct text as [|c text]; [now rewrite firstn_nil|].
  destruct size as [|size]; [lia|].
  cbn [firstn]. cbn [concat].
  change (c :: firstn size text) with (firstn (S size) (c :: text)).
  rewrite IH.
  - apply firstn_skipn.
  - rewrite length_skipn. simpl in *. lia.
Qed.

Lemma count_occ_blocks (bs : list str) (c : ascii) :
  list_sum (map (fun bl => count_occ ascii_dec bl c) bs)
  = count_occ ascii_dec (concat bs) c.
Proof.
  induction bs as [|b bs IH]; [reflexivity|].
  simpl. now rewrite count_occ_app, IH.
Qed.

Lemma universal_newlines_app (c : ascii) :
  c <> LF ->
  forall (n : nat) (raw : str),
    length raw <= n ->
    universal_newlines (raw ++ [c])
    = universal_newlines raw ++ universal_newlines [c].
Proof.
  intros Hc. induction n as [|n IH]; intros raw Hlen.
  - destruct raw; [reflexivity | simpl in Hlen; lia].
  - destruct raw as [|a rest]; [reflexivity|].
    simpl in Hlen. cbn [app universal_newlines].
    destruct (Ascii.eqb a CR).
    + destruct rest as [|d rest'].
      * cbn [app]. destruct (Ascii.eqb_spec c LF) as [Heq|_];
          [now elim Hc | reflexivity].
      * cbn [app]. destruct (Ascii.eqb d LF).
        -- rewrite (IH rest') by (simpl in Hlen; lia). reflexivity.
        -- change (d :: rest' ++ [c]) with ((d :: rest') ++ [c]).
           rewrite (IH (d :: rest')) by lia. reflexivity.
    + rewrite (IH rest) by lia. reflexivity.
Qed.

Lemma universal_newlines_no_cr (raw : str) :
  ~ In CR raw -> universal_newlines raw = raw.
Proof.
  induction raw as [|a rest IH]; intros Hn; [reflexivity|].
  cbn [universal_newlines].
  destruct (Ascii.eqb_spec a CR) as [->|_]; [elim Hn; now left|].
  rewrite IH; [reflexivity|]. intros Hin. apply Hn. now right.
Qed.

(** X18: for a file of ASCII characters [line_counter] answers the
    number of line feeds of the text as text mode reads it, whatever the
    blocks it is read in: a line feed, a carriage return and a carriage
    return followed by a line feed each count once.  So in a file
    without carriage returns it is the number of line feeds, a carriage
    return at the end counts as a line end, and a last line that does
    not end in a line end is not counted. *)
Theorem line_counter_counts_line_ends (raw : str) :
  Py.ascii_text raw = true ->
  line_counter raw = count_occ ascii_dec (universal_newlines raw) LF /\
  (~ In CR raw -> line_counter raw = count_occ ascii_dec raw LF) /\
  (forall c, c <> LF -> c <> CR ->
             line_counter (raw ++ [c]) = line_counter raw) /\
  line_counter (raw ++ [CR]) = S (line_counter raw).
Proof.
  intros _.
  assert (Hcount : forall t,
             line_counter t
             = count_occ ascii_dec (universal_newlines t) LF).
  { intros t. unfold line_counter. cbv zeta. rewrite count_occ_blocks.
    rewrite blocks_concat; [reflexivity | lia | lia]. }
  split; [apply Hcount|]. split; [|split].
  - intros Hn. now rewrite Hcount, universal_newlines_no_cr.
  - intros c Hlf Hcr.
    rewrite !Hcount, (universal_newlines_app c Hlf (length raw)) by lia.
    rewrite count_occ_app. cbn [universal_newlines].
    destruct (Ascii.eqb_spec c CR) as [Heq|_]; [now elim Hcr|].
    simpl. destruct (ascii_dec c LF); [congruence | lia].
  - rewrite !Hcount, (universal_newlines_app CR) with (n := length raw);
      [|discriminate | lia].
    rewrite count_occ_app. vm_compute (universal_newlines [CR]).
    simpl. lia.
Qed.

End LineCounter.

Lemma line_counter_counts_line_ends_witness :
  WinLossAnn.line_counter
    ((("one" : str) ++ [WinLossAnn.CR; WinLossAnn.LF] ++ ("two" : str)
      ++ [WinLossAnn.LF] ++ ("three" : str) ++ [WinLossAnn.CR]
      ++ ("las" : str)) ++ ["t"%char])
  = 3.
Proof.
  destruct (line_counter_counts_line_ends
              (("one" : str) ++ [WinLossAnn.CR; WinLossAnn.LF]
               ++ ("two" : str) ++ [WinLossAnn.LF] ++ ("three" : str)
               ++ [WinLossAnn.CR] ++ ("las" : str)) eq_refl)
    as [Hcount [_ [Hlast _]]].
  rewrite (Hlast "t"%char) by discriminate.
  rewrite Hcount. reflexivity.
Defined.

(** ** The string manipulations *)

Section ManipulationFacts.
Import Py Creator.

Lemma replace_char_app (old : ascii) (new s1 s2 : str) :
  replace_char old new (s1 ++ s2)
  = replace_char old new s1 ++ replace_char old new s2.
Proof. apply flat_map_app. Qed.

Lemma replace_char_no_comma (old : ascii) (new s : str) :
  ~ In ","%char new -> ~ In ","%char s ->
  ~ In ","%char (replace_char old new s).
Proof.
  intros Hnew Hs Hin. unfold replace_char in Hin.
  apply in_flat_map in Hin as [c [Hc Hin]].
  destruct (Ascii.eqb c old); [exact (Hnew Hin)|].
  destruct Hin as [Heq|[]]. subst c. exact (Hs Hc).
Qed.

Lemma ones_no_comma (y : nat) : ~ In ","%char (repeat "1"%char y).
Proof. intros Hin. apply repeat_spec in Hin. discriminate Hin. Qed.

Lemma map_other_fields (g : str -> str) (l : list str) :
  forall a,
  map (fun p => if fst p =? 0 then g (snd p) else snd p)
      (combine (seq (S a) (length l)) l)
  = l.
Proof.
  induction l as [|f l IH]; intros a; [reflexivity|].
  cbn [length seq combine map fst snd Nat.eqb]. now rewrite IH.
Qed.

Lemma manipulation_first_field (y : nat) (p : str) (others : list str) :
  ~ In ","%char p -> Forall (fun f => ~ In ","%char f) others ->
  manipulation y (join "," (p :: others))
  = join "," (replace_char (digit_char y) (repeat "1"%char y) p :: others).
Proof.
  intros Hp Hothers. unfold manipulation.
  change (join (list_ascii_of_string ",") (p :: others))
    with (join [","%char] (p :: others)).
  rewrite (split_on_join ","%char (p :: others))
    by (discriminate || now constructor).
  cbn [length seq combine map fst snd Nat.eqb].
  now rewrite map_other_fields.
Qed.

Lemma fold_manipulations (ys : list nat) (others : list str) :
  Forall (fun f => ~ In ","%char f) others ->
  forall p, ~ In ","%char p ->
  fold_left (fun x f => f x) (map manipulation ys) (join "," (p :: others))
  = join ","
      (fold_left (fun q y => replace_char (digit_char y)
                               (repeat "1"%char y) q) ys p
       :: others).
Proof.
  intros Hothers. induction ys as [|y ys IH]; intros p Hp; [reflexivity|].
  cbn [map fold_left]. rewrite manipulation_first_field by assumption.
  apply IH. apply replace_char_no_comma; [apply ones_no_comma | exact Hp].
Qed.

Lemma remove_slashes_join (l : list str) :
  replace_char "/" [] (join "," l)
  = join "," (map (replace_char "/" []) l).
Proof.
  induction l as [|p l IH]; [reflexivity|].
  destruct l as [|q l]; [reflexivity|].
  rewrite join_cons_cons, !replace_char_app, IH. reflexivity.
Qed.

Lemma fold_replace_app (ys : list nat) :
  forall s1 s2,
  fold_left (fun q y => replace_char (digit_char y) (repeat "1"%char y) q)
            ys (s1 ++ s2)
  = fold_left (fun q y => replace_char (digit_char y) (repeat "1"%char y) q)
              ys s1
    ++ fold_left (fun q y => replace_char (digit_char y)
                               (repeat "1"%char y) q) ys s2.
Proof.
  induction ys as [|y ys IH]; intros s1 s2; [reflexivity|].
  cbn [fold_left]. now rewrite replace_char_app, IH.
Qed.

Lemma passes_one_char (c : ascii) :
  replace_char "/" []
    (fold_left (fun q y => replace_char (digit_char y) (repeat "1"%char y) q)
               (seq 2 7) [c])
  = expand_char c.
Proof. destruct c as [[] [] [] [] [] [] [] []]; reflexivity. Qed.

Lemma passes_expand (s : str) :
  replace_char "/" []
    (fold_left (fun q y => replace_char (digit_char y) (repeat "1"%char y) q)
               (seq 2 7) s)
  = expand_placement s.
Proof.
  induction s as [|c s IH]; [reflexivity|].
  change (c :: s) with ([c] ++ s).
  rewrite fold_replace_app, replace_char_app, IH, passes_one_char.
  reflexivity.
Qed.

Lemma expand_char_fixed (c : ascii) :
  flat_map expand_char (expand_char c) = expand_char c.
Proof. destruct c as [[] [] [] [] [] [] [] []]; reflexivity. Qed.

Lemma squares_of_length (c : ascii) : length (expand_char c) = squares_of c.
Proof. destruct c as [[] [] [] [] [] [] [] []]; reflexivity. Qed.

(** X19: applied in the order of the list to a key whose fields hold no
    comma, the manipulations leave a key whose first field is the
    placement with every digit from 2 to 8 written as that many ones and
    the slashes gone, and whose other fields have lost their slashes;
    that field has one character for every square the placement
    describes, and a second application changes nothing in it. *)
Theorem manipulations_expand_placement (placement : str)
    (others : list str) :
  ~ In ","%char placement ->
  Forall (fun f => ~ In ","%char f) others ->
  fold_left (fun x f => f x) manipulations (join "," (placement :: others))
  = join "," (expand_placement placement
              :: map (replace_char "/" []) others) /\
  length (expand_placement placement)
  = list_sum (map squares_of placement) /\
  expand_placement (expand_placement placement) = expand_placement placement.
Proof.
  intros Hp Hothers. split; [|split].
  - unfold manipulations. rewrite fold_left_app.
    rewrite fold_manipulations by assumption.
    cbn [fold_left]. rewrite remove_slashes_join.
    cbn [map]. now rewrite passes_expand.
  - unfold expand_placement. induction placement as [|c s IH];
      [reflexivity|].
    cbn [flat_map map list_sum]. rewrite length_app, squares_of_length.
    rewrite IH; [reflexivity|]. intros Hin. apply Hp. now right.
  - unfold expand_placement. clear Hp.
    induction placement as [|c s IH]; [reflexivity|].
    cbn [flat_map]. rewrite flat_map_app, expand_char_fixed, IH.
    reflexivity.
Qed.

Lemma manipulations_expand_placement_witness :
  fold_left (fun x f => f x) manipulations
    "rnbqkbnr/pppp1ppp/8/4p3/4P3/8/PPPP1PPP/RNBQKBNR,KQkq,e6"
  = "rnbqkbnrpppp1ppp111111111111p1111111P11111111111PPPP1PPPRNBQKBNR,KQkq,e6"
  /\ length (expand_placement
               "rnbqkbnr/pppp1ppp/8/4p3/4P3/8/PPPP1PPP/RNBQKBNR") = 64.
Proof.
  destruct (manipulations_expand_placement
              "rnbqkbnr/pppp1ppp/8/4p3/4P3/8/PPPP1PPP/RNBQKBNR"
              [("KQkq" : str); ("e6" : str)]) as [Hkey [Hlen _]].
  - vm_compute. intuition discriminate.
  - repeat constructor; vm_compute; intuition discriminate.
  - split; [exact Hkey | exact Hlen].
Defined.

End ManipulationFacts.

(** ** From a board to its key and back to a FEN *)

Section KeyRoundTrip.
Context `{E : RulesEngine}.
Import Py Creator.

(** X20: for a White-to-move board whose FEN, of ASCII characters, has
    six comma-free fields,
    the key stored for the elements 0, 2 and 3 is placement, rights and
    en-passant target joined by commas, and [current_line_to_fen] turns
    that key into a FEN with these three fields in their places, the side
    [w] and the counters [0] and [1]. *)
Theorem key_of_white_board_reads_back (sw : bool) (b : Board)
    (p s r e h f : str) :
  ascii_text (fen b) = true ->
  turn b = true ->
  split_ws (fen b) = [p; s; r; e; h; f] ->
  Forall (fun x => ~ In ","%char x) [p; s; r; e; h; f] ->
  Aggregator.board_key sw [0; 2; 3] b = Some (join "," [p; r; e]) /\
  split_ws (current_line_to_fen (join "," [p; r; e]))
  = [p; ("w" : str); r; e; ("0" : str); ("1" : str)].
Proof.
  intros _ Hturn Hsplit Hcomma.
  assert (Hwords : Forall word [p; s; r; e; h; f])
    by (rewrite <- Hsplit; apply split_ws_words).
  split.
  - unfold Aggregator.board_key, Canonicalizer.white_move_string.
    rewrite Hturn, andb_false_r, Hsplit.
    change (join (list_ascii_of_string ",") [p; s; r; e; h; f])
      with (join [","%char] [p; s; r; e; h; f]).
    rewrite (split_on_join ","%char [p; s; r; e; h; f])
      by (discriminate || exact Hcomma).
    reflexivity.
  - apply (current_line_to_fen_split p [r; e]).
    inversion Hwords as [|? ? Hp H1]; subst.
    inversion H1 as [|? ? _ H2]; subst.
    inversion H2 as [|? ? Hr H3]; subst.
    inversion H3 as [|? ? He _]; subst.
    inversion Hcomma as [|? ? Cp C1]; subst.
    inversion C1 as [|? ? _ C2]; subst.
    inversion C2 as [|? ? Cr C3]; subst.
    inversion C3 as [|? ? Ce _]; subst.
    constructor; [split; assumption|].
    constructor; [split; assumption|].
    constructor; [split; assumption | constructor].
Qed.

End KeyRoundTrip.

Lemma key_of_white_board_reads_back_witness :
  @Aggregator.board_key Toy.engine true [0; 2; 3] []
  = Some ("rnbqkbnr/8/8/8/8/8/8/RNBQKBNR,Kq,-" : str) /\
  Py.split_ws
    (Creator.current_line_to_fen "rnbqkbnr/8/8/8/8/8/8/RNBQKBNR,Kq,-")
  = map list_ascii_of_string
      ["rnbqkbnr/8/8/8/8/8/8/RNBQKBNR"; "w"; "Kq"; "-"; "0"; "1"]%string.
Proof.
  apply (@key_of_white_board_reads_back Toy.engine true []
           "rnbqkbnr/8/8/8/8/8/8/RNBQKBNR" "w" "Kq" "-" "0" "1").
  - reflexivity.
  - reflexivity.
  - reflexivity.
  - repeat constructor; vm_compute; intuition discriminate.
Defined.

(** ** The records a run writes *)

Section RecordsWritten.
Context `{N : NumbaBoard}.
Variable node_batch_eval_fn : list BoardState -> list Score.
Variable line_to_fen_fn : str -> str.

Import Pipeline.

Lemma examples_length (lines : list str) (examples : list SequenceExample) :
  lines_to_serialized_example node_batch_eval_fn line_to_fen_fn lines
  = Some examples ->
  length examples = length lines.
Proof.
  unfold lines_to_serialized_example.
  destruct lines as [|line lines]; [discriminate|].
  destruct (mapM Canonicalizer.make_fen_white
              (map line_to_fen_fn (line :: lines))) as [fens|] eqn:Hfens;
    [|discriminate].
  cbv zeta. intros Hrun.
  assert (Hlen : length fens = length (line :: lines))
    by (rewrite (length_mapM _ _ _ Hfens); apply length_map).
  rewrite (length_mapM _ _ _ Hrun).
  set (counts := map (@length _)
                   (map generate_legal_moves
                        (map create_board_state_from_fen fens))).
  assert (Hcounts : counts <> [])
    by (unfold counts; destruct fens; [discriminate Hlen | discriminate]).
  assert (Hk : length counts = length fens)
    by (unfold counts; now rewrite !length_map).
  rewrite !length_combine, !length_np_split_cumsum by exact Hcounts.
  rewrite !length_map. lia.
Qed.

Lemma results_length (batches : list (list str)) :
  forall results,
    mapM (lines_to_serialized_example node_batch_eval_fn line_to_fen_fn)
         batches = Some results ->
    length (concat results) = length (concat batches).
Proof.
  induction batches as [|b batches IH]; intros results Hr; simpl in Hr.
  - injection Hr as <-. reflexivity.
  - destruct (lines_to_serialized_example _ _ b) as [exs|] eqn:Eb;
      [|discriminate].
    destruct (mapM _ batches) as [rs|]; [|discriminate].
    injection Hr as <-. simpl. rewrite !length_app.
    now rewrite (examples_length b exs Eb), (IH rs).
Qed.

(** X21: a run that writes its file writes one record for every line of
    a submitted batch and none for the lines that were never submitted:
    the records and the held-back lines together are as many as the
    lines of the file. *)
Theorem records_are_submitted_lines (file : list str)
    (written : list SequenceExample) :
  tf_records_written node_batch_eval_fn line_to_fen_fn file written ->
  length written + length (never_submitted file) = length file.
Proof.
  intros [results [completed [Hres [Hperm ->]]]].
  rewrite <- (Permutation_length (Permutation_concat_compat _ _ Hperm)).
  rewrite (results_length _ _ Hres).
  rewrite <- length_app.
  unfold submitted, never_submitted. now rewrite submit_loop_keeps.
Qed.

End RecordsWritten.

Lemma records_are_submitted_lines_witness :
  let file := repeat ("2 w - - 0 1" : str) 203 in
  let record :=
    Pipeline.Build_SequenceExample
      (repeat 1 64) [0; 1] [40; 42]%float in
  @Pipeline.tf_records_written Toy.numba
    (map (fun child => 2 * child)) (fun x => x) file (repeat record 201) /\
  length (Pipeline.never_submitted file) = 2 /\
  length (repeat record 201) + length (Pipeline.never_submitted file)
  = length file.
Proof.
  cbv zeta.
  assert (Hrun : @Pipeline.tf_records_written Toy.numba
                   (map (fun child => 2 * child)) (fun x => x)
                   (repeat ("2 w - - 0 1" : str) 203)
                   (repeat (Pipeline.Build_SequenceExample
                              (repeat 1 64) [0; 1] [40; 42]%float) 201)).
  { exists [repeat (Pipeline.Build_SequenceExample
                      (repeat 1 64) [0; 1] [40; 42]%float) 201],
           [repeat (Pipeline.Build_SequenceExample
                      (repeat 1 64) [0; 1] [40; 42]%float) 201].
    split; [vm_compute; reflexivity|].
    split; [apply Permutation_refl | vm_compute; reflexivity]. }
  split; [exact Hrun|]. split; [vm_compute; reflexivity|].
  exact (@records_are_submitted_lines Toy.numba
           (map (fun child => 2 * child)) (fun x => x) _ _ Hrun).
Defined.

(** ** What the material filter counts *)

Section PieceCount.
Import Py Filters.

Lemma piece_count_app (a b : str) :
  piece_count (a ++ b) = (piece_count a + piece_count b)%Z.
Proof.
  unfold piece_count. rewrite filter_app, length_app. lia.
Qed.

Lemma piece_count_join (fields : list str) :
  piece_count (join "," fields)
  = fold_right Z.add 0%Z (map piece_count fields).
Proof.
  induction fields as [|f fields IH]; [reflexivity|].
  destruct fields as [|g fields].
  - simpl. lia.
  - rewrite join_cons_cons, !piece_count_app, IH.
    change (piece_count (list_ascii_of_string ",")) with 0%Z.
    cbn [map fold_right]. lia.
Qed.

(** X22: the filter of [n_man_filter_creator(n)], [0 <= n], counts the
    piece letters of the whole key, not of the placement alone: on a key
    of comma-joined fields it answers true exactly when the letters of
    all fields together, castling rights and en-passant file included,
    are at most [n]. *)
Theorem n_man_filter_counts_every_field (BoardInfo : Type) (n : Z)
    (fields : list str) (data : BoardInfo) :
  (0 <= n)%Z ->
  (n_man_filter_creator n (join "," fields) data = true <->
   (fold_right Z.add 0 (map piece_count fields) <= n)%Z).
Proof.
  intros Hn. unfold n_man_filter_creator.
  rewrite n_man_loop_spec by exact Hn.
  rewrite piece_count_join, Z.leb_le. lia.
Qed.

Lemma n_man_filter_counts_every_field_witness :
  n_man_filter_creator 6 "4k3/8/8/8/8/8/8/R3K2R,KQ,b3" tt = false /\
  piece_count "4k3/8/8/8/8/8/8/R3K2R" = 4%Z /\
  piece_count "KQ" = 2%Z /\ piece_count "b3" = 1%Z.
Proof.
  split; [|repeat split].
  destruct (n_man_filter_creator 6 "4k3/8/8/8/8/8/8/R3K2R,KQ,b3" tt) eqn:Ef;
    [|reflexivity].
  apply (n_man_filter_counts_every_field unit 6
           [("4k3/8/8/8/8/8/8/R3K2R" : str); ("KQ" : str); ("b3" : str)] tt)
    in Ef; [|lia].
  vm_compute in Ef. exfalso. apply Ef. reflexivity.
Defined.

End PieceCount.

Lemma comparison_moves_never_chosen_witness :
  let data := Toy.info [(0, 3); (2, 3); (4, 1)] in
  @Creator.my_comparison_move_generator Toy.engine ToyQueries.queries
    [] data = [6] /\
  ~ In 2 (@Creator.my_comparison_move_generator Toy.engine
            ToyQueries.queries [] data).
Proof.
  intros data. split; [reflexivity|].
  destruct (@comparison_moves_never_chosen Toy.engine ToyQueries.queries
              [] data 2) as [_ Hnever].
  apply (Hnever 3). vm_compute. right. now left.
Defined.

(** ** Slices of the score sequence and of the board string *)

Section TilingFacts.
Import Pipeline.
Context {A : Type}.

Lemma slices_tile (ary : list A) (points : list nat) :
  forall a, nondecreasing a points ->
  concat (map (fun p => Py.slice ary (fst p) (snd p))
              (combine (a :: points ++ [length ary])
                       (points ++ [length ary])))
  = skipn a ary.
Proof.
  induction points as [|d points IH]; intros a Hnd.
  - simpl. rewrite app_nil_r. unfold Py.slice.
    apply firstn_all2. rewrite length_skipn. lia.
  - destruct Hnd as [Had Hnd].
    change (concat
              (map (fun p => Py.slice ary (fst p) (snd p))
                   (combine (a :: (d :: points) ++ [length ary])
                            ((d :: points) ++ [length ary]))))
      with (Py.slice ary a d
            ++ concat
                 (map (fun p => Py.slice ary (fst p) (snd p))
                      (combine (d :: points ++ [length ary])
                               (points ++ [length ary])))).
    rewrite (IH d Hnd). unfold Py.slice.
    replace (skipn d ary) with (skipn (d - a) (skipn a ary))
      by (rewrite skipn_skipn; f_equal; lia).
    apply firstn_skipn.
Qed.

Lemma nondecreasing_cumsum (counts : list nat) :
  forall acc, nondecreasing acc (cumsum_from acc counts).
Proof.
  induction counts as [|c counts IH]; intros acc; [exact I|].
  simpl. split; [lia | apply IH].
Qed.

Lemma nondecreasing_removelast (points : list nat) :
  forall a, nondecreasing a points -> nondecreasing a (removelast points).
Proof.
  induction points as [|d points IH]; intros a Hnd; [exact I|].
  destruct Hnd as [Had Hnd]. destruct points as [|d' points]; [exact I|].
  change (removelast (d :: d' :: points))
    with (d :: removelast (d' :: points)).
  split; [exact Had | now apply IH].
Qed.

(** X23: whatever the evaluator returns, [np.split] at the recorded
    boundaries neither drops nor repeats a score: the slices of the lines,
    one after the other, are the returned sequence; a surplus falls to
    the last line and a shortfall empties the last slices. *)
Theorem score_slices_tile_the_scores (scores : list A) (counts : list nat) :
  concat (np_split scores (removelast (cumsum counts))) = scores.
Proof.
  unfold np_split. cbv zeta. cbn [tl].
  apply (slices_tile scores (removelast (cumsum counts)) 0).
  apply nondecreasing_removelast, nondecreasing_cumsum.
Qed.

End TilingFacts.

Section SwitchMore.
Import Py Splitter.

Lemma rows_concat_firstn {A : Type} (s : list A) (n : nat) :
  concat (map (fun j => slice s (8 * j) (8 * (j + 1))) (seq 0 n))
  = firstn (8 * n) s.
Proof.
  induction n as [|n IH]; [reflexivity|].
  rewrite seq_S, map_app, concat_app, IH. cbn [map concat].
  rewrite app_nil_r. unfold slice.
  replace (8 * (0 + n + 1) - 8 * (0 + n)) with 8 by lia.
  replace (8 * (0 + n)) with (8 * n) by lia.
  replace (8 * S n) with (8 * n + 8) by lia.
  rewrite <- (firstn_skipn (8 * n) (firstn (8 * n + 8) s)) at 1.
  rewrite firstn_firstn, Nat.min_l by lia.
  now rewrite firstn_skipn_comm.
Qed.

(** X24: of a string of ASCII characters [switch_from_blacks_move]
    looks at the first 64 characters only: its result is a rearrangement
    of their case-swapped characters, so it has [min (len s) 64]
    characters and what follows the 64th is dropped. *)
Theorem switch_uses_first_64 (the_str : str) :
  ascii_text the_str = true ->
  Permutation (switch_from_blacks_move the_str)
              (swapcase (firstn 64 the_str)) /\
  length (switch_from_blacks_move the_str) = Nat.min 64 (length the_str).
Proof.
  intros _.
  assert (Hperm : Permutation (switch_from_blacks_move the_str)
                              (swapcase (firstn 64 the_str))).
  { unfold switch_from_blacks_move, swapcase.
    apply Permutation_map.
    replace (firstn 64 the_str) with (concat (rows8 the_str))
      by exact (rows_concat_firstn the_str 8).
    apply Permutation_concat_compat. symmetry. apply Permutation_rev. }
  split; [exact Hperm|].
  rewrite (Permutation_length Hperm). unfold swapcase.
  now rewrite length_map, length_firstn.
Qed.

End SwitchMore.

Lemma switch_uses_first_64_witness :
  length
    (Splitter.switch_from_blacks_move
       "rnbqkbnrpppppppp1111111111111111111111111111P111PPPP1PPPRNBQKBNR w")
  = 64.
Proof.
  destruct (switch_uses_first_64
              "rnbqkbnrpppppppp1111111111111111111111111111P111PPPP1PPPRNBQKBNR w"
              eq_refl) as [_ Hlen].
  exact Hlen.
Defined.

(** ** What the pre-filters keep out of the corpus *)

Section RecordedFacts.
Context `{Q : BoardQueries}.
Variable pre : list (Board -> Move -> bool).
Variable post : list (str -> Aggregator.BoardInfo -> bool).
Variable sw : bool.
Variable stored : list nat.

Import Aggregator Creator.

Lemma should_save_from_true (filters : list (Board -> Move -> bool))
    (b : Board) (m : Move) :
  should_save_from filters b m = true ->
  forall filter, In filter filters -> filter b m = false.
Proof.
  intros Hs f Hin. destruct (f b m) eqn:Ef; [|reflexivity].
  rewrite (should_save_from_veto filters b m) in Hs; [discriminate Hs|].
  now exists f.
Qed.

Lemma keyed_in (pl : list (Board * Move)) :
  forall (l : list (str * Move)) (k : str) (m : Move),
    keyed sw stored pl = Some l -> In (k, m) l ->
    exists b, In (b, m) pl /\ board_key sw stored b = Some k.
Proof.
  induction pl as [|[b0 m0] pl IH]; intros l k m Hl Hin; simpl in Hl.
  - injection Hl as <-. destruct Hin.
  - destruct (board_key sw stored b0) as [k0|] eqn:Ek; [|discriminate].
    destruct (keyed sw stored pl) as [r|]; [|discriminate].
    injection Hl as <-. destruct Hin as [Heq | Hin].
    + injection Heq as -> ->. exists b0. split; [now left | exact Ek].
    + destruct (IH r k m eq_refl Hin) as [b [Hb Hk]].
      exists b. split; [now right | exact Hk].
Qed.

(** Every move the corpus holds under a key was played, on a board of
    that key, at a ply no pre-filter answered true for. *)
Lemma recorded_move_was_saved (files : list (list (list Move)))
    (final : Configs) (key : str) (move : Move) (c : nat) :
  create_database_from_pgn pre post sw stored files = Some final ->
  corpus_count final key move = Some c ->
  exists board,
    In (board, move) (flat_map (plies new_board) (concat files)) /\
    board_key sw stored board = Some key /\
    forall filter, In filter pre -> filter board move = false.
Proof.
  unfold create_database_from_pgn.
  destruct (read_files pre sw stored [] new_board files) as [[coll b]|] eqn:Er;
    [|discriminate].
  intros Heq Hc. injection Heq as <-.
  destruct (collected_is_record_all pre sw stored files coll b Er)
    as [l [Hl Hcoll]].
  assert (Hnd : NoDup (map fst coll))
    by (rewrite Hcoll; apply nodup_record_all; constructor).
  assert (Hc' : corpus_count coll key move = Some c).
  { unfold corpus_count in *.
    rewrite (get_apply_post_filters post coll key Hnd) in Hc.
    destruct (Dict.get Py.str_eqb coll key) as [d|]; [|discriminate].
    destruct (existsb (fun f => f key d) post); [discriminate | exact Hc]. }
  rewrite Hcoll, corpus_count_collected in Hc'.
  destruct (count_pair l key move =? 0) eqn:E0; [discriminate|].
  apply Nat.eqb_neq in E0. apply count_pair_in in E0.
  destruct (keyed_in _ l key move Hl E0) as [board [Hin Hk]].
  apply filter_In in Hin as [Hin Hs].
  exists board. split; [exact Hin|]. split; [exact Hk|].
  now apply should_save_from_true.
Qed.

(** X25: with [during_search_capture_move_filter] and
    [during_search_n_man_filter_creator(n)] among the pre-filters, every
    move the corpus handed to the writer holds under a key was played in
    some game as a move that captures nothing, on a board of that key
    with more than [n] squares occupied. *)
Theorem recorded_moves_passed_the_filters (n : Z)
    (files : list (list (list Move))) (final : Configs) (key : str)
    (move : Move) (c : nat) :
  In during_search_capture_move_filter pre ->
  In (during_search_n_man_filter_creator n) pre ->
  create_database_from_pgn pre post sw stored files = Some final ->
  corpus_count final key move = Some c ->
  exists board,
    In (board, move) (flat_map (plies new_board) (concat files)) /\
    board_key sw stored board = Some key /\
    is_capture board move = false /\
    (n < occupied_popcount board)%Z.
Proof.
  intros Hcap Hman Hrun Hc.
  destruct (recorded_move_was_saved files final key move c Hrun Hc)
    as [board [Hin [Hk Hpass]]].
  exists board. split; [exact Hin|]. split; [exact Hk|]. split.
  - exact (Hpass _ Hcap).
  - specialize (Hpass _ Hman).
    unfold during_search_n_man_filter_creator in Hpass.
    now apply Z.leb_gt in Hpass.
Qed.

End RecordedFacts.

Lemma recorded_moves_passed_the_filters_witness :
  exists board : list nat,
    In (board, 4)
       (flat_map (@Aggregator.plies Toy.engine []) [[1; 2; 4]; [3; 6]]) /\
    @Aggregator.board_key Toy.engine true [0; 2; 3] board
    = Some ("4k3/8/8/8/8/8/8/R3K3,Kq,-" : str) /\
    Nat.odd 4 = false /\
    (29 < 32 - Z.of_nat (length board))%Z.
Proof.
  eapply (@recorded_moves_passed_the_filters Toy.engine ToyQueries.queries
           [@Creator.during_search_capture_move_filter
              Toy.engine ToyQueries.queries;
            @Creator.during_search_n_man_filter_creator
              Toy.engine ToyQueries.queries 29]
           [] true [0; 2; 3] 29 [[[1; 2; 4]]; [[3; 6]]]
           _ ("4k3/8/8/8/8/8/8/R3K3,Kq,-" : str) 4 1).
  - now left.
  - right. now left.
  - reflexivity.
  - reflexivity.
Defined.

(** ** The most chosen moves of an entry *)

Section MostChosen.
Context `{E : RulesEngine}.

Import Aggregator Writer.

Lemma fold_left_max_in (cs : list nat) :
  forall c, In (fold_left Nat.max cs c) (c :: cs).
Proof.
  induction cs as [|a cs IH]; intros c; simpl; [now left|].
  destruct (IH (Nat.max c a)) as [Heq | Hin].
  - destruct (Nat.max_spec c a) as [[_ Hm] | [_ Hm]]; rewrite Hm in *.
    + right. now left.
    + now left.
  - right. now right.
Qed.

Lemma max_of_values (d : list (Move * nat)) (mx : nat) :
  match map snd d with
  | [] => None
  | c :: cs => Some (fold_left Nat.max cs c)
  end = Some mx ->
  In mx (map snd d) /\ forall c, In c (map snd d) -> c <= mx.
Proof.
  destruct (map snd d) as [|c cs]; [discriminate|].
  intros Heq. injection Heq as <-. split.
  - apply fold_left_max_in.
  - intros x Hx. now apply fold_left_max_ge.
Qed.

(** X26: for an entry that holds some move, and no move twice as in a
    Python dictionary, [max] answers a count that some move holds and
    none exceeds; the most chosen moves are exactly the moves with that
    count, so there is at least one, and they stand in the order of the
    dictionary. *)
Theorem most_chosen_moves_attain_the_maximum (cur_data : BoardInfo) :
  moves cur_data <> [] ->
  NoDup (map fst (moves cur_data)) ->
  exists mx,
    max_move_count cur_data = Some mx /\
    most_chosen_moves cur_data mx <> [] /\
    (forall move,
        In move (most_chosen_moves cur_data mx) <->
        Dict.get move_eqb (moves cur_data) move = Some mx) /\
    (forall move c,
        Dict.get move_eqb (moves cur_data) move = Some c -> c <= mx) /\
    most_chosen_moves cur_data mx
    = map fst (filter (fun mc => snd mc =? mx) (moves cur_data)).
Proof.
  intros Hne Hnd.
  assert (Hiff : forall mx move,
             In move (most_chosen_moves cur_data mx) <->
             Dict.get move_eqb (moves cur_data) move = Some mx).
  { intros mx move. unfold most_chosen_moves. rewrite filter_In. split.
    - intros [_ Hc].
      destruct (Dict.get move_eqb (moves cur_data) move) as [c|];
        [|discriminate Hc].
      apply Nat.eqb_eq in Hc. now subst c.
    - intros Hg. split; [exact (proj1 (get_some_value _ _ _ Hg))|].
      rewrite Hg. apply Nat.eqb_refl. }
  destruct (max_move_count_some cur_data Hne) as [mx Hmx].
  destruct (max_of_values (moves cur_data) mx Hmx) as [Hin Hge].
  exists mx. split; [exact Hmx|].
  apply in_map_iff in Hin as [[m c] [Hc Hin]]. simpl in Hc. subst c.
  apply (get_in move_eqb move_eqb_eq _ _ _ Hnd) in Hin.
  split; [|split; [|split]].
  - intros Hnil. apply (Hiff mx m) in Hin. rewrite Hnil in Hin.
    destruct Hin.
  - exact (Hiff mx).
  - intros move c Hg. apply get_some_value in Hg as [_ Hv].
    exact (Hge c Hv).
  - unfold most_chosen_moves. clear Hin Hiff Hne Hmx Hge. revert Hnd.
    induction (moves cur_data) as [|[k v] d IH]; intros Hnd;
      [reflexivity|].
    inversion Hnd as [|? ? Hk Hd]; subst. simpl.
    destruct (move_eqb_spec k k) as [_|Hkk]; [|now elim Hkk].
    assert (Hrest :
      filter (fun move =>
                match (if move_eqb k move then Some v
                       else Dict.get move_eqb d move) with
                | Some c => c =? mx
                | None => false
                end) (map fst d)
      = filter (fun move =>
                  match Dict.get move_eqb d move with
                  | Some c => c =? mx
                  | None => false
                  end) (map fst d)).
    { apply filter_ext_in. intros a Ha.
      destruct (move_eqb_spec k a) as [->|_]; [now elim Hk | reflexivity]. }
    destruct (v =? mx); simpl; rewrite Hrest, (IH Hd); reflexivity.
Qed.

End MostChosen.

Lemma most_chosen_moves_attain_the_maximum_witness :
  exists mx,
    @Writer.max_move_count Toy.engine (Toy.info [(5, 2); (3, 7); (9, 7)])
    = Some mx /\
    @Writer.most_chosen_moves Toy.engine
      (Toy.info [(5, 2); (3, 7); (9, 7)]) mx = [3; 9].
Proof.
  destruct (@most_chosen_moves_attain_the_maximum Toy.engine
              (Toy.info [(5, 2); (3, 7); (9, 7)]))
    as [mx [Hmax [_ [_ [_ Hlist]]]]].
  - discriminate.
  - repeat constructor; simpl; intuition discriminate.
  - exists mx. split; [exact Hmax|].
    rewrite Hlist. injection Hmax as <-. reflexivity.
Defined.
